(** * Model 100 BASIC tools: packer and tokenizer

    A shallow embedding of [src/pack_basic.py] and [src/tokenize_basic.py]
    and the properties of the natural-language specification checked
    against them, followed by further properties that the code has:
    invariants of the compaction passes, of the merger, of the
    renumbering, of the file format, of the tokenizer and of the encoder.

    Conventions of the embedding.
    - A Python [int] is a [Z] (or an [N] where the source can only produce a
      non-negative number, as for the line numbers matched by [\d+]).
    - The tokenizer's input is a list of code points ([Z]), because its
      behaviour on characters above 255 matters; its output buffer is a
      list of [Z] kept in order, and [bytearray.append] is the partial
      function [append], whose [None] is Python's [ValueError].
    - The packer's text is ASCII (section 6 of the specification, "ASCII
      source format"): a [list ascii], on which the helper functions of
      module [PyStr] are Python's [str] methods restricted to ASCII.
    - A [while] loop over an index [i] is a structural recursion over the
      characters from position [i] on; [i += n] is rendered by a counter of
      characters still to be skipped, and a nested loop by a mode of the
      scanner.
    - The dictionary [line_map] is a [gmap N N], the set [targets] a
      [gset N].
    - A file is the list of its lines as the iteration over the open
      file yields them, and what is written to a file is the list of the
      strings written; an exception that ends a function is a [None].
    - [int] and [str] raise [ValueError] beyond 4300 digits.  The
      functions of the packer are given as the values they return on
      programs whose line numbers and operands stay within this limit
      ([py_int], [py_str]); for [update_line_references] the exception is
      modelled as well ([update_line_references_raising]). *)

From Stdlib Require Import ZArith NArith List Ascii String Bool Lia.
From Stdlib Require Import DecimalString DecimalN DecimalFacts.
From stdpp Require Import base option list gmap.
Import ListNotations.

Open Scope Z_scope.

(** ** Python string helpers on ASCII text *)

Module PyStr.

Abbreviation text := (list ascii).

Definition str (s : string) : text := list_ascii_of_string s.

Definition code_of (c : ascii) : N := N_of_ascii c.

Definition upper_char (c : ascii) : ascii :=
  if (97 <=? code_of c)%N && (code_of c <=? 122)%N
  then ascii_of_N (code_of c - 32) else c.

(** [s.upper()] *)
Definition upper (s : text) : text := map upper_char s.

(** [c.isdigit()] *)
Definition isdigit (c : ascii) : bool :=
  (48 <=? code_of c)%N && (code_of c <=? 57)%N.

(** [c.isalpha()] *)
Definition isalpha (c : ascii) : bool :=
  ((65 <=? code_of c)%N && (code_of c <=? 90)%N)
  || ((97 <=? code_of c)%N && (code_of c <=? 122)%N).

(** [c.isspace()]: tab, newline, vertical tab, form feed, carriage return,
    the four separators 28..31 and the space. *)
Definition isspace (c : ascii) : bool :=
  ((9 <=? code_of c)%N && (code_of c <=? 13)%N)
  || ((28 <=? code_of c)%N && (code_of c <=? 32)%N).

Definition ch_eqb (a b : ascii) : bool := Ascii.eqb a b.

(** [s.startswith(p)] *)
Fixpoint startswith (s p : text) : bool :=
  match p, s with
  | [], _ => true
  | _ :: _, [] => false
  | b :: p', a :: s' => ch_eqb a b && startswith s' p'
  end.

(** [s.endswith(c)] for a one-character suffix *)
Definition endswith_char (s : text) (c : ascii) : bool :=
  match rev s with
  | a :: _ => ch_eqb a c
  | [] => false
  end.

Fixpoint drop_while (p : ascii -> bool) (s : text) : text :=
  match s with
  | a :: s' => if p a then drop_while p s' else s
  | [] => []
  end.

(** [s.lstrip()], [s.rstrip()], [s.strip()] and [s.lstrip(' ')] *)
Definition lstrip (s : text) : text := drop_while isspace s.
Definition rstrip (s : text) : text := rev (drop_while isspace (rev s)).
Definition strip (s : text) : text := lstrip (rstrip s).
Definition lstrip_blank (s : text) : text :=
  drop_while (fun c => ch_eqb c " ") s.

(** [str(n)] for a non-negative integer *)
Definition py_str (n : N) : text := str (NilZero.string_of_uint (N.to_uint n)).

(** [int(s)] on a run of ASCII digits: the number that is returned when
    [int] returns *)
Definition py_int (ds : text) : N :=
  match NilEmpty.uint_of_string (string_of_list_ascii ds) with
  | Some d => N.of_uint d
  | None => 0%N
  end.




(** [len(s)] as a Python integer *)
Definition len {A} (s : list A) : Z := Z.of_nat (length s).

End PyStr.

(** ** [tokenize_basic.py] *)

Module Tokenize.

(** [ord(c)] of an ASCII character and the code points of a literal *)
Definition ord (a : ascii) : Z := Z.of_N (N_of_ascii a).
Definition cps (s : string) : list Z := map ord (list_ascii_of_string s).

(** The table [TOKENS], in the order of the source. *)
Definition TOKENS : list (string * Z) :=
  [ ("END", 0x80); ("FOR", 0x81); ("NEXT", 0x82); ("DATA", 0x83);
    ("INPUT", 0x84); ("DIM", 0x85); ("READ", 0x86); ("LET", 0x87);
    ("GOTO", 0x88); ("RUN", 0x89); ("IF", 0x8A); ("RESTORE", 0x8B);
    ("GOSUB", 0x8C); ("RETURN", 0x8D); ("REM", 0x8E); ("STOP", 0x8F);
    ("WIDTH", 0x90); ("ELSE", 0x91); ("LINE", 0x92); ("EDIT", 0x93);
    ("ERROR", 0x94); ("RESUME", 0x95); ("OUT", 0x96); ("ON", 0x97);
    ("DSKO$", 0x98); ("OPEN", 0x99); ("CLOSE", 0x9A); ("LOAD", 0x9B);
    ("MERGE", 0x9C); ("FILES", 0x9D); ("SAVE", 0x9E); ("LFILES", 0x9F);
    ("LPRINT", 0xA0); ("DEF", 0xA1); ("POKE", 0xA2); ("PRINT", 0xA3);
    ("CONT", 0xA4); ("LIST", 0xA5); ("LLIST", 0xA6); ("CLEAR", 0xA7);
    ("CLOAD", 0xA8); ("CSAVE", 0xA9); ("TIME$", 0xAA); ("DATE$", 0xAB);
    ("DAY$", 0xAC); ("COM", 0xAD); ("MDM", 0xAE); ("KEY", 0xAF);
    ("CLS", 0xB0); ("BEEP", 0xB1); ("SOUND", 0xB2); ("LCOPY", 0xB3);
    ("PSET", 0xB4); ("PRESET", 0xB5); ("MOTOR", 0xB6); ("MAX", 0xB7);
    ("POWER", 0xB8); ("CALL", 0xB9); ("MENU", 0xBA); ("IPL", 0xBB);
    ("NAME", 0xBC); ("KILL", 0xBD); ("SCREEN", 0xBE); ("NEW", 0xBF);
    ("TAB(", 0xC0); ("TO", 0xC1); ("USING", 0xC2); ("VARPTR", 0xC3);
    ("ERL", 0xC4); ("ERR", 0xC5); ("STRING$", 0xC6); ("INSTR", 0xC7);
    ("DSKI$", 0xC8); ("INKEY$", 0xC9); ("CSRLIN", 0xCA); ("OFF", 0xCB);
    ("HIMEM", 0xCC); ("THEN", 0xCD); ("NOT", 0xCE); ("STEP", 0xCF);
    ("+", 0xD0); ("-", 0xD1); ("*", 0xD2); ("/", 0xD3); ("^", 0xD4);
    ("AND", 0xD5); ("OR", 0xD6); ("XOR", 0xD7); ("EQV", 0xD8);
    ("IMP", 0xD9); ("MOD", 0xDA); ("\", 0xDB); (">", 0xDC); ("=", 0xDD);
    ("<", 0xDE);
    ("SGN", 0xDF); ("INT", 0xE0); ("ABS", 0xE1); ("FRE", 0xE2);
    ("INP", 0xE3); ("LPOS", 0xE4); ("POS", 0xE5); ("SQR", 0xE6);
    ("RND", 0xE7); ("LOG", 0xE8); ("EXP", 0xE9); ("COS", 0xEA);
    ("SIN", 0xEB); ("TAN", 0xEC); ("ATN", 0xED); ("PEEK", 0xEE);
    ("EOF", 0xEF);
    ("LOC", 0xF0); ("LOF", 0xF1); ("CINT", 0xF2); ("CSNG", 0xF3);
    ("CDBL", 0xF4); ("FIX", 0xF5); ("LEN", 0xF6); ("STR$", 0xF7);
    ("VAL", 0xF8); ("ASC", 0xF9); ("CHR$", 0xFA); ("SPACE$", 0xFB);
    ("LEFT$", 0xFC); ("RIGHT$", 0xFD); ("MID$", 0xFE); ("'", 0xFF) ]%string.

(** [c.upper()] of one code point, as far as a lookup in [TOKENS] can see
    it.  The keys of the table are ASCII, so only an upper-case form made of
    ASCII characters alone can take part in a match: these are the letters
    a..z and the ten characters below (sharp s, dotless i, long s and the
    Latin ligatures).  The upper-case form of every other code point from
    128 on contains a code point from 128 on, and is represented by the
    code point itself. *)
Definition upper_cp (c : Z) : list Z :=
  if (97 <=? c) && (c <=? 122) then [c - 32]
  else if c =? 0xDF then cps "SS"
  else if c =? 0x131 then cps "I"
  else if c =? 0x17F then cps "S"
  else if c =? 0xFB00 then cps "FF"
  else if c =? 0xFB01 then cps "FI"
  else if c =? 0xFB02 then cps "FL"
  else if c =? 0xFB03 then cps "FFI"
  else if c =? 0xFB04 then cps "FFL"
  else if c =? 0xFB05 then cps "ST"
  else if c =? 0xFB06 then cps "ST"
  else [c].

(** [candidate.upper()] *)
Definition upper (s : list Z) : list Z := flat_map upper_cp s.

(** [TOKENS[u]] when [u in TOKENS] *)
Definition tokens_get (u : list Z) : option Z :=
  snd <$> find (fun kv => bool_decide (cps (fst kv) = u)) TOKENS.

(** The loop [for keyword_len in range(min(10, len - i), 0, -1)] over the
    text from position [i] on: the first (longest) candidate found in the
    table, with its upper-case spelling and its length. *)
Fixpoint match_from (keyword_len : nat) (rest : list Z)
  : option (Z * list Z * nat) :=
  match keyword_len with
  | O => None
  | S k =>
      let candidate := take keyword_len rest in
      let upper_candidate := upper candidate in
      match tokens_get upper_candidate with
      | Some token => Some (token, upper_candidate, keyword_len)
      | None => match_from k rest
      end
  end.

Definition match_keyword (rest : list Z) : option (Z * list Z * nat) :=
  match_from (Nat.min 10 (length rest)) rest.

(** [bytearray.append(v)]: a [ValueError] outside [range(0, 256)] *)
Definition append (buf : list Z) (v : Z) : option (list Z) :=
  if (0 <=? v) && (v <? 256) then Some (buf ++ [v]) else None.

(** [tokenized[-2]] and [tokenized.insert(-1, v)] *)
Definition second_last (buf : list Z) : option Z :=
  buf !! (length buf - 2)%nat.
Definition insert_before_last (buf : list Z) (v : Z) : list Z :=
  take (length buf - 1) buf ++ v :: drop (length buf - 1) buf.

(** The ELSE fix-up of lines 210-214, on the buffer that already holds
    the token. *)
Definition else_fixup (upper_candidate tokenized : list Z) : list Z :=
  if bool_decide (upper_candidate = cps "ELSE") then
    if (1 <? length tokenized)%nat
       && negb (bool_decide (second_last tokenized = Some 0x3A))
    then insert_before_last tokenized 0x3A
    else tokenized
  else tokenized.

(** The [while] loop of [tokenize_line].  [rest] is [ascii_code[i:]],
    [prev] is [ascii_code[i-1]] ([None] when [i = 0]) and [skip] counts the
    characters of a matched keyword that [i += keyword_len] jumps over. *)
Fixpoint tok_loop (rest : list Z) (skip : nat) (prev : option Z)
    (in_string : bool) (tokenized : list Z) : option (list Z) :=
  match rest with
  | [] => Some tokenized
  | c :: rest' =>
      match skip with
      | S k => tok_loop rest' k (Some c) in_string tokenized
      | O =>
          if bool_decide (c = 34) && negb (bool_decide (prev = Some 92)) then
            t ← append tokenized 34;
            tok_loop rest' 0 (Some c) (negb in_string) t
          else if bool_decide (c = 39) && negb in_string then
            t1 ← append tokenized 0x3A;
            t2 ← append t1 0x8E;
            append t2 0xFF
          else if in_string then
            t ← append tokenized c;
            tok_loop rest' 0 (Some c) in_string t
          else
            match match_keyword rest with
            | Some (token, upper_candidate, keyword_len) =>
                t ← append tokenized token;
                tok_loop rest' (keyword_len - 1) (Some c) in_string
                         (else_fixup upper_candidate t)
            | None =>
                t ← append tokenized c;
                tok_loop rest' 0 (Some c) in_string t
            end
      end
  end.

Definition tokenize_line (ascii_code : list Z) : option (list Z) :=
  tok_loop ascii_code 0 None false [].

(** *** The binary encoder (second half of [create_tokenized_file]) *)

(** A tokenized line: line number and tokenized code. *)
Abbreviation tline := (Z * list Z)%type.

Definition line_size (tokenized_code : list Z) : Z :=
  2 + 2 + PyStr.len tokenized_code + 1.

(** First pass: [line_addresses] and the final [temp_address]. *)
Fixpoint calc_addresses (tokenized_lines : list tline)
    (line_addresses : list Z) (temp_address : Z) : list Z * Z :=
  match tokenized_lines with
  | [] => (line_addresses, temp_address)
  | (_, tokenized_code) :: rest =>
      calc_addresses rest (line_addresses ++ [temp_address])
                     (temp_address + line_size tokenized_code)
  end.

(** Second pass: the [enumerate] loop writing the records; [total] is
    [len(tokenized_lines)]. *)
Fixpoint write_lines (total : nat) (line_addresses : list Z)
    (temp_address : Z) (i : nat) (lines : list tline)
    (output_data : list Z) : list Z :=
  match lines with
  | [] => output_data
  | (line_number, tokenized_code) :: rest =>
      let next_address :=
        if (i + 1 <? total)%nat then nth (i + 1) line_addresses 0
        else temp_address in
      write_lines total line_addresses temp_address (S i) rest
        (output_data
           ++ [Z.land next_address 0xFF;
               Z.land (Z.shiftr next_address 8) 0xFF;
               Z.land line_number 0xFF;
               Z.land (Z.shiftr line_number 8) 0xFF]
           ++ tokenized_code ++ [0x00])
  end.

Definition encode_lines (base_address : Z) (tokenized_lines : list tline)
  : list Z :=
  let '(line_addresses, temp_address) :=
    calc_addresses tokenized_lines [] base_address in
  write_lines (length tokenized_lines) line_addresses temp_address 0
              tokenized_lines [].

(** *** Reading the source lines (first half of [create_tokenized_file]) *)

(** [c.isspace()] on code points *)
Definition isspace_cp (c : Z) : bool :=
  ((9 <=? c) && (c <=? 13)) || ((28 <=? c) && (c <=? 32))
  || (c =? 0x85) || (c =? 0xA0) || (c =? 0x1680)
  || ((0x2000 <=? c) && (c <=? 0x200A))
  || (c =? 0x2028) || (c =? 0x2029) || (c =? 0x202F) || (c =? 0x205F)
  || (c =? 0x3000).

(** [line.rstrip('\r\n')] *)
Fixpoint drop_crlf (rev_line : list Z) : list Z :=
  match rev_line with
  | c :: r => if (c =? 13) || (c =? 10) then drop_crlf r else rev_line
  | [] => []
  end.
Definition rstrip_crlf (line : list Z) : list Z := rev (drop_crlf (rev line)).

(** [line.split(' ', 1)]: the text before the first space and, when there
    is a space, the text after it. *)
Fixpoint split_space (line : list Z) : list Z * option (list Z) :=
  match line with
  | [] => ([], None)
  | c :: r =>
      if c =? 32 then ([], Some r)
      else let '(a, b) := split_space r in (c :: a, b)
  end.

Section Reader.

(** Python's [int(s)] on a string; [None] is its [ValueError]. *)
Variable py_int : list Z -> option Z.

Definition parse_line (line : list Z) : option (Z * list Z) :=
  let '(part0, part1) := split_space line in
  line_number ← py_int part0;
  Some (line_number, default [] part1).

(** The body of the [try] block: [None] when a [ValueError] is raised. *)
Definition try_line (line : list Z) : option tline :=
  '(line_number, code) ← parse_line line;
  tokenized_code ← tokenize_line code;
  Some (line_number, tokenized_code).

(** The loop over [lines] building [tokenized_lines]. *)
Fixpoint read_lines (lines : list (list Z)) (tokenized_lines : list tline)
  : list tline :=
  match lines with
  | [] => tokenized_lines
  | line :: rest =>
      let line := rstrip_crlf line in
      if forallb isspace_cp line then read_lines rest tokenized_lines
      else
        match try_line line with
        | Some tl => read_lines rest (tokenized_lines ++ [tl])
        | None => read_lines rest tokenized_lines
        end
  end.

Definition create_tokenized_file (lines : list (list Z)) (base_address : Z)
  : list Z :=
  encode_lines base_address (read_lines lines []).

End Reader.

End Tokenize.

(** ** [pack_basic.py] *)

Module Pack.
Import PyStr.

(** The double quote, the apostrophe and the other characters the source
    compares with. *)
Definition dquote : ascii := Eval cbv in ascii_of_N 34.
Definition squote : ascii := Eval cbv in ascii_of_N 39.
Definition colon : ascii := ":"%char.
Definition blank : ascii := " "%char.
Definition semicolon : ascii := ";"%char.
Definition comma : ascii := ","%char.
Definition tab : ascii := Eval cbv in ascii_of_N 9.
Definition rparen : ascii := ")"%char.

(** *** [remove_comment] *)

(** The backtracking loop of lines 44-48 on the reversed buffer: blanks
    are popped up to and including the first colon. *)
Fixpoint backtrack_rev (rev_result : text) : text :=
  match rev_result with
  | c :: r =>
      if ch_eqb c colon then r
      else if ch_eqb c blank then backtrack_rev r
      else rev_result
  | [] => []
  end.

Definition backtrack (result : text) : text := rev (backtrack_rev (rev result)).

Fixpoint remove_comment_loop (line : text) (in_string : bool) (result : text)
  : text :=
  match line with
  | [] => result
  | char :: rest =>
      if ch_eqb char dquote then
        remove_comment_loop rest (negb in_string) (result ++ [char])
      else if ch_eqb char squote && negb in_string then
        backtrack result
      else
        remove_comment_loop rest in_string (result ++ [char])
  end.

Definition remove_comment (line : text) : text :=
  rstrip (remove_comment_loop line false []).

(** *** [pack_spaces] *)

Fixpoint pack_spaces_loop (line : text) (in_string : bool) (result : text)
  : text :=
  match line with
  | [] => result
  | char :: rest =>
      if ch_eqb char dquote then
        pack_spaces_loop rest (negb in_string) (result ++ [char])
      else if in_string then
        pack_spaces_loop rest in_string (result ++ [char])
      else if ch_eqb char blank then
        let remaining := lstrip_blank rest in
        match remaining with
        | [] => pack_spaces_loop rest in_string result
        | _ :: _ =>
            if startswith (upper remaining) (str "AND")
               || startswith (upper remaining) (str "OR")
            then
              match last result with
              | Some c =>
                  if ch_eqb c blank
                  then pack_spaces_loop rest in_string result
                  else pack_spaces_loop rest in_string (result ++ [blank])
              | None => pack_spaces_loop rest in_string (result ++ [blank])
              end
            else pack_spaces_loop rest in_string result
        end
      else pack_spaces_loop rest in_string (result ++ [char])
  end.

Definition pack_spaces (line : text) : text :=
  let packed := pack_spaces_loop line false [] in
  if startswith (upper packed) (str "DATA")
     && (4 <? length packed)%nat
     && negb (bool_decide (packed !! 4%nat = Some blank))
  then str "DATA " ++ drop 4 packed
  else packed.

(** *** [remove_trailing_quote] *)

(** The [for] loop of lines 135-139: [in_string] and [last_open_quote]
    (which the function never reads afterwards). *)
Fixpoint quote_scan (line : text) (i : Z) (in_string : bool)
    (last_open_quote : Z) : bool * Z :=
  match line with
  | [] => (in_string, last_open_quote)
  | char :: rest =>
      if ch_eqb char dquote then
        quote_scan rest (i + 1) (negb in_string)
                   (if in_string then last_open_quote else i)
      else quote_scan rest (i + 1) in_string last_open_quote
  end.

Definition remove_trailing_quote (line : text) : text :=
  match line with
  | [] => line
  | _ :: _ =>
      if negb (endswith_char (rstrip line) dquote) then line
      else
        let '(in_string, _) := quote_scan line 0 false (-1) in
        if negb in_string && endswith_char (rstrip line) dquote
        then removelast (rstrip line)
        else line
  end.

(** *** [remove_print_semicolons] *)

(** The decision of lines 205-228 for a semicolon inside PRINT: [true]
    when it is dropped.  [rest] is [line[i+1:]] and [result] the buffer. *)
Definition drop_semicolon (rest result : text) : bool :=
  let after := lstrip_blank rest in
  match after with
  | [] => false
  | nxt :: _ =>
      if ch_eqb nxt colon then false
      else
        match last (rstrip result) with
        | Some p =>
            if ch_eqb p rparen || ch_eqb p dquote then
              let next_upper := upper after in
              startswith next_upper (str "CHR$")
              || startswith next_upper (str "STRING$")
              || startswith next_upper [dquote]
              || (match next_upper with
                  | c0 :: _ => isalpha c0
                  | [] => false
                  end && negb (startswith next_upper (str "ELSE")))
            else false
        | None => false
        end
  end.

(** [skip] counts the characters of the keyword PRINT that [i += 5] jumps
    over; they are already in the buffer. *)
Fixpoint semicolons_loop (line : text) (skip : nat) (in_string in_print : bool)
    (result : text) : text :=
  match line with
  | [] => result
  | char :: rest =>
      match skip with
      | S k => semicolons_loop rest k in_string in_print result
      | O =>
          if ch_eqb char dquote then
            semicolons_loop rest 0 (negb in_string) in_print (result ++ [char])
          else if in_string then
            semicolons_loop rest 0 in_string in_print (result ++ [char])
          else if startswith (upper line) (str "PRINT") then
            semicolons_loop rest 4 in_string true (result ++ take 5 line)
          else if in_print && ch_eqb char colon then
            semicolons_loop rest 0 in_string false (result ++ [char])
          else if in_print && ch_eqb char semicolon then
            if drop_semicolon rest result
            then semicolons_loop rest 0 in_string in_print result
            else semicolons_loop rest 0 in_string in_print (result ++ [char])
          else semicolons_loop rest 0 in_string in_print (result ++ [char])
      end
  end.

Definition remove_print_semicolons (line : text) : text :=
  semicolons_loop line 0 false false [].

(** *** Jump keywords and their operands *)

(** The loop [for keyword in ['GOTO', 'GOSUB', 'THEN', 'ELSE']] on
    [remaining = code[i:].upper()]: the length of the first keyword that
    [remaining] starts with. *)
Definition jump_keywords : list text :=
  [str "GOTO"; str "GOSUB"; str "THEN"; str "ELSE"].

Definition keyword_at (code_from_i : text) : option nat :=
  length <$> find (fun keyword => startswith (upper code_from_i) keyword)
                  jump_keywords.

(** [code[i] in (',', ' ', '\t')] *)
Definition is_separator (c : ascii) : bool :=
  ch_eqb c comma || ch_eqb c blank || ch_eqb c tab.

(** The position of the scanner of [find_line_targets] and of
    [update_line_references] in their nested loops: in the outer loop; on
    the characters of a matched keyword, [n] of them still to pass; in the
    operand loop; inside a run of digits read so far. *)
Inductive mode :=
  | Outer
  | InKeyword (n : nat)
  | Operands
  | Digits (run : text).

Definition after_keyword (n : nat) : mode :=
  match n with O => Operands | S _ => InKeyword n end.

(** Where the scanner stands when it looks at character [c]: a run of
    digits ends before a non-digit, and the operand loop is left ([break])
    before a character that is neither a digit nor a separator.  The first
    component tells whether a run of digits has just ended. *)
Definition settle (m : mode) (c : ascii) : option text * mode :=
  match m with
  | Digits run =>
      if isdigit c then (None, Digits run)
      else if is_separator c then (Some run, Operands)
      else (Some run, Outer)
  | Operands =>
      if isdigit c || is_separator c then (None, Operands) else (None, Outer)
  | _ => (None, m)
  end.

(** *** [find_line_targets] *)

Fixpoint targets_loop (code : text) (m : mode) (in_string : bool)
    (targets : gset N) : gset N :=
  match code with
  | [] =>
      match m with
      | Digits run => targets ∪ {[ py_int run ]}
      | _ => targets
      end
  | c :: rest =>
      let '(ended, m') := settle m c in
      let targets :=
        match ended with
        | Some run => targets ∪ {[ py_int run ]}
        | None => targets
        end in
      match m' with
      | Digits run => targets_loop rest (Digits (run ++ [c])) in_string targets
      | Operands =>
          if isdigit c then targets_loop rest (Digits [c]) in_string targets
          else targets_loop rest Operands in_string targets
      | InKeyword n => targets_loop rest (after_keyword (n - 1)) in_string targets
      | Outer =>
          if ch_eqb c dquote then targets_loop rest Outer (negb in_string) targets
          else if in_string then targets_loop rest Outer in_string targets
          else
            match keyword_at code with
            | Some n => targets_loop rest (after_keyword (n - 1)) in_string targets
            | None => targets_loop rest Outer in_string targets
            end
      end
  end.

Fixpoint find_line_targets_from (lines : list (N * text)) (targets : gset N)
  : gset N :=
  match lines with
  | [] => targets
  | (line_num, code) :: rest =>
      let code_clean := remove_comment code in
      find_line_targets_from rest (targets_loop code_clean Outer false targets)
  end.

Definition find_line_targets (lines : list (N * text)) : gset N :=
  find_line_targets_from lines ∅.

(** *** [update_line_references] *)

(** [str(line_map.get(old_line, old_line))] for the run of digits [run] *)
Definition new_reference (line_map : gmap N N) (run : text) : text :=
  let old_line := py_int run in
  py_str (default old_line (line_map !! old_line)).

Fixpoint update_loop (line_map : gmap N N) (code : text) (m : mode)
    (in_string : bool) : text :=
  match code with
  | [] =>
      match m with
      | Digits run => new_reference line_map run
      | _ => []
      end
  | c :: rest =>
      let '(ended, m') := settle m c in
      match ended with
      | Some run => new_reference line_map run
      | None => []
      end ++
      match m' with
      | Digits run => update_loop line_map rest (Digits (run ++ [c])) in_string
      | Operands =>
          if isdigit c then update_loop line_map rest (Digits [c]) in_string
          else c :: update_loop line_map rest Operands in_string
      | InKeyword n => c :: update_loop line_map rest (after_keyword (n - 1)) in_string
      | Outer =>
          if ch_eqb c dquote then
            c :: update_loop line_map rest Outer (negb in_string)
          else if in_string then
            c :: update_loop line_map rest Outer in_string
          else
            match keyword_at code with
            | Some n => c :: update_loop line_map rest (after_keyword (n - 1)) in_string
            | None => c :: update_loop line_map rest Outer in_string
            end
      end
  end.

Definition update_line_references (code : text) (line_map : gmap N N) : text :=
  update_loop line_map code Outer false.




(** *** [ends_with_control_flow] *)

(** The loop of lines 337-341: the index of the last colon outside a
    string, [-1] when there is none. *)
Fixpoint last_colon_scan (code : text) (i : Z) (in_string : bool)
    (last_colon : Z) : Z :=
  match code with
  | [] => last_colon
  | char :: rest =>
      if ch_eqb char dquote then
        last_colon_scan rest (i + 1) (negb in_string) last_colon
      else if ch_eqb char colon && negb in_string then
        last_colon_scan rest (i + 1) in_string i
      else last_colon_scan rest (i + 1) in_string last_colon
  end.

Definition last_statement (code : text) : text :=
  let last_colon := last_colon_scan code 0 false (-1) in
  if 0 <=? last_colon then strip (drop (Z.to_nat (last_colon + 1)) code)
  else strip code.

(** The inner loop of lines 373-381 from position [j] on: whether THEN was
    found and the value it leaves in the variable [in_string], which it
    shares with the outer loop. *)
Fixpoint then_scan (code_from_j : text) (in_string : bool) : bool * bool :=
  match code_from_j with
  | [] => (false, in_string)
  | c :: rest =>
      if ch_eqb c dquote then then_scan rest (negb in_string)
      else if negb in_string && startswith (upper code_from_j) (str "THEN")
      then (true, in_string)
      else then_scan rest in_string
  end.

(** The outer loop of lines 363-382 from position [i] on. *)
Fixpoint if_scan (code_from_i : text) (in_string : bool) : bool :=
  match code_from_i with
  | [] => false
  | c :: rest =>
      if ch_eqb c dquote then if_scan rest (negb in_string)
      else if negb in_string && startswith (upper code_from_i) (str "IF") then
        let '(found, in_string') := then_scan (drop 2 code_from_i) in_string in
        if found then true else if_scan rest in_string'
      else if_scan rest in_string
  end.

Definition ends_with_control_flow (code : text) : bool :=
  let code := rstrip code in
  match code with
  | [] => false
  | _ :: _ =>
      let last_stmt := last_statement code in
      let last_stmt_upper := upper last_stmt in
      if bool_decide (last_stmt_upper = str "RETURN")
         || bool_decide (last_stmt_upper = str "END")
         || bool_decide (last_stmt_upper = str "STOP")
      then true
      else if startswith last_stmt_upper (str "GOTO")
              && match strip (drop 4 last_stmt) with
                 | c :: _ => isdigit c
                 | [] => false
                 end
      then true
      else if_scan code false
  end.

(** *** [merge_lines] *)

(** An entry of [merged]: the anchor line number, [None] for a
    continuation of a split line, and the text. *)
Abbreviation mline := (option N * list ascii)%type.

Definition is_data (seg : text) : bool := startswith (upper seg) (str "DATA").

(** Lines 410-423: the segments joined with [' :'] after a DATA statement
    and [':'] otherwise. *)
Fixpoint join_from (prev_seg : text) (segs : list text) : text :=
  match segs with
  | [] => []
  | seg :: rest =>
      (if is_data prev_seg then str " :" else str ":") ++ seg
        ++ join_from seg rest
  end.

Definition join_segments (current_code : list text) : text :=
  match current_code with
  | [] => []
  | seg :: rest => seg ++ join_from seg rest
  end.

(** [flush_current(start_line)], as the list of lines it appends to
    [merged]; it reads [current_code] of the enclosing function. *)
Definition flush_current (max_line_length : Z) (current_code : list text)
    (start_line : N) : list mline :=
  match current_code with
  | [] => []
  | first :: others =>
      let combined := join_segments current_code in
      let max_code_length := max_line_length - len (py_str start_line) - 1 in
      if len combined <=? max_code_length
      then [(Some start_line, combined)]
      else (Some start_line, first) :: map (fun seg => (None, seg)) others
  end.

(** The variables of [merge_lines] that live across iterations. *)
Record merge_state := MergeState {
  merged : list mline;
  current_start_line : option N;
  current_code : list text;
  prevent_merge : bool
}.

Definition sum_len (segs : list text) : Z :=
  foldr (fun s acc => len s + acc) 0 segs.

(** One iteration of the loop of lines 441-475. *)
Definition merge_step (targets : gset N) (max_line_length : Z)
    (st : merge_state) (line : N * text) : merge_state :=
  let '(line_num, code) := line in
  let st' :=
    if bool_decide (line_num ∈ targets) || prevent_merge st then
      let merged' :=
        match current_start_line st with
        | Some start => merged st ++ flush_current max_line_length (current_code st) start
        | None => merged st
        end in
      MergeState merged' (Some line_num) [code] (prevent_merge st)
    else
      let start := default line_num (current_start_line st) in
      let separator :=
        match last (current_code st) with
        | Some seg => if is_data seg then str " :" else str ":"
        | None => str ":"
        end in
      let test_combined_len :=
        sum_len (current_code st) + len separator * len (current_code st)
        + len code in
      let max_code_length := max_line_length - len (py_str start) - 1 in
      if test_combined_len <=? max_code_length
      then MergeState (merged st) (Some start) (current_code st ++ [code])
                      (prevent_merge st)
      else MergeState (merged st ++ flush_current max_line_length (current_code st) start)
                      (Some line_num) [code] (prevent_merge st)
  in
  MergeState (merged st') (current_start_line st') (current_code st')
             (ends_with_control_flow code).

Definition merge_init : merge_state := MergeState [] None [] false.

(** Lines 477-481: the final flush. *)
Definition merge_finish (max_line_length : Z) (st : merge_state) : list mline :=
  match current_start_line st with
  | Some start => merged st ++ flush_current max_line_length (current_code st) start
  | None => merged st
  end.

Definition merge_lines (lines : list (N * text)) (targets : gset N)
    (max_line_length : Z) : list mline :=
  merge_finish max_line_length
    (foldl (merge_step targets max_line_length) merge_init lines).

(** *** [pack_basic_file], from the parsed lines to the lines written *)

Definition pack_line (code : text) : text :=
  remove_print_semicolons (pack_spaces (remove_comment code)).

(** Lines 559-565: [line_map], with the counter [new_line_num]. *)
Fixpoint build_line_map (merged : list mline) (new_line_num : N)
    (line_map : gmap N N) : gmap N N :=
  match merged with
  | [] => line_map
  | (old_line_num, _) :: rest =>
      let line_map' :=
        match old_line_num with
        | Some old =>
            match line_map !! old with
            | None => <[old := new_line_num]> line_map
            | Some _ => line_map
            end
        | None => line_map
        end in
      build_line_map rest (new_line_num + 1)%N line_map'
  end.

(** Lines 568-579: [final_lines], with the counter [current_new_num].
    The subscript [line_map[old_line_num]] cannot fail, since every anchor
    of [merged] is a key of [line_map]; the default stands for that. *)
Fixpoint renumber (line_map : gmap N N) (merged : list mline)
    (current_new_num : N) : list (N * text) :=
  match merged with
  | [] => []
  | (old_line_num, code) :: rest =>
      let updated_code := update_line_references code line_map in
      let new_line_num :=
        match old_line_num with
        | Some old => default 0%N (line_map !! old)
        | None => current_new_num
        end in
      (new_line_num, updated_code) :: renumber line_map rest (new_line_num + 1)%N
  end.

Record packed_program := PackedProgram {
  pp_targets : gset N;
  pp_merged : list mline;
  pp_line_map : gmap N N;
  pp_output : list (N * text)
}.

(** The stages of [pack_basic_file] on the parsed [lines]; [pp_output] is
    what the last loop writes, one [(line_num, code)] per output line. *)
Definition pack_program (lines : list (N * text)) : packed_program :=
  let packed := map (fun '(num, code) => (num, pack_line code)) lines in
  let targets := find_line_targets packed in
  let merged := merge_lines packed targets 255 in
  let line_map := build_line_map merged 1%N ∅ in
  let final_lines := renumber line_map merged 1%N in
  PackedProgram targets merged line_map
    (map (fun '(line_num, code) => (line_num, remove_trailing_quote code))
         final_lines).

(** *** [parse_basic_file] *)

Definition newline : ascii := Eval cbv in ascii_of_N 10.
Definition carriage_return : ascii := Eval cbv in ascii_of_N 13.

(** [line.rstrip('\n\r')] *)
Definition rstrip_newlines (line : text) : text :=
  rev (drop_while (fun c => ch_eqb c newline || ch_eqb c carriage_return)
                  (rev line)).

(** The longest prefix of characters satisfying [p]. *)
Fixpoint take_while (p : ascii -> bool) (s : text) : text :=
  match s with
  | a :: s' => if p a then a :: take_while p s' else []
  | [] => []
  end.

(** The regular expression matched at the start of the line (line 251):
    a run of digits, a run of white space and the rest of the line; the
    value is its two groups, the digits and the rest.  The digits are
    taken greedily and a white-space character has to follow them, so that
    no shorter run of digits can match; the white space is taken greedily
    as well, and the rest stops before a newline, which the dot of the
    expression does not match. *)
Definition match_numbered (line : text) : option (text * text) :=
  match take_while isdigit line, drop_while isdigit line with
  | (_ :: _) as digits, (c :: _) as rest =>
      if isspace c
      then Some (digits,
                 take_while (fun c => negb (ch_eqb c newline))
                            (drop_while isspace rest))
      else None
  | _, _ => None
  end.

(** The body of the loop of [parse_basic_file] on one line of the file:
    the pair appended to [lines], [None] when nothing is appended. *)
Definition parse_basic_line (line : text) : option (N * text) :=
  let line := rstrip_newlines line in
  match strip line with
  | [] => None
  | _ :: _ =>
      match match_numbered line with
      | Some (digits, code) =>
          let line_num := py_int digits in
          match strip code with
          | [] => None
          | c :: _ =>
              if negb (ch_eqb c squote) then Some (line_num, code) else None
          end
      | None => None
      end
  end.

(** [parse_basic_file], from the lines of the file as the iteration over
    it yields them. *)
Fixpoint parse_basic_file (file : list text) : list (N * text) :=
  match file with
  | [] => []
  | line :: rest =>
      match parse_basic_line line with
      | Some l => l :: parse_basic_file rest
      | None => parse_basic_file rest
      end
  end.

(** *** The output file *)

(** [f"{line_num} {code}\n"] *)
Definition output_line (l : N * text) : text :=
  py_str (fst l) ++ blank :: snd l ++ [newline].

End Pack.

(** ** Definitions that follow the words of the specification *)

Module Spec.
Import PyStr.

(** *** Binary format (sections 4.7 and 6) *)

(** A 16-bit value, little-endian. *)
Definition u16le (v : Z) : list Z := [v mod 256; (v / 256) mod 256].

(** Size of the record of a line: 5 bytes plus the payload. *)
Definition record_size (l : Tokenize.tline) : Z := 5 + len (snd l).

Definition total_size (lines : list Tokenize.tline) : Z :=
  foldr (fun l acc => record_size l + acc) 0 lines.

(** The successor address of the [k]-th line: the base address plus the
    sizes of the records of the lines [0..k]. *)
Definition successor_address (base : Z) (lines : list Tokenize.tline)
    (k : nat) : Z :=
  base + total_size (take (S k) lines).

(** The record [next-addr:u16-LE][line-number:u16-LE][payload][0x00]. *)
Definition record (successor : Z) (l : Tokenize.tline) : list Z :=
  u16le successor ++ u16le (fst l) ++ snd l ++ [0].

(** The same output read record by record from address [addr]: each
    record carries the address that follows it. *)
Fixpoint records_from (addr : Z) (lines : list Tokenize.tline) : list Z :=
  match lines with
  | [] => []
  | l :: rest =>
      record (addr + record_size l) l ++ records_from (addr + record_size l) rest
  end.

(** Decoding with the address formula: the payload of the record that
    starts at [addr] has [successor - addr - 5] bytes. *)
Fixpoint decode_from (fuel : nat) (addr : Z) (data : list Z)
  : option (list Tokenize.tline) :=
  match data with
  | [] => Some []
  | lo :: hi :: nlo :: nhi :: rest =>
      match fuel with
      | O => None
      | S fuel' =>
          let successor := lo + 256 * hi in
          let payload_len := successor - addr - 5 in
          if (0 <=? payload_len) && (payload_len <? len rest) then
            match drop (Z.to_nat payload_len) rest with
            | 0 :: rest' =>
                match decode_from fuel' successor rest' with
                | Some ls =>
                    Some ((nlo + 256 * nhi, take (Z.to_nat payload_len) rest) :: ls)
                | None => None
                end
            | _ => None
            end
          else None
      end
  | _ => None
  end.

Definition decode (base : Z) (data : list Z) : option (list Tokenize.tline) :=
  decode_from (length data) base data.

(** *** Tokenizer (sections 4.6 and 8) *)

(** The bytes emitted for an apostrophe: colon, REM token, quote token. *)
Definition comment_marker : list Z := [0x3A; 0x8E; 0xFF].

(** The payload bytes preceding the comment marker that ends a payload. *)
Definition code_portion (payload : list Z) : list Z :=
  take (length payload - 3) payload.

(** A code point that fits a byte. *)
Definition is_byte (c : Z) : Prop := 0 <= c <= 255.

(** Whether an apostrophe outside a string literal, the start of a
    comment, occurs in [code]; [prev] is the character before [code] and
    [in_string] tells whether a string literal is open there.  A double
    quote opens or closes a literal unless a backslash precedes it. *)
Fixpoint comment_starts (code : list Z) (prev : option Z) (in_string : bool)
  : bool :=
  match code with
  | [] => false
  | c :: rest =>
      if bool_decide (c = 34) && negb (bool_decide (prev = Some 92))
      then comment_starts rest (Some c) (negb in_string)
      else if bool_decide (c = 39) && negb in_string then true
      else comment_starts rest (Some c) in_string
  end.

(** Whether a string literal is open at the end of [code], by the rule of
    the tokenizer: a double quote opens or closes a literal unless a
    backslash precedes it. *)
Fixpoint string_open (code : list Z) (prev : option Z) (in_string : bool)
  : bool :=
  match code with
  | [] => in_string
  | c :: rest =>
      if bool_decide (c = 34) && negb (bool_decide (prev = Some 92))
      then string_open rest (Some c) (negb in_string)
      else string_open rest (Some c) in_string
  end.

(** *** Scanner (section 4.1) *)

(** The number of double quotes of a text: the quote at a position opens
    a string literal when an even number of quotes precedes it. *)
Fixpoint count_quotes (s : text) : nat :=
  match s with
  | [] => 0%nat
  | c :: r => ((if ch_eqb c Pack.dquote then 1 else 0) + count_quotes r)%nat
  end.

(** The text without the characters satisfying [p] at its end. *)
Definition strip_end (p : ascii -> bool) (s : text) : text :=
  rev (drop_while p (rev s)).

Definition is_blank (c : ascii) : bool := ch_eqb c Pack.blank.
Definition is_colon_or_blank (c : ascii) : bool :=
  ch_eqb c Pack.colon || ch_eqb c Pack.blank.

(** The text without its last character when that is a colon. *)
Definition drop_last_colon (s : text) : text :=
  match rev s with
  | c :: r => if ch_eqb c Pack.colon then rev r else s
  | [] => []
  end.

(** The index of the first apostrophe outside a string literal. *)
Fixpoint comment_index (line : text) (in_string : bool) : option nat :=
  match line with
  | [] => None
  | c :: r =>
      if ch_eqb c Pack.dquote then S <$> comment_index r (negb in_string)
      else if ch_eqb c Pack.squote && negb in_string then Some 0%nat
      else S <$> comment_index r in_string
  end.

(** Comment removal as the specification words it: the text before the
    comment, without the whole run of colons and blanks at its end. *)
Definition claimed_remove_comment (line : text) : text :=
  match comment_index line false with
  | Some k => strip_end is_colon_or_blank (take k line)
  | None => line
  end.

(** Comment removal as the code does it: the blanks before the comment go,
    then one colon, then the white space at the end of what is left. *)
Definition described_remove_comment (line : text) : text :=
  rstrip (match comment_index line false with
          | Some k => drop_last_colon (strip_end is_blank (take k line))
          | None => line
          end).

(** The last non-blank character is a quote that closes, respectively
    opens, a string literal. *)
Definition ends_with_closing_quote (line : text) : bool :=
  endswith_char (rstrip line) Pack.dquote && Nat.even (count_quotes line).
Definition ends_with_opening_quote (line : text) : bool :=
  endswith_char (rstrip line) Pack.dquote && Nat.odd (count_quotes line).

(** Trailing-quote removal as the specification words it. *)
Definition claimed_remove_trailing_quote (line : text) : text :=
  if ends_with_opening_quote line then removelast (rstrip line) else line.

(** *** Reference fixup (section 4.5) *)

(** A line cut at the operands of its jump keywords: a character copied
    as it is, or a run of digits read as a line number. *)
Inductive piece :=
  | Plain (c : ascii)
  | Reference (run : text).


(** The pieces of a line, cut where the scanner of
    [update_line_references] reads the operands of GOTO, GOSUB, THEN and
    ELSE outside strings. *)
Fixpoint pieces_loop (code : text) (m : Pack.mode) (in_string : bool)
  : list piece :=
  match code with
  | [] =>
      match m with
      | Pack.Digits run => [Reference run]
      | _ => []
      end
  | c :: rest =>
      let '(ended, m') := Pack.settle m c in
      match ended with
      | Some run => [Reference run]
      | None => []
      end ++
      match m' with
      | Pack.Digits run => pieces_loop rest (Pack.Digits (run ++ [c])) in_string
      | Pack.Operands =>
          if isdigit c then pieces_loop rest (Pack.Digits [c]) in_string
          else Plain c :: pieces_loop rest Pack.Operands in_string
      | Pack.InKeyword n =>
          Plain c :: pieces_loop rest (Pack.after_keyword (n - 1)) in_string
      | Pack.Outer =>
          if ch_eqb c Pack.dquote then
            Plain c :: pieces_loop rest Pack.Outer (negb in_string)
          else if in_string then
            Plain c :: pieces_loop rest Pack.Outer in_string
          else
            match Pack.keyword_at code with
            | Some n => Plain c :: pieces_loop rest (Pack.after_keyword (n - 1)) in_string
            | None => Plain c :: pieces_loop rest Pack.Outer in_string
            end
      end
  end.

Definition pieces (code : text) : list piece := pieces_loop code Pack.Outer false.

(** A piece after the fixup: a reference that is a key of [line_map] is
    replaced by its new number, any other reference is written as the
    decimal form of its own value. *)
Definition rewrite_piece (line_map : gmap N N) (p : piece) : text :=
  match p with
  | Plain c => [c]
  | Reference run =>
      match line_map !! py_int run with
      | Some new_line => py_str new_line
      | None => py_str (py_int run)
      end
  end.

(** A non-empty run of digits. *)
Definition digit_run (run : text) : Prop :=
  run <> [] /\ Forall (fun c => isdigit c = true) run.















(** *** Control-flow classifier (section 4.3) *)

(** A text made of white space only. *)
Definition spaces (ws : text) : Prop := Forall (fun c => isspace c = true) ws.

(** The position [k] of [code] is outside the string literals. *)
Definition outside_string (code : text) (k : nat) : bool :=
  Nat.even (count_quotes (take k code)).

(** The keyword [kw] stands at position [k], outside the strings. *)
Definition keyword_outside (kw : string) (code : text) (k : nat) : bool :=
  outside_string code k && startswith (upper (drop k code)) (str kw).

Definition positions (code : text) : list nat := seq 0 (length code).

(** [IF] together with a later [THEN], both outside strings. *)
Definition if_then_outside (code : text) : bool :=
  existsb (fun i =>
             keyword_outside "IF" code i
             && existsb (fun j => (i + 2 <=? j)%nat && keyword_outside "THEN" code j)
                        (positions code))
          (positions code).

(** The content after the final colon outside strings, the whole code
    when there is none, without the white space around it. *)
Definition last_top_level_statement (code : text) : text :=
  let colons :=
    List.filter (fun k => bool_decide (code !! k = Some Pack.colon)
                          && outside_string code k)
                (positions code) in
  strip (match last colons with
         | Some k => drop (S k) code
         | None => code
         end).

(** The classifier as the specification words it: the last statement is
    RETURN, END or STOP (in any letter case), or starts with GOTO followed,
    white space apart, by a digit, or the line holds IF and a later THEN
    outside strings. *)
Definition claimed_control_flow (code : text) : bool :=
  let stmt := last_top_level_statement code in
  bool_decide (upper stmt = str "RETURN") || bool_decide (upper stmt = str "END")
  || bool_decide (upper stmt = str "STOP")
  || (startswith (upper stmt) (str "GOTO")
      && match strip (drop 4 stmt) with
         | c :: _ => isdigit c
         | [] => false
         end)
  || if_then_outside code.

(** *** Merger (section 4.4) *)

(** The output of the merger, so far or pending, opens with a physical
    line anchored at [n] whose text starts with [c]: either nothing was
    flushed yet and [c] leads the pending line of anchor [n], or the first
    flushed line is such a line. *)
Definition opens_with (n : N) (c : text) (st : Pack.merge_state) : Prop :=
  (Pack.merged st = [] /\ Pack.current_start_line st = Some n
   /\ exists more, Pack.current_code st = c :: more)
  \/ (exists tail rest, Pack.merged st = (Some n, c ++ tail) :: rest).

(** *** Programs whose string literals are closed *)

(** Every string literal of the line is closed. *)
Definition closed (code : text) : Prop := Nat.even (count_quotes code) = true.

(** The scanner in mode [m] before [code]: the keyword characters still
    to pass lie in [code], and none of them is a quote. *)
Definition within (m : Pack.mode) (code : text) : Prop :=
  match m with
  | Pack.InKeyword n =>
      (1 <= n <= length code)%nat /\ count_quotes (take n code) = 0%nat
  | _ => True
  end.

(** The separator the merger puts between two segments. *)
Definition separator (sep : text) : Prop :=
  sep = [Pack.colon] \/ sep = [Pack.blank; Pack.colon].

(** The line has no comment and no white space at its end. *)
Definition bare (code : text) : Prop :=
  comment_index code false = None /\ rstrip code = code.

(** The text is made of compacted lines of the program, joined by the
    merger. *)
Definition joined (lines : list (N * text)) (t : text) : Prop :=
  exists segs,
    Forall (fun seg => exists n, In (n, seg) lines) segs
    /\ t = Pack.join_segments segs.

(** The text is empty or ends with a character that is not white space. *)
Definition solid (x : text) : Prop :=
  x = [] \/ exists p c, x = p ++ [c] /\ isspace c = false.

(** *** What the compaction passes leave in place *)

(** The text without the characters satisfying [p] that stand outside the
    string literals; [in_string] tells whether a literal is open at the
    start. *)
Fixpoint erase_outside (p : ascii -> bool) (x : text) (in_string : bool)
  : text :=
  match x with
  | [] => []
  | c :: r =>
      if ch_eqb c Pack.dquote then c :: erase_outside p r (negb in_string)
      else if in_string then c :: erase_outside p r in_string
      else if p c then erase_outside p r in_string
      else c :: erase_outside p r in_string
  end.

Definition is_semicolon (c : ascii) : bool := ch_eqb c Pack.semicolon.

(** *** The lines of the merger *)

(** The anchors of the merged lines, in order. *)
Definition anchors (merged : list Pack.mline) : list N := omap fst merged.

(** A merged line is the code of one line of the program, or it is
    anchored and fits the length budget together with its old number and
    the blank after it. *)
Definition within_budget (lines : list (N * text)) (max_line_length : Z)
    (e : Pack.mline) : Prop :=
  (exists n, In (n, snd e) lines)
  \/ (exists start,
        fst e = Some start
        /\ len (snd e) <= max_line_length - len (py_str start) - 1).

(** *** The file format of the packer *)

(** A line that can be written and read back: its code starts with a
    character that is neither white space nor an apostrophe, and holds no
    newline and no carriage return. *)
Definition readable (l : N * text) : Prop :=
  (exists c r, snd l = c :: r /\ isspace c = false
               /\ ch_eqb c Pack.squote = false)
  /\ Forall (fun c => ch_eqb c Pack.newline || ch_eqb c Pack.carriage_return
                      = false) (snd l).

End Spec.

(** * Verified properties *)

(** ** The binary encoder *)

Module EncoderProofs.
Import PyStr Tokenize Spec.

#[local] Arguments total_size : simpl never.
#[local] Arguments record_size : simpl never.
#[local] Arguments record : simpl never.
#[local] Arguments u16le : simpl never.

Lemma line_size_record_size (l : tline) : line_size (snd l) = record_size l.
Proof. unfold line_size, record_size. lia. Qed.

Lemma total_size_app (l1 l2 : list tline) :
  total_size (l1 ++ l2) = total_size l1 + total_size l2.
Proof.
  induction l1 as [|l l1 IH]; simpl; [reflexivity|].
  unfold total_size in *. simpl. rewrite IH. lia.
Qed.

Lemma total_size_nil : total_size [] = 0.
Proof. reflexivity. Qed.

Lemma total_size_cons (l : tline) (ls : list tline) :
  total_size (l :: ls) = record_size l + total_size ls.
Proof. reflexivity. Qed.

(** First pass: the start address of every line and the end address. *)
Lemma calc_addresses_spec (lines : list tline) (acc : list Z) (t : Z) :
  calc_addresses lines acc t
  = (acc ++ imap (fun k _ => t + total_size (take k lines)) lines,
     t + total_size lines).
Proof.
  revert acc t. induction lines as [|[n tc] lines IH]; intros acc t.
  - simpl. rewrite app_nil_r, total_size_nil. f_equal. lia.
  - simpl calc_addresses. rewrite IH. f_equal.
    + rewrite <- app_assoc. f_equal. simpl. f_equal.
      * rewrite total_size_nil; lia.
      * apply imap_ext. intros k x _. simpl.
        rewrite total_size_cons, <- (line_size_record_size (n, tc)). simpl. lia.
    + rewrite total_size_cons, <- (line_size_record_size (n, tc)). simpl. lia.
Qed.

Lemma nth_start_address (t : Z) (lines : list tline) (k : nat) :
  (k < length lines)%nat ->
  nth k (imap (fun k _ => t + total_size (take k lines)) lines) 0
  = t + total_size (take k lines).
Proof.
  intros Hk.
  destruct (lookup_lt_is_Some_2 lines k Hk) as [x Hx].
  apply nth_lookup_Some with (d := 0).
  rewrite list_lookup_imap, Hx. reflexivity.
Qed.

Lemma u16le_bytes (v : Z) :
  [Z.land v 0xFF; Z.land (Z.shiftr v 8) 0xFF] = u16le v.
Proof.
  unfold u16le. change 0xFF with (Z.ones 8).
  rewrite !Z.land_ones by lia. rewrite Z.shiftr_div_pow2 by lia.
  reflexivity.
Qed.

Lemma take_succ_app {A} (pre : list A) (l : A) (lines : list A) :
  take (length pre + 1) (pre ++ l :: lines) = pre ++ [l].
Proof.
  induction pre as [|x pre IH]; simpl; [destruct lines; reflexivity|].
  f_equal. exact IH.
Qed.

Lemma write_lines_cons (total : nat) (la : list Z) (temp : Z) (i : nat)
    (n : Z) (tc : list Z) (rest : list tline) (out : list Z) :
  write_lines total la temp i ((n, tc) :: rest) out
  = write_lines total la temp (S i) rest
      (out ++ [Z.land (if (i + 1 <? total)%nat then nth (i + 1) la 0 else temp) 0xFF;
               Z.land (Z.shiftr (if (i + 1 <? total)%nat then nth (i + 1) la 0 else temp) 8) 0xFF;
               Z.land n 0xFF; Z.land (Z.shiftr n 8) 0xFF] ++ tc ++ [0x00]).
Proof. reflexivity. Qed.

Lemma record_bytes (s n : Z) (tc : list Z) :
  [Z.land s 0xFF; Z.land (Z.shiftr s 8) 0xFF;
   Z.land n 0xFF; Z.land (Z.shiftr n 8) 0xFF] ++ tc ++ [0x00]
  = record s (n, tc).
Proof.
  unfold record. rewrite <- !u16le_bytes. reflexivity.
Qed.

(** Second pass: from line [i] on, the loop appends the records of the
    remaining lines. *)
Lemma write_lines_spec (base : Z) (pre lines : list tline) (out : list Z) :
  write_lines (length (pre ++ lines))
    (imap (fun k _ => base + total_size (take k (pre ++ lines))) (pre ++ lines))
    (base + total_size (pre ++ lines)) (length pre) lines out
  = out ++ records_from (base + total_size pre) lines.
Proof.
  revert pre out. induction lines as [|[n tc] lines IH]; intros pre out.
  - simpl. rewrite app_nil_r. reflexivity.
  - rewrite write_lines_cons.
    match goal with
    | |- context [Z.land (if ?c then ?a else ?b) 255] =>
        assert (Hnext : (if c then a else b)
                        = base + total_size pre + record_size (n, tc))
    end.
    { destruct (_ <? _)%nat eqn:E.
      - apply Nat.ltb_lt in E.
        rewrite nth_start_address by exact E.
        rewrite take_succ_app, total_size_app, total_size_cons.
        rewrite total_size_nil. lia.
      - apply Nat.ltb_ge in E. rewrite length_app in E. simpl in E.
        destruct lines; [|simpl in E; lia].
        rewrite total_size_app, total_size_cons, total_size_nil. lia. }
    rewrite Hnext.
    specialize (IH (pre ++ [(n, tc)])).
    replace ((pre ++ [(n, tc)]) ++ lines) with (pre ++ (n, tc) :: lines) in IH
      by (rewrite <- app_assoc; reflexivity).
    replace (length (pre ++ [(n, tc)])) with (S (length pre)) in IH
      by (rewrite length_app; simpl; lia).
    rewrite record_bytes, IH, <- app_assoc.
    rewrite total_size_app, total_size_cons, total_size_nil, Z.add_0_r.
    simpl records_from. rewrite Z.add_assoc. reflexivity.
Qed.

Lemma encode_lines_records (base : Z) (lines : list tline) :
  encode_lines base lines = records_from base lines.
Proof.
  unfold encode_lines. rewrite calc_addresses_spec. simpl app.
  pose proof (write_lines_spec base [] lines []) as H. simpl in H.
  rewrite H, total_size_nil, Z.add_0_r. reflexivity.
Qed.


Lemma records_from_cons (addr : Z) (l : tline) (lines : list tline) :
  records_from addr (l :: lines)
  = record (addr + record_size l) l ++ records_from (addr + record_size l) lines.
Proof. reflexivity. Qed.

Lemma records_from_indexed (base : Z) (pre lines : list tline) :
  records_from (base + total_size pre) lines
  = concat (imap (fun k l =>
                    record (successor_address base (pre ++ lines) (length pre + k)) l)
                 lines).
Proof.
  revert pre. induction lines as [|l lines IH]; intros pre; [reflexivity|].
  rewrite records_from_cons, imap_cons, concat_cons.
  assert (E : successor_address base (pre ++ l :: lines) (length pre + 0)
              = base + total_size pre + record_size l).
  { unfold successor_address.
    replace (S (length pre + 0)) with (length pre + 1)%nat by lia.
    rewrite take_succ_app, total_size_app, total_size_cons, total_size_nil. lia. }
  rewrite E. apply (f_equal (app _)).
  specialize (IH (pre ++ [l])).
  rewrite total_size_app, total_size_cons, total_size_nil, Z.add_0_r, Z.add_assoc in IH.
  rewrite IH. apply (f_equal (@concat Z)). apply imap_ext. intros k x _. simpl.
  rewrite <- app_assoc, length_app. simpl.
  replace (length pre + 1 + k)%nat with (length pre + S k)%nat by lia.
  reflexivity.
Qed.

Lemma records_from_length (addr : Z) (lines : list tline) :
  len (records_from addr lines) = total_size lines.
Proof.
  revert addr. induction lines as [|l lines IH]; intros addr; [reflexivity|].
  rewrite records_from_cons. unfold len in *. rewrite length_app, Nat2Z.inj_add, IH.
  rewrite total_size_cons. f_equal.
  unfold record, u16le, record_size, len. rewrite !length_app. simpl. lia.
Qed.

Lemma total_size_nonneg (lines : list tline) : 0 <= total_size lines.
Proof.
  induction lines as [|l lines IH]; [rewrite total_size_nil; lia|].
  rewrite total_size_cons. unfold record_size, len. lia.
Qed.

Lemma u16_value (v : Z) : 0 <= v <= 65535 -> v mod 256 + 256 * ((v / 256) mod 256) = v.
Proof.
  intros Hv. rewrite (Z.mod_small (v / 256) 256).
  - pose proof (Z.div_mod v 256). lia.
  - split; [apply Z.div_pos; lia | apply Z.div_lt_upper_bound; lia].
Qed.

(** Decoding the records written from [addr] returns the lines. *)
Lemma decode_records (fuel : nat) (addr : Z) (lines : list tline) :
  (length lines <= fuel)%nat ->
  0 <= addr -> addr + total_size lines <= 65535 ->
  Forall (fun l => 0 <= fst l <= 65535) lines ->
  decode_from fuel addr (records_from addr lines) = Some lines.
Proof.
  revert fuel addr. induction lines as [|[n p] lines IH]; intros fuel addr Hf Ha Hs Hn.
  - destruct fuel; reflexivity.
  - destruct fuel as [|fuel]; [simpl in Hf; lia|].
    rewrite total_size_cons in Hs.
    pose proof (total_size_nonneg lines) as Hpos.
    assert (Hp : 0 <= len p) by (unfold len; lia).
    inversion Hn as [|? ? Hn1 Hn2]; subst. simpl in Hn1.
    rewrite records_from_cons. unfold record at 1. unfold u16le. simpl fst. simpl snd.
    cbn [app decode_from].
    rewrite !u16_value by (unfold record_size in *; simpl in *; lia).
    replace (addr + record_size (n, p) - addr - 5) with (len p)
      by (unfold record_size; simpl; lia).
    replace (Z.to_nat (len p)) with (length p) by (unfold len; lia).
    assert (Hlen : (0 <=? len p) && (len p <? len (p ++ [0] ++ records_from (addr + record_size (n, p)) lines)) = true).
    { apply andb_true_intro. split; [apply Z.leb_le; lia|].
      apply Z.ltb_lt. unfold len. rewrite length_app. simpl. lia. }
    rewrite <- app_assoc. rewrite Hlen.
    rewrite drop_app_length, take_app_length. simpl app. cbv iota beta.
    rewrite IH; [reflexivity| simpl in Hf; lia | unfold record_size; simpl; lia
                | unfold record_size in *; simpl in *; lia | exact Hn2].
Qed.

(** C1 (as amended).  For every sequence of tokenized lines and every
    base address the encoder writes for the k-th line the record
    [successor address, u16 little-endian][line number, u16
    little-endian][payload][0x00], the two numbers being taken modulo
    65536, with successor address base + sum over j <= k of (5 + p_j); the
    output has exactly the size of these records (no sentinel follows), so
    that the last successor address is one byte past the end of the
    output.  When the line numbers and the addresses fit 16 bits, decoding
    with the address formula gives back every line number and payload. *)
Theorem encoder_layout_and_roundtrip (base : Z) (lines : list tline) :
  encode_lines base lines
    = concat (imap (fun k l => record (successor_address base lines k) l) lines)
  /\ len (encode_lines base lines) = total_size lines
  /\ (lines <> [] ->
      successor_address base lines (length lines - 1)
      = base + len (encode_lines base lines))
  /\ (0 <= base ->
      base + total_size lines <= 65535 ->
      Forall (fun l => 0 <= fst l <= 65535) lines ->
      (forall k, (k < length lines)%nat ->
         0 <= successor_address base lines k <= 65535)
      /\ decode base (encode_lines base lines) = Some lines).
Proof.
  rewrite encode_lines_records.
  split; [|split; [|split]].
  - pose proof (records_from_indexed base [] lines) as H.
    rewrite total_size_nil, Z.add_0_r in H. exact H.
  - apply records_from_length.
  - intros Hne. unfold successor_address. rewrite records_from_length.
    rewrite take_ge; [reflexivity|]. destruct lines; [congruence|simpl; lia].
  - intros Hb Hs Hn. split.
    + intros k Hk. unfold successor_address.
      pose proof (total_size_nonneg (take (S k) lines)).
      rewrite <- (take_drop (S k) lines) in Hs. rewrite total_size_app in Hs.
      pose proof (total_size_nonneg (drop (S k) lines)). lia.
    + unfold decode. apply decode_records; try assumption.
      pose proof (records_from_length base lines) as Hl. unfold len in Hl.
      assert (Z.of_nat (length lines) <= total_size lines); [|lia].
      clear. induction lines as [|l lines IH]; [rewrite total_size_nil; simpl; lia|].
      rewrite total_size_cons. unfold record_size, len. simpl length. lia.
Qed.

Lemma encoder_layout_and_roundtrip_witness :
  let lines := [(10, [163; 34; 72; 73]); (20, [136; 32; 49; 48]); (30, [128])] in
  0 <= 0x8001 /\ 0x8001 + total_size lines <= 65535
  /\ Forall (fun l => 0 <= fst l <= 65535) lines
  /\ decode 0x8001 (encode_lines 0x8001 lines) = Some lines.
Proof.
  intros lines.
  assert (H1 : 0 <= 0x8001) by lia.
  assert (H2 : 0x8001 + total_size lines <= 65535) by (vm_compute; discriminate).
  assert (H3 : Forall (fun l => 0 <= fst l <= 65535) lines)
    by (repeat constructor; simpl; lia).
  refine (conj H1 (conj H2 (conj H3 _))).
  exact (proj2 (proj2 (proj2 (proj2 (encoder_layout_and_roundtrip 0x8001 lines)))
                  H1 H2 H3)).
Defined.

(** C1, counterexample.  The line number 65536 is written as the bytes
    0, 0: its record is the record of line 0, and decoding does not give
    the line number back. *)
Lemma encoder_line_number_not_reproduced :
  encode_lines 0x8001 [(65536, [])] = encode_lines 0x8001 [(0, [])]
  /\ decode 0x8001 (encode_lines 0x8001 [(65536, [])]) <> Some [(65536, [])].
Proof.
  split; [reflexivity|]. vm_compute. discriminate.
Qed.

End EncoderProofs.

(** ** The tokenizer *)

Module TokenizerProofs.
Import PyStr Tokenize Spec.

(** *** Facts about the table *)

Lemma tokens_get_in (u : list Z) (t : Z) :
  tokens_get u = Some t -> exists key, In (key, t) TOKENS /\ cps key = u.
Proof.
  unfold tokens_get. intros H.
  destruct (find _ TOKENS) as [[key t']|] eqn:E; [|discriminate].
  simpl in H. injection H as ->.
  apply find_some in E. destruct E as [Hin Hb].
  apply bool_decide_eq_true in Hb. simpl in Hb. eauto.
Qed.

Lemma Forall_of_forallb {A} (f : A -> bool) (l : list A) :
  forallb f l = true -> Forall (fun x => f x = true) l.
Proof.
  induction l as [|x l IH]; simpl; intros H; constructor.
  - apply andb_prop in H. tauto.
  - apply IH. apply andb_prop in H. tauto.
Qed.

Lemma TOKENS_values :
  Forall (fun kv => (0x80 <=? snd kv) && (snd kv <=? 0xFF) = true) TOKENS.
Proof. apply Forall_of_forallb. vm_compute. reflexivity. Qed.

Lemma TOKENS_keys_ascii :
  Forall (fun kv => forallb (fun c => (0 <=? c) && (c <? 128)) (cps (fst kv)) = true)
         TOKENS.
Proof. apply Forall_of_forallb. vm_compute. reflexivity. Qed.

(** No key holds a double quote, and an apostrophe is at most the first
    character of a key. *)
Lemma TOKENS_keys_quotes :
  Forall (fun kv => forallb (fun c => negb (c =? 34)) (cps (fst kv))
                    && forallb (fun c => negb (c =? 39)) (tail (cps (fst kv))) = true)
         TOKENS.
Proof. apply Forall_of_forallb. vm_compute. reflexivity. Qed.

Lemma tokens_get_value (u : list Z) (t : Z) :
  tokens_get u = Some t -> 0x80 <= t <= 0xFF.
Proof.
  intros H. apply tokens_get_in in H. destruct H as (key & Hin & _).
  pose proof TOKENS_values as HV. rewrite Forall_forall in HV.
  specialize (HV (key, t) ltac:(apply list_elem_of_In; exact Hin)).
  simpl in HV. lia.
Qed.

Lemma tokens_get_ascii (u : list Z) (t : Z) :
  tokens_get u = Some t -> forall c, In c u -> 0 <= c < 128.
Proof.
  intros H c Hc. apply tokens_get_in in H. destruct H as (key & Hin & <-).
  pose proof TOKENS_keys_ascii as HV. rewrite Forall_forall in HV.
  specialize (HV (key, t) ltac:(apply list_elem_of_In; exact Hin)).
  simpl in HV. rewrite forallb_forall in HV. specialize (HV c Hc). lia.
Qed.

Lemma tokens_get_quotes (u : list Z) (t : Z) :
  tokens_get u = Some t ->
  (forall c, In c u -> c <> 34) /\ (forall c, In c (tail u) -> c <> 39).
Proof.
  intros H. apply tokens_get_in in H. destruct H as (key & Hin & <-).
  pose proof TOKENS_keys_quotes as HV. rewrite Forall_forall in HV.
  specialize (HV (key, t) ltac:(apply list_elem_of_In; exact Hin)). simpl in HV.
  apply andb_prop in HV. destruct HV as [H1 H2].
  rewrite forallb_forall in H1, H2.
  split; intros c Hc.
  - specialize (H1 c Hc). lia.
  - specialize (H2 c Hc). lia.
Qed.

(** *** The keyword match *)

Lemma match_from_spec (k : nat) (rest : list Z) (t : Z) (u : list Z) (L : nat) :
  match_from k rest = Some (t, u, L) ->
  (1 <= L <= k)%nat /\ u = upper (take L rest) /\ tokens_get u = Some t.
Proof.
  induction k as [|k IH]; [discriminate|].
  cbn [match_from]. destruct (tokens_get (upper (take (S k) rest))) eqn:E.
  - intros [= <- <- <-]. repeat split; [lia|lia|exact E].
  - intros H. apply IH in H. destruct H as (? & ? & ?).
    repeat split; [lia|lia|assumption|assumption].
Qed.

Lemma match_keyword_spec (rest : list Z) (t : Z) (u : list Z) (L : nat) :
  match_keyword rest = Some (t, u, L) ->
  (1 <= L <= length rest)%nat /\ u = upper (take L rest) /\ tokens_get u = Some t.
Proof.
  unfold match_keyword. intros H. apply match_from_spec in H.
  destruct H as (? & ? & ?). repeat split; try assumption; lia.
Qed.

Lemma upper_cp_nonempty (c : Z) : upper_cp c <> [].
Proof.
  unfold upper_cp.
  repeat (match goal with |- context [if ?b then _ else _] => destruct b end;
          [discriminate|]).
  discriminate.
Qed.

Lemma upper_app (a b : list Z) : upper (a ++ b) = upper a ++ upper b.
Proof. unfold upper. apply flat_map_app. Qed.

(** A character that is its own upper-case form shows in the upper-case
    form of every text that holds it. *)
Lemma upper_keeps (c : Z) (s : list Z) :
  upper_cp c = [c] -> In c s -> In c (upper s).
Proof.
  intros Hc Hin. unfold upper. apply in_flat_map. exists c.
  split; [exact Hin|]. rewrite Hc. left. reflexivity.
Qed.

(** *** The scanning loop *)

Lemma append_byte (buf : list Z) (v : Z) :
  is_byte v -> append buf v = Some (buf ++ [v]).
Proof.
  unfold is_byte, append. intros H.
  destruct (Z.leb_spec 0 v); [|lia]. destruct (Z.ltb_spec v 256); [|lia].
  reflexivity.
Qed.

Lemma append_wide (buf : list Z) (v : Z) : 255 < v -> append buf v = None.
Proof.
  unfold append. intros H.
  destruct (Z.ltb_spec v 256); [lia|]. rewrite andb_false_r. reflexivity.
Qed.

Lemma append_cases (buf : list Z) (v : Z) :
  append buf v = None \/ append buf v = Some (buf ++ [v]).
Proof. unfold append. destruct (_ && _); auto. Qed.

Lemma tok_loop_cons (c : Z) (rest : list Z) (prev : option Z)
    (in_string : bool) (tokenized : list Z) :
  tok_loop (c :: rest) 0 prev in_string tokenized
  = if bool_decide (c = 34) && negb (bool_decide (prev = Some 92)) then
      append tokenized 34 ≫= tok_loop rest 0 (Some c) (negb in_string)
    else if bool_decide (c = 39) && negb in_string then
      append tokenized 0x3A ≫= fun t1 => append t1 0x8E ≫= fun t2 => append t2 0xFF
    else if in_string then
      append tokenized c ≫= tok_loop rest 0 (Some c) in_string
    else
      match match_keyword (c :: rest) with
      | Some (token, upper_candidate, keyword_len) =>
          append tokenized token ≫= fun t =>
            tok_loop rest (keyword_len - 1) (Some c) in_string
                     (else_fixup upper_candidate t)
      | None => append tokenized c ≫= tok_loop rest 0 (Some c) in_string
      end.
Proof. reflexivity. Qed.

Lemma tok_loop_skip (c : Z) (rest : list Z) (k : nat) (prev : option Z)
    (in_string : bool) (tokenized : list Z) :
  tok_loop (c :: rest) (S k) prev in_string tokenized
  = tok_loop rest k (Some c) in_string tokenized.
Proof. reflexivity. Qed.

Lemma insert_before_last_bytes (buf : list Z) (v : Z) :
  is_byte v -> Forall is_byte buf -> Forall is_byte (insert_before_last buf v).
Proof.
  intros Hv Hb. unfold insert_before_last.
  apply Forall_app. split; [apply Forall_take; exact Hb|].
  constructor; [exact Hv | apply Forall_drop; exact Hb].
Qed.

Lemma else_fixup_bytes (u buf : list Z) :
  Forall is_byte buf -> Forall is_byte (else_fixup u buf).
Proof.
  intros Hb. unfold else_fixup.
  destruct (bool_decide _); [|exact Hb].
  destruct (_ && _); [|exact Hb].
  apply insert_before_last_bytes; [unfold is_byte; lia | exact Hb].
Qed.

Lemma Forall_snoc_byte (buf : list Z) (v : Z) :
  Forall is_byte buf -> is_byte v -> Forall is_byte (buf ++ [v]).
Proof. intros. apply Forall_app. split; [assumption|]. constructor; [assumption|constructor]. Qed.

(** On code points that fit a byte the loop always returns, and returns
    bytes. *)
Lemma tok_loop_total (rest : list Z) :
  forall (skip : nat) (prev : option Z) (in_string : bool) (out : list Z),
    Forall is_byte rest -> Forall is_byte out ->
    exists bs, tok_loop rest skip prev in_string out = Some bs /\ Forall is_byte bs.
Proof.
  induction rest as [|c rest IH]; intros skip prev s out Hr Ho.
  - exists out. split; [destruct skip; reflexivity | exact Ho].
  - inversion Hr as [|? ? Hc Hrest]; subst.
    destruct skip as [|k]; [|rewrite tok_loop_skip; apply IH; assumption].
    rewrite tok_loop_cons.
    destruct (bool_decide (c = 34) && negb (bool_decide (prev = Some 92))).
    { rewrite append_byte by (unfold is_byte; lia). simpl.
      apply IH; [assumption|]. apply Forall_snoc_byte; [assumption|unfold is_byte; lia]. }
    destruct (bool_decide (c = 39) && negb s).
    { rewrite append_byte by (unfold is_byte; lia). simpl.
      eexists. split; [reflexivity|].
      repeat apply Forall_snoc_byte; try assumption; unfold is_byte; lia. }
    destruct s.
    { rewrite append_byte by assumption. simpl.
      apply IH; [assumption|]. apply Forall_snoc_byte; assumption. }
    destruct (match_keyword (c :: rest)) as [[[t u] L]|] eqn:E.
    + apply match_keyword_spec in E. destruct E as (_ & _ & Ht).
      apply tokens_get_value in Ht.
      rewrite append_byte by (unfold is_byte; lia). simpl.
      apply IH; [assumption|]. apply else_fixup_bytes.
      apply Forall_snoc_byte; [assumption|unfold is_byte; lia].
    + rewrite append_byte by assumption. simpl.
      apply IH; [assumption|]. apply Forall_snoc_byte; assumption.
Qed.

(** A keyword match never takes in a character above 127 that is its own
    upper-case form. *)
Lemma match_keyword_stops (pre : list Z) (c : Z) (post : list Z)
    (t : Z) (u : list Z) (L : nat) :
  127 < c -> upper_cp c = [c] ->
  match_keyword (pre ++ c :: post) = Some (t, u, L) ->
  (L <= length pre)%nat /\ u = upper (take L pre).
Proof.
  intros Hc Hu H. apply match_keyword_spec in H. destruct H as (HL & -> & Ht).
  destruct (Nat.le_gt_cases L (length pre)) as [Hle|Hgt].
  - split; [exact Hle|]. rewrite take_app_le by exact Hle. reflexivity.
  - exfalso.
    assert (Hin : In c (take L (pre ++ c :: post))).
    { rewrite take_app_ge by lia. apply in_or_app. right.
      destruct (L - length pre)%nat as [|k] eqn:Ek; [lia|]. left. reflexivity. }
    apply (upper_keeps c _ Hu) in Hin.
    apply (tokens_get_ascii _ _ Ht) in Hin. lia.
Qed.

(** The characters that a keyword match jumps over are neither double
    quotes nor apostrophes. *)
Lemma matched_tail_quotes (a : Z) (tl u : list Z) (t : Z) :
  u = upper (a :: tl) -> tokens_get u = Some t ->
  forall x, In x tl -> x <> 34 /\ x <> 39.
Proof.
  intros -> Ht x Hx.
  destruct (tokens_get_quotes _ _ Ht) as [H34 H39].
  change (upper (a :: tl)) with (upper_cp a ++ upper tl) in H34, H39.
  split; intros ->.
  - apply (H34 34); [|reflexivity]. apply in_or_app. right.
    apply upper_keeps; [reflexivity|exact Hx].
  - apply (H39 39); [|reflexivity].
    pose proof (upper_cp_nonempty a) as Hne.
    destruct (upper_cp a) as [|h r]; [congruence|]. simpl.
    apply in_or_app. right. apply upper_keeps; [reflexivity|exact Hx].
Qed.

(** The loop fails on the first character above 255 that it reaches. *)
Lemma tok_loop_wide (pre : list Z) :
  forall (skip : nat) (prev : option Z) (in_string : bool) (out : list Z)
         (c : Z) (post : list Z),
    (skip <= length pre)%nat ->
    (forall x, In x (take skip pre) -> x <> 34 /\ x <> 39) ->
    comment_starts pre prev in_string = false ->
    255 < c -> upper_cp c = [c] ->
    tok_loop (pre ++ c :: post) skip prev in_string out = None.
Proof.
  induction pre as [|a pre IH]; intros skip prev s out c post Hs Hq Hcs Hc Hu.
  - simpl in Hs. assert (skip = 0%nat) as -> by lia. simpl app.
    rewrite tok_loop_cons.
    rewrite (bool_decide_eq_false_2 (c = 34)) by lia.
    rewrite (bool_decide_eq_false_2 (c = 39)) by lia. simpl.
    destruct s; [rewrite append_wide by lia; reflexivity|].
    destruct (match_keyword (c :: post)) as [[[t u] L]|] eqn:E.
    + pose proof (match_keyword_spec _ _ _ _ E) as (HL1 & _ & _).
      apply (match_keyword_stops [] c post) in E; [|lia|exact Hu].
      destruct E as [HL _]. simpl in HL. lia.
    + rewrite append_wide by lia. reflexivity.
  - simpl app. destruct skip as [|k].
    + rewrite tok_loop_cons. cbn [comment_starts] in Hcs.
      destruct (bool_decide (a = 34) && negb (bool_decide (prev = Some 92))).
      { destruct (append_cases out 34) as [-> | ->]; [reflexivity|]. simpl.
        apply IH; [lia | intros x Hx; simpl in Hx; contradiction | assumption..]. }
      destruct (bool_decide (a = 39) && negb s); [discriminate|].
      destruct s.
      { destruct (append_cases out a) as [-> | ->]; [reflexivity|]. simpl.
        apply IH; [lia | intros x Hx; simpl in Hx; contradiction | assumption..]. }
      destruct (match_keyword (a :: pre ++ c :: post)) as [[[t u] L]|] eqn:E.
      * pose proof E as E'.
        apply (match_keyword_stops (a :: pre) c post) in E'; [|lia|exact Hu].
        destruct E' as [HL Hu'].
        apply match_keyword_spec in E. destruct E as (HL1 & _ & Ht).
        destruct (append_cases out t) as [-> | ->]; [reflexivity|]. simpl.
        destruct L as [|L]; [lia|]. simpl in HL.
        replace (S L - 1)%nat with L by lia.
        apply IH; [lia | | assumption..].
        simpl in Hu'. apply (matched_tail_quotes a (take L pre) u t Hu' Ht).
      * destruct (append_cases out a) as [-> | ->]; [reflexivity|]. simpl.
        apply IH; [lia | intros x Hx; simpl in Hx; contradiction | assumption..].
    + rewrite tok_loop_skip.
      assert (Ha : a <> 34 /\ a <> 39) by (apply Hq; left; reflexivity).
      cbn [comment_starts] in Hcs.
      rewrite (bool_decide_eq_false_2 (a = 34)) in Hcs by tauto.
      rewrite (bool_decide_eq_false_2 (a = 39)) in Hcs by tauto.
      simpl in Hcs.
      apply IH; [simpl in Hs; lia | | assumption..].
      intros x Hx. apply Hq. right. exact Hx.
Qed.

(** *** The colon before ELSE *)

Lemma else_token_key (u : list Z) :
  tokens_get u = Some 0x91 -> u = cps "ELSE".
Proof.
  intros H. apply tokens_get_in in H. destruct H as (key & Hin & <-).
  revert key Hin.
  assert (HF : Forall (fun kv => negb (snd kv =? 0x91)
                                 || bool_decide (cps (fst kv) = cps "ELSE") = true) TOKENS)
    by (apply Forall_of_forallb; vm_compute; reflexivity).
  rewrite Forall_forall in HF. intros key Hin.
  specialize (HF (key, 0x91) ltac:(apply list_elem_of_In; exact Hin)).
  simpl in HF. apply bool_decide_eq_true in HF. exact HF.
Qed.

(** Every ELSE token of the buffer that is not its first byte follows a
    colon. *)
Lemma colon_before_else_nil :
  forall k, ([] : list Z) !! S k = Some 0x91 -> ([] : list Z) !! k = Some 0x3A.
Proof. intros k H. discriminate. Qed.

Lemma colon_before_else_snoc (buf : list Z) (v : Z) :
  (forall k, buf !! S k = Some 0x91 -> buf !! k = Some 0x3A) ->
  v <> 0x91 \/ last buf = Some 0x3A ->
  forall k, (buf ++ [v]) !! S k = Some 0x91 -> (buf ++ [v]) !! k = Some 0x3A.
Proof.
  intros Hb Hv k Hk.
  destruct (Nat.lt_ge_cases (S k) (length buf)) as [Hlt|Hge].
  - rewrite lookup_app_l in Hk by exact Hlt.
    rewrite lookup_app_l by lia. apply Hb. exact Hk.
  - rewrite lookup_app_r in Hk by exact Hge.
    destruct (S k - length buf)%nat as [|j] eqn:Ej; [|destruct j; discriminate].
    simpl in Hk. injection Hk as ->.
    destruct Hv as [Hv|Hl]; [congruence|].
    rewrite lookup_app_l by lia. rewrite last_lookup in Hl.
    replace k with (Nat.pred (length buf)) by lia. exact Hl.
Qed.

Lemma else_fixup_else (buf : list Z) :
  else_fixup (cps "ELSE") (buf ++ [0x91])
  = match last buf with
    | None => [0x91]
    | Some v => if bool_decide (v = 0x3A) then buf ++ [0x91]
                else buf ++ [0x3A; 0x91]
    end.
Proof.
  unfold else_fixup, second_last, insert_before_last.
  rewrite bool_decide_eq_true_2 by reflexivity.
  rewrite length_app. simpl length.
  destruct buf as [|b buf] using rev_ind; [reflexivity|].
  rewrite last_snoc, !length_app. simpl length.
  replace (length buf + 1 + 1 - 2)%nat with (length buf) by lia.
  replace (length buf + 1 + 1 - 1)%nat with (length (buf ++ [b]))
    by (rewrite length_app; simpl; lia).
  rewrite <- app_assoc. rewrite (lookup_app_r buf) by lia.
  rewrite Nat.sub_diag. simpl lookup.
  rewrite app_assoc, take_app_length, drop_app_length.
  assert (Hlt : (1 <? length buf + 1 + 1)%nat = true) by (apply Nat.ltb_lt; lia).
  rewrite Hlt. simpl andb.
  destruct (bool_decide_reflect (b = 0x3A)) as [->|Hne].
  - rewrite bool_decide_eq_true_2 by reflexivity. simpl. rewrite <- app_assoc. reflexivity.
  - rewrite (bool_decide_eq_false_2 (Some b = Some 58)) by congruence.
    simpl. rewrite <- app_assoc. reflexivity.
Qed.

Lemma colon_before_else_fixup (u : list Z) (t : Z) (buf : list Z) :
  tokens_get u = Some t ->
  (forall k, buf !! S k = Some 0x91 -> buf !! k = Some 0x3A) ->
  forall k, else_fixup u (buf ++ [t]) !! S k = Some 0x91 ->
            else_fixup u (buf ++ [t]) !! k = Some 0x3A.
Proof.
  intros Ht Hb.
  destruct (decide (u = cps "ELSE")) as [->|Hne].
  - assert (t = 0x91) as -> by (vm_compute in Ht; congruence).
    rewrite else_fixup_else.
    destruct (last buf) as [v|] eqn:El; [|intros k Hk; destruct k; discriminate].
    destruct (bool_decide_reflect (v = 0x3A)) as [->|Hv].
    + apply colon_before_else_snoc; [exact Hb | right; exact El].
    + change (buf ++ [58; 145]) with (buf ++ [58] ++ [145]). rewrite app_assoc.
      apply colon_before_else_snoc.
      * apply colon_before_else_snoc; [exact Hb | left; lia].
      * right. apply last_snoc.
  - unfold else_fixup. rewrite bool_decide_eq_false_2 by exact Hne.
    apply colon_before_else_snoc; [exact Hb|]. left. intros ->.
    apply Hne. apply else_token_key. exact Ht.
Qed.

Lemma tok_loop_colon_before_else (rest : list Z) :
  forall (skip : nat) (prev : option Z) (in_string : bool) (buf out : list Z),
    Forall (fun c => 0 <= c < 128) rest ->
    (forall k, buf !! S k = Some 0x91 -> buf !! k = Some 0x3A) ->
    tok_loop rest skip prev in_string buf = Some out ->
    forall k, out !! S k = Some 0x91 -> out !! k = Some 0x3A.
Proof.
  induction rest as [|c rest IH]; intros skip prev s buf out Hr Hb Hout.
  - assert (out = buf) as -> by (destruct skip; simpl in Hout; congruence).
    exact Hb.
  - inversion Hr as [|? ? Hc Hrest]; subst.
    destruct skip as [|j]; [|rewrite tok_loop_skip in Hout; eapply IH; eassumption].
    rewrite tok_loop_cons in Hout.
    destruct (bool_decide (c = 34) && negb (bool_decide (prev = Some 92))).
    { rewrite append_byte in Hout by (unfold is_byte; lia). simpl in Hout.
      eapply IH; [exact Hrest| |exact Hout].
      apply colon_before_else_snoc; [exact Hb | left; lia]. }
    destruct (bool_decide (c = 39) && negb s).
    { rewrite append_byte in Hout by (unfold is_byte; lia). simpl in Hout.
      injection Hout as <-.
      repeat (apply colon_before_else_snoc; [|left; lia]). exact Hb. }
    destruct s.
    { rewrite append_byte in Hout by (unfold is_byte; lia). simpl in Hout.
      eapply IH; [exact Hrest| |exact Hout].
      apply colon_before_else_snoc; [exact Hb | left; lia]. }
    destruct (match_keyword (c :: rest)) as [[[t u] L]|] eqn:E.
    + apply match_keyword_spec in E. destruct E as (_ & _ & Ht).
      pose proof (tokens_get_value _ _ Ht) as Hv.
      rewrite append_byte in Hout by (unfold is_byte; lia). simpl in Hout.
      eapply IH; [exact Hrest| |exact Hout].
      apply colon_before_else_fixup; assumption.
    + rewrite append_byte in Hout by (unfold is_byte; lia). simpl in Hout.
      eapply IH; [exact Hrest| |exact Hout].
      apply colon_before_else_snoc; [exact Hb | left; lia].
Qed.

(** Apart from the first byte of the payload, the ELSE tokens of an ASCII
    line follow a colon. *)
Lemma colon_before_else_after_start (code out : list Z) :
  Forall (fun c => 0 <= c < 128) code ->
  tokenize_line code = Some out ->
  forall k, out !! S k = Some 0x91 -> out !! k = Some 0x3A.
Proof.
  intros Hc Hout. unfold tokenize_line in Hout.
  eapply tok_loop_colon_before_else; [exact Hc|apply colon_before_else_nil|exact Hout].
Qed.

Lemma read_lines_skips (py_int : list Z -> option Z) (line : list Z)
    (rest : list (list Z)) (acc : list tline) :
  try_line py_int (rstrip_crlf line) = None ->
  read_lines py_int (line :: rest) acc = read_lines py_int rest acc.
Proof.
  intros H. cbn [read_lines]. rewrite H.
  destruct (forallb isspace_cp (rstrip_crlf line)); reflexivity.
Qed.

Lemma try_line_fails (py_int : list Z -> option Z) (line : list Z)
    (n : Z) (code : list Z) :
  parse_line py_int line = Some (n, code) -> tokenize_line code = None ->
  try_line py_int line = None.
Proof. intros Hp Ht. unfold try_line. rewrite Hp. simpl. rewrite Ht. reflexivity. Qed.

(** C10 (as amended).  Tokenization fails on a line whose code holds a
    character above 255 that the scanner reaches as a character of its own:
    one that no apostrophe outside a string literal precedes and that is
    its own upper-case form (which leaves out the nine characters above
    255 whose upper-case form is ASCII: U+0131, U+017F and U+FB00 to
    U+FB06).  The reading loop then skips the whole line
    and adds no record for it.  On code points up to 255 [tokenize_line]
    always returns a sequence of bytes. *)
Theorem wide_characters (py_int : list Z -> option Z) :
  (forall pre c post,
      comment_starts pre None false = false -> 255 < c -> upper_cp c = [c] ->
      tokenize_line (pre ++ c :: post) = None)
  /\ (forall line rest acc n code,
        parse_line py_int (rstrip_crlf line) = Some (n, code) ->
        tokenize_line code = None ->
        read_lines py_int (line :: rest) acc = read_lines py_int rest acc)
  /\ (forall code,
        Forall is_byte code ->
        exists bs, tokenize_line code = Some bs /\ Forall is_byte bs).
Proof.
  split; [|split].
  - intros pre c post Hcs Hc Hu. unfold tokenize_line.
    apply tok_loop_wide; [lia | intros x Hx; simpl in Hx; contradiction | assumption..].
  - intros line rest acc n code Hp Ht.
    apply read_lines_skips. exact (try_line_fails _ _ _ _ Hp Ht).
  - intros code Hb. unfold tokenize_line. apply tok_loop_total; [exact Hb|constructor].
Qed.

Lemma wide_characters_witness :
  comment_starts (cps "PRINT ") None false = false /\ 255 < 0x2603
  /\ upper_cp 0x2603 = [0x2603]
  /\ tokenize_line (cps "PRINT " ++ 0x2603 :: cps "!") = None.
Proof.
  assert (H1 : comment_starts (cps "PRINT ") None false = false) by reflexivity.
  assert (H2 : 255 < 0x2603) by lia.
  assert (H3 : upper_cp 0x2603 = [0x2603]) by reflexivity.
  refine (conj H1 (conj H2 (conj H3 _))).
  exact (proj1 (wide_characters (fun _ => None)) (cps "PRINT ") 0x2603 (cps "!") H1 H2 H3).
Defined.

(** C10, counterexample.  Two lines whose code holds a character above
    255 and is tokenized without an error: the snowman U+2603 in the text
    of a comment, and the long s U+017F, which with TOP makes the keyword
    STOP. *)
Lemma wide_character_tokenized :
  tokenize_line (cps "PRINT 1 '" ++ [0x2603])
    = Some [0xA3; 0x20; 0x31; 0x20; 0x3A; 0x8E; 0xFF]
  /\ tokenize_line (0x17F :: cps "TOP") = Some [0x8F].
Proof. split; reflexivity. Qed.

(** C6, the failing input and the example of the claim.  The ELSE token of
    a line that starts with ELSE is the first byte of the payload, with no
    colon before it; in the payload of [IF A THEN 20 ELSE 30] the token
    0x91 follows the inserted colon 0x3A. *)
Theorem else_at_start_has_no_colon :
  tokenize_line (cps "ELSE 30") = Some [0x91; 0x20; 0x33; 0x30]
  /\ tokenize_line (cps "IF A THEN 20 ELSE 30")
     = Some [0x8A; 0x20; 0x41; 0x20; 0xCD; 0x20; 0x32; 0x30; 0x20;
             0x3A; 0x91; 0x20; 0x33; 0x30].
Proof. split; reflexivity. Qed.

(** C7 (as amended).  The payloads of [PRINT 1 'hi] and [PRINT 1'hi] end
    with the same comment marker and hold nothing of the comment text; the
    bytes before the marker are those of [PRINT 1], followed in the first
    payload by the byte 0x20 of the space before the apostrophe. *)
Theorem comment_payloads :
  tokenize_line (cps "PRINT 1 'hi")
    = Some ([0xA3; 0x20; 0x31] ++ [0x20] ++ comment_marker)
  /\ tokenize_line (cps "PRINT 1'hi")
     = Some ([0xA3; 0x20; 0x31] ++ comment_marker).
Proof. split; reflexivity. Qed.

(** C7, counterexample.  The bytes preceding the comment marker differ. *)
Lemma comment_code_portions_differ :
  code_portion <$> tokenize_line (cps "PRINT 1 'hi")
  <> code_portion <$> tokenize_line (cps "PRINT 1'hi").
Proof. vm_compute. discriminate. Qed.

End TokenizerProofs.

(** ** The scanner: comments and trailing quotes *)

Module ScannerProofs.
Import PyStr Pack Spec.

(** *** The examples of the docstrings *)

Example remove_comment_docstring :
  remove_comment (str "DATA 1,2,3 : 'comment") = str "DATA 1,2,3"
  /\ remove_comment (str "A=1: B=2 : 'comment") = str "A=1: B=2".
Proof. split; reflexivity. Qed.

Example remove_print_semicolons_docstring :
  remove_print_semicolons (str "PRINT CHR$(235);STRING$(38,231);CHR$(236)")
  = str "PRINT CHR$(235)STRING$(38,231)CHR$(236)".
Proof. reflexivity. Qed.

Example pack_spaces_keeps_required_blanks :
  pack_spaces (str "IF A = 1 AND B = 2 THEN 50") = str "IFA=1 ANDB=2THEN50"
  /\ pack_spaces (str "DATA1, 2 ,3") = str "DATA 1,2,3".
Proof. split; reflexivity. Qed.

(** *** Trailing-quote removal *)

Lemma quote_scan_parity (line : text) :
  forall (i : Z) (in_string : bool) (last_open_quote : Z),
    fst (quote_scan line i in_string last_open_quote)
    = xorb in_string (Nat.odd (count_quotes line)).
Proof.
  induction line as [|c line IH]; intros i s lo.
  - simpl. destruct s; reflexivity.
  - cbn [quote_scan count_quotes]. destruct (ch_eqb c dquote).
    + rewrite IH. change (1 + count_quotes line)%nat with (S (count_quotes line)).
      rewrite Nat.odd_succ, <- Nat.negb_odd.
      destruct s, (Nat.odd (count_quotes line)); reflexivity.
    + rewrite IH. reflexivity.
Qed.

(** C5 (as amended).  The pass removes the final quote of a line, with the
    white space after it, precisely when that quote closes a string
    literal, that is when the line, white space at its end apart, ends
    with a quote and holds an even number of quotes; every other line is
    left as it is. *)
Theorem trailing_quote_removed_when_closing (line : text) :
  remove_trailing_quote line
  = if ends_with_closing_quote line then removelast (rstrip line) else line.
Proof.
  unfold remove_trailing_quote, ends_with_closing_quote.
  destruct line as [|c l]; [reflexivity|].
  destruct (endswith_char (rstrip (c :: l)) dquote); [|reflexivity].
  pose proof (quote_scan_parity (c :: l) 0 false (-1)) as H.
  destruct (quote_scan (c :: l) 0 false (-1)) as [s lo]. simpl in H. subst s.
  rewrite Nat.negb_odd. simpl. rewrite andb_true_r. reflexivity.
Qed.

(** C5, counterexample.  The final quote of the line PRINT, quote, HI,
    quote closes a string literal and is removed; the final quote of the
    line A$=, quote opens one that is never closed and is kept. *)
Lemma trailing_quote_not_removed_when_opening :
  let closed := str "PRINT " ++ [dquote] ++ str "HI" ++ [dquote] in
  let opened := str "A$=" ++ [dquote] in
  (ends_with_opening_quote closed = false
   /\ remove_trailing_quote closed = str "PRINT " ++ [dquote] ++ str "HI"
   /\ remove_trailing_quote closed <> claimed_remove_trailing_quote closed)
  /\ (ends_with_opening_quote opened = true
      /\ remove_trailing_quote opened = opened
      /\ remove_trailing_quote opened <> claimed_remove_trailing_quote opened).
Proof. vm_compute. repeat split; discriminate. Qed.

(** *** Comment removal *)

Lemma rev_snoc_char (s : text) (c : ascii) : rev (s ++ [c]) = c :: rev s.
Proof. apply rev_unit. Qed.

Lemma backtrack_rev_spec (r : text) :
  backtrack_rev r
  = match drop_while is_blank r with
    | c :: r' => if ch_eqb c colon then r' else c :: r'
    | [] => []
    end.
Proof.
  induction r as [|c r IH]; [reflexivity|].
  cbn [backtrack_rev drop_while]. unfold is_blank at 1.
  destruct (ch_eqb c colon) eqn:Ec.
  - destruct (ch_eqb c blank) eqn:Eb.
    + apply Ascii.eqb_eq in Ec, Eb. subst c. discriminate.
    + rewrite Ec. reflexivity.
  - destruct (ch_eqb c blank) eqn:Eb; [exact IH|]. rewrite Ec. reflexivity.
Qed.

Lemma backtrack_spec (result : text) :
  backtrack result = drop_last_colon (strip_end is_blank result).
Proof.
  unfold backtrack, drop_last_colon, strip_end.
  rewrite backtrack_rev_spec, rev_involutive.
  destruct (drop_while is_blank (rev result)) as [|c r']; [reflexivity|].
  destruct (ch_eqb c colon); reflexivity.
Qed.

Lemma remove_comment_loop_spec (line : text) :
  forall (in_string : bool) (result : text),
    remove_comment_loop line in_string result
    = match comment_index line in_string with
      | Some k => backtrack (result ++ take k line)
      | None => result ++ line
      end.
Proof.
  induction line as [|c line IH]; intros s result.
  - simpl. rewrite app_nil_r. reflexivity.
  - cbn [remove_comment_loop comment_index].
    destruct (ch_eqb c dquote).
    + rewrite IH. destruct (comment_index line (negb s)); simpl;
        rewrite <- app_assoc; reflexivity.
    + destruct (ch_eqb c squote && negb s).
      * simpl. rewrite app_nil_r. reflexivity.
      * rewrite IH. destruct (comment_index line s); simpl;
          rewrite <- app_assoc; reflexivity.
Qed.

(** C8 (as amended).  Comment removal keeps the text before the first
    apostrophe outside a string literal, from which it takes the blanks at
    the end, then one colon when a colon is then last, then the white
    space at the end; a line without such an apostrophe loses the white
    space at its end.  Everything else, the apostrophes of the string
    literals included, is copied as it is. *)
Theorem remove_comment_described (line : text) :
  remove_comment line = described_remove_comment line.
Proof.
  unfold remove_comment, described_remove_comment.
  rewrite remove_comment_loop_spec.
  destruct (comment_index line false); [|reflexivity].
  rewrite backtrack_spec. reflexivity.
Qed.

(** C8, counterexample.  Of the two colons before the comment of [A::'c]
    one is left; the specification's wording removes the whole run. *)
Lemma remove_comment_leaves_a_colon :
  remove_comment (str "A::'c") = str "A:"
  /\ claimed_remove_comment (str "A::'c") = str "A"
  /\ remove_comment (str "A::'c") <> claimed_remove_comment (str "A::'c").
Proof. vm_compute. repeat split; discriminate. Qed.

End ScannerProofs.

(** ** Reference fixup *)

Module FixupProofs.
Import PyStr Pack Spec.

(** *** Decimal numbers *)


Lemma to_uint_nonnil (n : N) : N.to_uint n <> Decimal.Nil.
Proof.
  rewrite <- (DecimalN.Unsigned.of_to n) at 1.
  rewrite DecimalN.Unsigned.to_of. apply unorm_nonnil.
Qed.

(** Reading the decimal form of a number gives the number back. *)
Lemma py_int_str (n : N) : py_int (py_str n) = n.
Proof.
  unfold py_int, py_str, str. rewrite string_of_list_ascii_of_string.
  pose proof (to_uint_nonnil n) as Hn.
  pose proof (NilZero.usu _ Hn) as H.
  unfold NilZero.uint_of_string in H.
  destruct (NilZero.string_of_uint (N.to_uint n)); [discriminate|].
  rewrite H. apply DecimalN.Unsigned.of_to.
Qed.




(** *** The scanner of [update_line_references] *)

Lemma new_reference_rewrite (line_map : gmap N N) (run : text) :
  new_reference line_map run = rewrite_piece line_map (Reference run).
Proof.
  unfold new_reference, rewrite_piece.
  destruct (line_map !! py_int run); reflexivity.
Qed.

Ltac scan_cases m n r :=
  unfold settle;
  destruct m as [|n| |r];
  repeat match goal with
         | |- context [if ?b then _ else _] => destruct b eqn:?
         | |- context [match keyword_at ?l with _ => _ end] =>
             destruct (keyword_at l) eqn:?
         end.

(** The fixup rewrites the line piece by piece. *)
Lemma update_loop_pieces (line_map : gmap N N) (code : text) :
  forall (m : mode) (in_string : bool),
    update_loop line_map code m in_string
    = concat (map (rewrite_piece line_map) (pieces_loop code m in_string)).
Proof.
  induction code as [|c code IH]; intros m s.
  - destruct m; simpl; rewrite ?app_nil_r; try reflexivity.
    apply new_reference_rewrite.
  - cbn [update_loop pieces_loop].
    scan_cases m n r;
      cbn [app map concat]; rewrite ?IH, ?new_reference_rewrite; reflexivity.
Qed.




(** *** The scanner across a boundary *)

Lemma startswith_stop (kw : text) (x : ascii) :
  Forall (fun k => ch_eqb x k = false) kw ->
  forall a t : text, startswith (a ++ x :: t) kw = startswith a kw.
Proof.
  induction 1 as [|k kw Hk _ IH]; intros a t.
  - destruct a; reflexivity.
  - destruct a as [|c a]; cbn [app startswith].
    + rewrite Hk. reflexivity.
    + rewrite IH. reflexivity.
Qed.

Lemma keyword_at_stop (a t : text) (x : ascii) :
  x = colon \/ x = blank -> keyword_at (a ++ x :: t) = keyword_at a.
Proof.
  intros Hx. unfold keyword_at, jump_keywords, upper.
  rewrite map_app. cbn [map find].
  assert (Hu : upper_char x = x) by (destruct Hx as [-> | ->]; reflexivity).
  rewrite Hu.
  rewrite !startswith_stop
    by (destruct Hx as [-> | ->]; repeat constructor).
  reflexivity.
Qed.

Lemma upper_char_not_quote (c k : ascii) :
  ch_eqb (upper_char c) k = true -> ch_eqb k dquote = false ->
  ch_eqb c dquote = false.
Proof.
  intros Hk Hq. destruct (ch_eqb c dquote) eqn:E; [|reflexivity].
  apply Ascii.eqb_eq in E. subst c.
  apply Ascii.eqb_eq in Hk. subst k. discriminate Hq.
Qed.

Lemma startswith_upper_no_quote (kw : text) :
  Forall (fun k => ch_eqb k dquote = false) kw ->
  forall a : text,
    startswith (upper a) kw = true ->
    (length kw <= length a)%nat /\ count_quotes (take (length kw) a) = 0%nat.
Proof.
  induction 1 as [|k kw Hk _ IH]; intros a Ha.
  - split; [cbn; lia | reflexivity].
  - destruct a as [|c a]; [discriminate|].
    cbn [upper map startswith] in Ha.
    apply andb_prop in Ha. destruct Ha as [Hc Ha].
    destruct (IH a Ha) as [Hlen Hcount].
    split; [cbn [length]; lia|].
    cbn [length take count_quotes].
    rewrite (upper_char_not_quote c k Hc Hk), Hcount. reflexivity.
Qed.

Lemma keyword_at_within (c : ascii) (a : text) (n : nat) :
  keyword_at (c :: a) = Some n -> within (after_keyword (n - 1)) a.
Proof.
  unfold keyword_at, jump_keywords. cbn [find].
  repeat match goal with
         | |- context [if startswith ?s ?kw then _ else _] =>
             let E := fresh "E" in
             destruct (startswith s kw) eqn:E;
             [ apply (startswith_upper_no_quote kw) in E; [|repeat constructor];
               let k := eval vm_compute in (length kw) in
               change (length kw) with k in *;
               cbn [length take count_quotes] in E;
               intros [= <-]; cbn [after_keyword Nat.sub within];
               destruct (ch_eqb c dquote); [cbn in E; lia|];
               split; [lia | tauto]
             | ]
         end.
  intros H. discriminate H.
Qed.

Lemma keyword_at_colon (b : text) : keyword_at (colon :: b) = None.
Proof. exact (keyword_at_stop [] b colon (or_introl eq_refl)). Qed.

Lemma keyword_at_blank (b : text) : keyword_at (blank :: b) = None.
Proof. exact (keyword_at_stop [] b blank (or_intror eq_refl)). Qed.

Lemma settle_colon (m : mode) :
  settle m colon = match m with
                   | Digits run => (Some run, Outer)
                   | Operands => (None, Outer)
                   | _ => (None, m)
                   end.
Proof. destruct m; reflexivity. Qed.

Lemma settle_blank (m : mode) :
  settle m blank = match m with
                   | Digits run => (Some run, Operands)
                   | Operands => (None, Operands)
                   | _ => (None, m)
                   end.
Proof. destruct m; reflexivity. Qed.

Lemma pieces_loop_colon (b : text) (m : mode) (s : bool) :
  within m [] ->
  pieces_loop (colon :: b) m s
  = pieces_loop [] m s ++ Plain colon :: pieces_loop b Outer s.
Proof.
  intros Hm. cbn [pieces_loop]. rewrite settle_colon, keyword_at_colon.
  destruct m as [|n| |run]; cbn.
  - destruct s; reflexivity.
  - destruct Hm as [Hn _]. cbn in Hn. lia.
  - destruct s; reflexivity.
  - destruct s; reflexivity.
Qed.

Lemma pieces_loop_blank (rest : text) (m : mode) (s : bool) :
  within m [] ->
  pieces_loop (blank :: rest) m s
  = pieces_loop [] m s
    ++ Plain blank
       :: pieces_loop rest (match m with Outer => Outer | _ => Operands end) s.
Proof.
  intros Hm. cbn [pieces_loop]. rewrite settle_blank, keyword_at_blank.
  destruct m as [|n| |run]; cbn.
  - destruct s; reflexivity.
  - destruct Hm as [Hn _]. cbn in Hn. lia.
  - reflexivity.
  - reflexivity.
Qed.

Lemma pieces_loop_separator (sep b : text) (m : mode) (s : bool) :
  separator sep -> within m [] ->
  pieces_loop (sep ++ b) m s
  = pieces_loop [] m s ++ map Plain sep ++ pieces_loop b Outer s.
Proof.
  intros [-> | ->] Hm; cbn [app map].
  - apply pieces_loop_colon. exact Hm.
  - rewrite pieces_loop_blank by exact Hm.
    rewrite pieces_loop_colon by (destruct m; exact I).
    destruct m; reflexivity.
Qed.

Lemma parity_cons (c : ascii) (a : text) (s : bool) :
  xorb s (Nat.odd (count_quotes (c :: a)))
  = xorb (if ch_eqb c dquote then negb s else s) (Nat.odd (count_quotes a)).
Proof.
  cbn [count_quotes]. destruct (ch_eqb c dquote); [|reflexivity].
  change (1 + count_quotes a)%nat with (S (count_quotes a)).
  rewrite Nat.odd_succ, <- Nat.negb_odd.
  destruct s, (Nat.odd (count_quotes a)); reflexivity.
Qed.

Lemma digit_not_quote (c : ascii) : isdigit c = true -> ch_eqb c dquote = false.
Proof.
  intros H. destruct (ch_eqb c dquote) eqn:E; [|reflexivity].
  apply Ascii.eqb_eq in E. subst c. discriminate H.
Qed.

Lemma separator_not_quote (c : ascii) :
  is_separator c = true -> ch_eqb c dquote = false.
Proof.
  intros H. destruct (ch_eqb c dquote) eqn:E; [|reflexivity].
  apply Ascii.eqb_eq in E. subst c. discriminate H.
Qed.

Lemma within_step (n : nat) (c : ascii) (a : text) :
  within (InKeyword n) (c :: a) ->
  ch_eqb c dquote = false /\ within (after_keyword (n - 1)) a.
Proof.
  intros [Hn Hq]. destruct n as [|n]; [lia|].
  cbn [take count_quotes] in Hq.
  destruct (ch_eqb c dquote); [discriminate Hq|]. split; [reflexivity|].
  rewrite Nat.sub_1_r. cbn [Nat.pred].
  destruct n as [|n]; [exact I|]. cbn [after_keyword within].
  cbn [length] in Hn. split; [lia | exact Hq].
Qed.

Ltac outer_case IH c a s :=
  destruct (ch_eqb c dquote) eqn:?;
  [ rewrite IH by exact I; reflexivity
  | destruct s;
    [ rewrite IH by exact I; reflexivity
    | let Hkw := fresh "Hkw" in
      destruct (keyword_at (c :: a)) eqn:Hkw;
      [ rewrite IH by (eapply keyword_at_within; exact Hkw); reflexivity
      | rewrite IH by exact I; reflexivity ] ] ].

(** *** The errors of the conversions *)







(** *** The scanner before a jump keyword *)






(** *** A jump keyword and its operands *)















(** *** An operand list in its line *)














End FixupProofs.

(** ** The control-flow classifier *)

Module ClassifierProofs.
Import PyStr Pack Spec.

(** *** White space at the end of a text *)

Lemma drop_while_split (p : ascii -> bool) (l : text) :
  exists w, l = w ++ drop_while p l /\ Forall (fun c => p c = true) w.
Proof.
  induction l as [|c l (w & Hl & Hw)]; [exists []; split; [reflexivity|constructor]|].
  cbn [drop_while]. destruct (p c) eqn:E.
  - exists (c :: w). split; [simpl; f_equal; exact Hl | constructor; assumption].
  - exists []. split; [reflexivity|constructor].
Qed.

Lemma drop_while_app_all (p : ascii -> bool) (w x : text) :
  Forall (fun c => p c = true) w -> drop_while p (w ++ x) = drop_while p x.
Proof.
  induction 1 as [|c w Hc _ IH]; [reflexivity|].
  cbn [app drop_while]. rewrite Hc. exact IH.
Qed.

Lemma rstrip_split (code : text) :
  exists ws, code = rstrip code ++ ws /\ spaces ws.
Proof.
  destruct (drop_while_split isspace (rev code)) as (w & Hl & Hw).
  exists (rev w). split.
  - unfold rstrip. rewrite <- rev_app_distr, <- Hl, rev_involutive. reflexivity.
  - unfold spaces. apply Forall_rev. exact Hw.
Qed.

Lemma rstrip_app_spaces (x ws : text) : spaces ws -> rstrip (x ++ ws) = rstrip x.
Proof.
  intros Hw. unfold rstrip. rewrite rev_app_distr.
  rewrite drop_while_app_all; [reflexivity|]. apply Forall_rev. exact Hw.
Qed.

Lemma strip_app_spaces (x ws : text) : spaces ws -> strip (x ++ ws) = strip x.
Proof. intros Hw. unfold strip. rewrite rstrip_app_spaces by exact Hw. reflexivity. Qed.

Lemma space_not_quote (c : ascii) : isspace c = true -> ch_eqb c dquote = false.
Proof.
  destruct (ch_eqb c dquote) eqn:E; [|reflexivity].
  apply Ascii.eqb_eq in E. subst c. discriminate.
Qed.

Lemma space_not_colon (c : ascii) : isspace c = true -> c <> colon.
Proof. intros H ->. discriminate. Qed.

Lemma count_quotes_app (a b : text) :
  count_quotes (a ++ b) = (count_quotes a + count_quotes b)%nat.
Proof.
  induction a as [|c a IH]; [reflexivity|].
  cbn [app count_quotes]. rewrite IH. lia.
Qed.

Lemma count_quotes_spaces (ws : text) : spaces ws -> count_quotes ws = 0%nat.
Proof.
  induction 1 as [|c ws Hc _ IH]; [reflexivity|].
  cbn [count_quotes]. rewrite (space_not_quote c Hc), IH. reflexivity.
Qed.

Lemma upper_char_space (c : ascii) : isspace c = true -> isspace (upper_char c) = true.
Proof.
  destruct c as [[|] [|] [|] [|] [|] [|] [|] [|]]; vm_compute; congruence.
Qed.

(** A keyword without white space is not found across the end of the
    text into the white space that follows. *)
Lemma startswith_app_spaces (kw x ws : text) :
  Forall (fun c => isspace c = false) kw -> spaces ws ->
  startswith (upper (x ++ ws)) kw = startswith (upper x) kw.
Proof.
  intros Hk Hw. revert x. induction Hk as [|b kw Hb _ IH]; intros x.
  - destruct (upper (x ++ ws)), (upper x); reflexivity.
  - destruct x as [|a x].
    + simpl app. destruct Hw as [|w ws Hw _]; [reflexivity|].
      cbn [upper map startswith].
      destruct (ch_eqb (upper_char w) b) eqn:E; [|reflexivity].
      apply Ascii.eqb_eq in E. subst b.
      rewrite (upper_char_space w Hw) in Hb. discriminate.
    + cbn [app upper map startswith]. f_equal. apply IH.
Qed.

(** *** The last statement *)

Lemma outside_string_at (pre l : text) :
  outside_string (pre ++ l) (length pre) = Nat.even (count_quotes pre).
Proof. unfold outside_string. rewrite take_app_length. reflexivity. Qed.

Lemma last_colon_scan_spec (l : text) :
  forall (pre : text) (lc0 : Z),
    last_colon_scan l (Z.of_nat (length pre)) (Nat.odd (count_quotes pre)) lc0
    = match last (List.filter
                    (fun k => bool_decide ((pre ++ l) !! k = Some colon)
                              && outside_string (pre ++ l) k)
                    (seq (length pre) (length l))) with
      | Some k => Z.of_nat k
      | None => lc0
      end.
Proof.
  induction l as [|c l IH]; intros pre lc0; [reflexivity|].
  cbn [last_colon_scan length seq List.filter].
  rewrite list_lookup_middle by reflexivity. rewrite outside_string_at.
  replace (Z.of_nat (length pre) + 1) with (Z.of_nat (length (pre ++ [c])))
    by (rewrite length_app; simpl; lia).
  assert (Hseq : S (length pre) = length (pre ++ [c]))
    by (rewrite length_app; simpl; lia).
  rewrite Hseq. rewrite (cons_middle c pre l), app_assoc.
  destruct (ch_eqb c dquote) eqn:Eq.
  - apply Ascii.eqb_eq in Eq. subst c.
    rewrite (bool_decide_eq_false_2 (Some dquote = Some colon)) by discriminate.
    cbn [andb].
    specialize (IH (pre ++ [dquote]) lc0).
    rewrite count_quotes_app in IH. cbn in IH.
    replace (count_quotes pre + 1)%nat with (S (count_quotes pre)) in IH by lia.
    rewrite Nat.odd_succ, <- Nat.negb_odd in IH. exact IH.
  - assert (Hcount : Nat.odd (count_quotes (pre ++ [c])) = Nat.odd (count_quotes pre)).
    { rewrite count_quotes_app. cbn. rewrite Eq. f_equal. lia. }
    pose proof (IH (pre ++ [c])) as IH'. rewrite Hcount in IH'.
    destruct (ch_eqb c colon) eqn:Ec.
    + apply Ascii.eqb_eq in Ec. subst c.
      rewrite (bool_decide_eq_true_2 (Some colon = Some colon)) by reflexivity.
      rewrite <- Nat.negb_odd. cbn [andb].
      destruct (Nat.odd (count_quotes pre)) eqn:Es; cbn [negb].
      * apply IH'.
      * rewrite last_cons, IH'. rewrite <- Hseq.
        match goal with |- context [last ?x] => destruct (last x) end; reflexivity.
    + rewrite (bool_decide_eq_false_2 (Some c = Some colon)).
      * cbn [andb]. apply IH'.
      * intros [= ->]. discriminate.
Qed.

(** The statement that the classifier looks at is the last top-level
    statement. *)
Lemma last_statement_spec (code : text) :
  last_statement code = last_top_level_statement code.
Proof.
  unfold last_statement, last_top_level_statement, positions.
  pose proof (last_colon_scan_spec code [] (-1)) as H.
  change (Z.of_nat (length (@nil ascii))) with 0 in H.
  change (Nat.odd (count_quotes [])) with false in H.
  change (length (@nil ascii)) with 0%nat in H.
  change ([] ++ code) with code in H. rewrite H.
  destruct (last _) as [k|].
  - destruct (Z.leb_spec 0 (Z.of_nat k)) as [_|Hk]; [|lia].
    replace (Z.to_nat (Z.of_nat k + 1)) with (S k) by lia. reflexivity.
  - reflexivity.
Qed.

Lemma filter_none {A} (f : A -> bool) (l : list A) :
  (forall x, In x l -> f x = false) -> List.filter f l = [].
Proof.
  induction l as [|x l IH]; intros H; [reflexivity|].
  cbn [List.filter]. rewrite (H x) by (left; reflexivity).
  apply IH. intros y Hy. apply H. right. exact Hy.
Qed.

Lemma last_top_level_statement_spaces (r ws : text) :
  spaces ws ->
  last_top_level_statement (r ++ ws) = last_top_level_statement r.
Proof.
  intros Hw. unfold last_top_level_statement, positions.
  rewrite length_app, seq_app, List.filter_app. simpl (0 + length r)%nat.
  rewrite (filter_none _ (seq (length r) (length ws))).
  - rewrite app_nil_r.
    rewrite (List.filter_ext_in
               (fun k => bool_decide ((r ++ ws) !! k = Some colon)
                         && outside_string (r ++ ws) k)
               (fun k => bool_decide (r !! k = Some colon) && outside_string r k)).
    + destruct (last _) as [k|] eqn:El; [|apply strip_app_spaces; exact Hw].
      assert (Hk : (k < length r)%nat).
      { apply last_Some_elem_of in El. apply list_elem_of_In in El.
        apply List.filter_In in El. destruct El as [El _].
        apply in_seq in El. lia. }
      rewrite drop_app_le by lia. apply strip_app_spaces. exact Hw.
    + intros k Hk. apply in_seq in Hk.
      rewrite lookup_app_l by lia. unfold outside_string.
      rewrite take_app_le by lia. reflexivity.
  - intros k Hk. apply in_seq in Hk.
    rewrite lookup_app_r by lia.
    destruct (ws !! (k - length r)%nat) as [c|] eqn:Ec.
    + unfold spaces in Hw. rewrite Forall_forall in Hw.
      assert (Hc : isspace c = true).
      { apply Hw. apply list_elem_of_lookup. eauto. }
      rewrite bool_decide_eq_false_2; [reflexivity|].
      intros [= ->]. discriminate.
    + rewrite bool_decide_eq_false_2 by discriminate. reflexivity.
Qed.

(** *** IF with a later THEN *)

Lemma keyword_outside_at (kw : string) (pre l : text) :
  keyword_outside kw (pre ++ l) (length pre)
  = Nat.even (count_quotes pre) && startswith (upper l) (str kw).
Proof.
  unfold keyword_outside. rewrite outside_string_at, drop_app_length. reflexivity.
Qed.

Lemma count_quotes_snoc (pre : text) (c : ascii) :
  count_quotes (pre ++ [c])
  = (count_quotes pre + if ch_eqb c dquote then 1 else 0)%nat.
Proof. rewrite count_quotes_app. cbn. lia. Qed.

Lemma odd_snoc_quote (pre : text) :
  Nat.odd (count_quotes (pre ++ [dquote])) = negb (Nat.odd (count_quotes pre)).
Proof.
  rewrite count_quotes_snoc. cbn.
  replace (count_quotes pre + 1)%nat with (S (count_quotes pre)) by lia.
  rewrite Nat.odd_succ, <- Nat.negb_odd. reflexivity.
Qed.

Lemma odd_snoc_other (pre : text) (c : ascii) :
  ch_eqb c dquote = false ->
  Nat.odd (count_quotes (pre ++ [c])) = Nat.odd (count_quotes pre).
Proof. intros H. rewrite count_quotes_snoc, H. f_equal. lia. Qed.

Lemma snoc_app (pre : text) (c : ascii) (l : text) :
  pre ++ c :: l = (pre ++ [c]) ++ l.
Proof. rewrite <- app_assoc. reflexivity. Qed.

Lemma length_snoc (pre : text) (c : ascii) : length (pre ++ [c]) = S (length pre).
Proof. rewrite length_app. simpl. lia. Qed.

(** The inner loop finds THEN exactly when THEN stands outside the
    strings at some position from its start on. *)
Lemma then_scan_found (l : text) :
  forall pre,
    fst (then_scan l (Nat.odd (count_quotes pre)))
    = existsb (keyword_outside "THEN" (pre ++ l)) (seq (length pre) (length l)).
Proof.
  induction l as [|c l IH]; intros pre; [reflexivity|].
  cbn [then_scan length seq existsb]. rewrite keyword_outside_at.
  rewrite (snoc_app pre c l), <- (length_snoc pre c).
  destruct (ch_eqb c dquote) eqn:Eq.
  - apply Ascii.eqb_eq in Eq. subst c.
    rewrite <- odd_snoc_quote, IH.
    cbn [upper map startswith]. rewrite andb_false_r. reflexivity.
  - rewrite <- (odd_snoc_other pre c Eq) at 2. rewrite <- Nat.negb_odd.
    destruct (negb (Nat.odd (count_quotes pre))
              && startswith (upper (c :: l)) (str "THEN")) eqn:E.
    + reflexivity.
    + cbn [orb]. rewrite <- IH. rewrite (odd_snoc_other pre c Eq). reflexivity.
Qed.

(** When it does not find THEN, the inner loop leaves [in_string] as the
    quotes it passed set it. *)
Lemma then_scan_state (l : text) :
  forall s, fst (then_scan l s) = false ->
            snd (then_scan l s) = xorb s (Nat.odd (count_quotes l)).
Proof.
  induction l as [|c l IH]; intros s H; [destruct s; reflexivity|].
  cbn [then_scan count_quotes] in *.
  destruct (ch_eqb c dquote).
  - rewrite IH by exact H.
    change (1 + count_quotes l)%nat with (S (count_quotes l)).
    rewrite Nat.odd_succ, <- Nat.negb_odd.
    destruct s, (Nat.odd (count_quotes l)); reflexivity.
  - destruct (negb s && startswith (upper (c :: l)) (str "THEN")); [discriminate|].
    apply IH. exact H.
Qed.

Lemma existsb_ext_in {A} (f g : A -> bool) (l : list A) :
  (forall x, In x l -> f x = g x) -> existsb f l = existsb g l.
Proof.
  induction l as [|x l IH]; intros H; [reflexivity|].
  cbn [existsb]. rewrite (H x) by (left; reflexivity).
  f_equal. apply IH. intros y Hy. apply H. right. exact Hy.
Qed.

Lemma existsb_from (f : nat -> bool) (a n : nat) :
  existsb (fun j => (a <=? j)%nat && f j) (seq 0 n) = existsb f (seq a (n - a)).
Proof.
  destruct (Nat.le_gt_cases a n) as [Hle|Hgt].
  - replace n with (a + (n - a))%nat at 1 by lia.
    rewrite seq_app, existsb_app. simpl (0 + a)%nat.
    replace (existsb (fun j => (a <=? j)%nat && f j) (seq 0 a)) with false.
    + cbn [orb]. apply existsb_ext_in. intros j Hj. apply in_seq in Hj.
      destruct (Nat.leb_spec a j); [reflexivity|lia].
    + symmetry. apply not_true_is_false. intros H.
      apply existsb_exists in H. destruct H as (j & Hj & Hf).
      apply in_seq in Hj. destruct (Nat.leb_spec a j); [lia|discriminate].
  - replace (n - a)%nat with 0%nat by lia. cbn [seq existsb].
    apply not_true_is_false. intros H.
    apply existsb_exists in H. destruct H as (j & Hj & Hf).
    apply in_seq in Hj. destruct (Nat.leb_spec a j); [lia|discriminate].
Qed.

(** A text that starts with IF starts with two characters that are not
    quotes. *)
Lemma startswith_if (l : text) :
  startswith (upper l) (str "IF") = true ->
  exists c1 c2 l2, l = c1 :: c2 :: l2
                   /\ ch_eqb c1 dquote = false /\ ch_eqb c2 dquote = false.
Proof.
  destruct l as [|c1 [|c2 l2]]; cbn [upper map startswith str list_ascii_of_string];
    try discriminate.
  - rewrite andb_false_r. discriminate.
  - intros H. apply andb_prop in H. destruct H as [H1 H2].
    apply andb_prop in H2. destruct H2 as [H2 _].
    exists c1, c2, l2. split; [reflexivity|].
    split.
    + destruct (ch_eqb c1 dquote) eqn:E; [|reflexivity].
      apply Ascii.eqb_eq in E. subst c1. discriminate.
    + destruct (ch_eqb c2 dquote) eqn:E; [|reflexivity].
      apply Ascii.eqb_eq in E. subst c2. discriminate.
Qed.

(** The test of the specification at position [length pre] of
    [pre ++ l], for a text [l] that starts with IF. *)
Lemma then_after_if (pre : text) (c1 c2 : ascii) (l2 : text) :
  ch_eqb c1 dquote = false -> ch_eqb c2 dquote = false ->
  existsb (fun j => (length pre + 2 <=? j)%nat
                    && keyword_outside "THEN" (pre ++ c1 :: c2 :: l2) j)
          (positions (pre ++ c1 :: c2 :: l2))
  = fst (then_scan l2 (Nat.odd (count_quotes pre))).
Proof.
  intros H1 H2. unfold positions. rewrite existsb_from.
  rewrite <- (odd_snoc_other pre c1 H1), <- (odd_snoc_other (pre ++ [c1]) c2 H2).
  rewrite then_scan_found.
  rewrite <- !app_assoc. cbn [app].
  rewrite !length_app. cbn [length].
  replace (length pre + S (S (length l2)) - (length pre + 2))%nat
    with (length l2) by lia.
  replace (length pre + 1 + 1)%nat with (length pre + 2)%nat by lia.
  reflexivity.
Qed.

Lemma if_scan_cons (c : ascii) (l : text) (s : bool) :
  if_scan (c :: l) s
  = if ch_eqb c dquote then if_scan l (negb s)
    else if negb s && startswith (upper (c :: l)) (str "IF") then
      if fst (then_scan (drop 2 (c :: l)) s) then true
      else if_scan l (snd (then_scan (drop 2 (c :: l)) s))
    else if_scan l s.
Proof.
  cbn [if_scan]. destruct (ch_eqb c dquote); [reflexivity|].
  destruct (negb s && _); [|reflexivity].
  destruct (then_scan _ s) as [found s']. reflexivity.
Qed.

Lemma even_count_split (a b : nat) :
  Nat.even (a + b) = true -> Nat.odd a = false -> Nat.odd b = false.
Proof.
  rewrite Nat.even_add, <- !Nat.negb_odd.
  destruct (Nat.odd a), (Nat.odd b); simpl; congruence.
Qed.

(** On a line whose string literals are all closed, the loops of the
    classifier find IF with a later THEN exactly when the two stand
    outside the strings. *)
Lemma if_scan_exact (l : text) :
  forall pre,
    Nat.even (count_quotes (pre ++ l)) = true ->
    if_scan l (Nat.odd (count_quotes pre))
    = existsb (fun i =>
                 keyword_outside "IF" (pre ++ l) i
                 && existsb (fun j => (i + 2 <=? j)%nat
                                      && keyword_outside "THEN" (pre ++ l) j)
                            (positions (pre ++ l)))
              (seq (length pre) (length l)).
Proof.
  induction l as [|c l IH]; intros pre Hclosed; [reflexivity|].
  rewrite if_scan_cons. cbn [length seq existsb]. rewrite keyword_outside_at.
  specialize (IH (pre ++ [c])).
  rewrite <- (snoc_app pre c l), length_snoc in IH. specialize (IH Hclosed).
  rewrite <- Nat.negb_odd.
  destruct (ch_eqb c dquote) eqn:Eq.
  - apply Ascii.eqb_eq in Eq. subst c.
    rewrite odd_snoc_quote in IH. rewrite IH.
    cbn [upper map startswith]. rewrite andb_false_r. reflexivity.
  - rewrite (odd_snoc_other pre c Eq) in IH.
    destruct (negb (Nat.odd (count_quotes pre))
              && startswith (upper (c :: l)) (str "IF")) eqn:E1.
    + apply andb_prop in E1. destruct E1 as [Hs Hsw].
      destruct (startswith_if _ Hsw) as (c1 & c2 & l2 & Hl & H1 & H2).
      injection Hl as <- ->.
      rewrite (then_after_if pre c c2 l2 H1 H2).
      change (drop 2 (c :: c2 :: l2)) with l2.
      destruct (fst (then_scan l2 (Nat.odd (count_quotes pre)))) eqn:Ef.
      * reflexivity.
      * cbn [andb orb]. rewrite then_scan_state by exact Ef.
        apply negb_true_iff in Hs. rewrite Hs in *. cbn [xorb].
        assert (Hl2 : Nat.odd (count_quotes l2) = false).
        { rewrite count_quotes_app in Hclosed. cbn [count_quotes] in Hclosed.
          rewrite H1, H2 in Hclosed. cbn in Hclosed.
          exact (even_count_split _ _ Hclosed Hs). }
        rewrite Hl2. exact IH.
    + cbn [orb]. exact IH.
Qed.

(** On every line, IF with a later THEN outside the strings is found. *)
Lemma if_scan_sound (l : text) :
  forall pre,
    existsb (fun i =>
               keyword_outside "IF" (pre ++ l) i
               && existsb (fun j => (i + 2 <=? j)%nat
                                    && keyword_outside "THEN" (pre ++ l) j)
                          (positions (pre ++ l)))
            (seq (length pre) (length l)) = true ->
    if_scan l (Nat.odd (count_quotes pre)) = true.
Proof.
  induction l as [|c l IH]; intros pre Hex; [discriminate|].
  rewrite if_scan_cons. cbn [length seq existsb] in Hex.
  rewrite keyword_outside_at in Hex.
  specialize (IH (pre ++ [c])).
  rewrite <- (snoc_app pre c l), length_snoc in IH.
  rewrite <- Nat.negb_odd in Hex.
  destruct (ch_eqb c dquote) eqn:Eq.
  - apply Ascii.eqb_eq in Eq. subst c.
    rewrite odd_snoc_quote in IH. apply IH.
    cbn [upper map startswith] in Hex. rewrite andb_false_r in Hex. exact Hex.
  - rewrite (odd_snoc_other pre c Eq) in IH.
    destruct (negb (Nat.odd (count_quotes pre))
              && startswith (upper (c :: l)) (str "IF")) eqn:E1.
    + apply andb_prop in E1. destruct E1 as [Hs Hsw].
      destruct (startswith_if _ Hsw) as (c1 & c2 & l2 & Hl & H1 & H2).
      injection Hl as <- ->.
      rewrite (then_after_if pre c c2 l2 H1 H2) in Hex.
      change (drop 2 (c :: c2 :: l2)) with l2.
      destruct (fst (then_scan l2 (Nat.odd (count_quotes pre)))) eqn:Ef;
        [reflexivity|].
      exfalso. cbn [andb orb] in Hex.
      apply existsb_exists in Hex. destruct Hex as (i & Hi & HE).
      apply in_seq in Hi. apply andb_prop in HE. destruct HE as [_ HE].
      apply existsb_exists in HE. destruct HE as (j & Hj & Hjt).
      apply andb_prop in Hjt. destruct Hjt as [Hij Hjt].
      apply Nat.leb_le in Hij.
      pose proof (then_after_if pre c c2 l2 H1 H2) as Hinner.
      rewrite Ef in Hinner.
      apply not_true_iff_false in Hinner. apply Hinner.
      apply existsb_exists. exists j. split; [exact Hj|].
      rewrite Hjt, andb_true_r. apply Nat.leb_le. lia.
    + cbn [orb] in Hex. apply IH. exact Hex.
Qed.

(** *** White space at the end of the line *)

Lemma no_space_in_IF : Forall (fun c => isspace c = false) (str "IF").
Proof. repeat constructor. Qed.

Lemma no_space_in_THEN : Forall (fun c => isspace c = false) (str "THEN").
Proof. repeat constructor. Qed.

Lemma startswith_spaces (kw ws : text) :
  kw <> [] -> Forall (fun c => isspace c = false) kw -> spaces ws ->
  startswith (upper ws) kw = false.
Proof.
  intros Hne Hk Hw.
  pose proof (startswith_app_spaces kw [] ws Hk Hw) as H.
  simpl app in H. rewrite H.
  destruct kw; [congruence|reflexivity].
Qed.

Lemma then_scan_all_spaces (ws : text) (s : bool) :
  spaces ws -> then_scan ws s = (false, s).
Proof.
  induction 1 as [|c ws Hc Hw IH]; [reflexivity|].
  cbn [then_scan]. rewrite (space_not_quote c Hc).
  rewrite (startswith_spaces (str "THEN") (c :: ws));
    [|discriminate|exact no_space_in_THEN|constructor; assumption].
  rewrite andb_false_r. exact IH.
Qed.

Lemma then_scan_spaces (x ws : text) :
  spaces ws -> forall s, then_scan (x ++ ws) s = then_scan x s.
Proof.
  intros Hw. induction x as [|c x IH]; intros s.
  - simpl app. rewrite then_scan_all_spaces by exact Hw. reflexivity.
  - cbn [app then_scan].
    change (c :: x ++ ws) with ((c :: x) ++ ws).
    rewrite (startswith_app_spaces (str "THEN") (c :: x) ws no_space_in_THEN Hw).
    rewrite !IH. reflexivity.
Qed.

Lemma if_scan_all_spaces (ws : text) (s : bool) :
  spaces ws -> if_scan ws s = false.
Proof.
  induction 1 as [|c ws Hc Hw IH]; [reflexivity|].
  rewrite if_scan_cons. rewrite (space_not_quote c Hc).
  rewrite (startswith_spaces (str "IF") (c :: ws));
    [|discriminate|exact no_space_in_IF|constructor; assumption].
  rewrite andb_false_r. exact IH.
Qed.

Lemma if_scan_spaces (x ws : text) :
  spaces ws -> forall s, if_scan (x ++ ws) s = if_scan x s.
Proof.
  intros Hw. induction x as [|c x IH]; intros s.
  - simpl app. rewrite if_scan_all_spaces by exact Hw. reflexivity.
  - change ((c :: x) ++ ws) with (c :: x ++ ws). rewrite !if_scan_cons.
    change (c :: x ++ ws) with ((c :: x) ++ ws).
    rewrite (startswith_app_spaces (str "IF") (c :: x) ws no_space_in_IF Hw).
    destruct (ch_eqb c dquote); [apply IH|].
    destruct (negb s && startswith (upper (c :: x)) (str "IF")) eqn:E; [|apply IH].
    apply andb_prop in E. destruct E as [_ Hsw].
    destruct (startswith_if _ Hsw) as (c1 & c2 & l2 & Hl & _ & _).
    injection Hl as <- ->.
    change (drop 2 ((c :: c2 :: l2) ++ ws)) with (l2 ++ ws).
    change (drop 2 (c :: c2 :: l2)) with l2.
    rewrite then_scan_spaces by exact Hw. rewrite IH. reflexivity.
Qed.

(** *** The classifier and the specification *)

Lemma ends_with_control_flow_unfold (code : text) :
  ends_with_control_flow code
  = match rstrip code with
    | [] => false
    | _ :: _ =>
        let stmt := last_statement (rstrip code) in
        bool_decide (upper stmt = str "RETURN") || bool_decide (upper stmt = str "END")
        || bool_decide (upper stmt = str "STOP")
        || (startswith (upper stmt) (str "GOTO")
            && match strip (drop 4 stmt) with
               | c :: _ => isdigit c
               | [] => false
               end)
        || if_scan (rstrip code) false
    end.
Proof.
  unfold ends_with_control_flow. destruct (rstrip code) as [|c r]; [reflexivity|].
  cbv zeta.
  destruct (bool_decide _ || bool_decide _ || bool_decide _); [reflexivity|].
  cbn [orb]. destruct (startswith _ _ && _); reflexivity.
Qed.

Lemma claimed_control_flow_unfold (code : text) :
  claimed_control_flow code
  = let stmt := last_statement (rstrip code) in
    bool_decide (upper stmt = str "RETURN") || bool_decide (upper stmt = str "END")
    || bool_decide (upper stmt = str "STOP")
    || (startswith (upper stmt) (str "GOTO")
        && match strip (drop 4 stmt) with
           | c :: _ => isdigit c
           | [] => false
           end)
    || if_then_outside code.
Proof.
  unfold claimed_control_flow. cbv zeta.
  destruct (rstrip_split code) as (ws & Hcode & Hws).
  assert (Hstmt : last_top_level_statement code = last_statement (rstrip code)).
  { rewrite last_statement_spec.
    transitivity (last_top_level_statement (rstrip code ++ ws));
      [f_equal; exact Hcode | apply last_top_level_statement_spaces; exact Hws]. }
  rewrite Hstmt. reflexivity.
Qed.

(** On every line the classifier returns true when the specification says
    so. *)
Lemma classifier_sound (code : text) :
  claimed_control_flow code = true -> ends_with_control_flow code = true.
Proof.
  rewrite claimed_control_flow_unfold, ends_with_control_flow_unfold. cbv zeta.
  destruct (rstrip_split code) as (ws & Hcode & Hws).
  intros H. apply orb_prop in H. destruct H as [H|H].
  - destruct (rstrip code) as [|c r] eqn:Er; [discriminate|].
    rewrite H. reflexivity.
  - assert (Hscan : if_scan (rstrip code) false = true).
    { rewrite <- (if_scan_spaces (rstrip code) ws Hws), <- Hcode.
      apply (if_scan_sound code []). exact H. }
    destruct (rstrip code) as [|c r] eqn:Er; [discriminate|].
    rewrite Hscan. apply orb_true_r.
Qed.

(** On a line whose string literals are all closed the classifier returns
    true exactly when the specification says so. *)
Lemma classifier_exact_on_closed_literals (code : text) :
  Nat.even (count_quotes code) = true ->
  ends_with_control_flow code = claimed_control_flow code.
Proof.
  intros Hclosed.
  rewrite claimed_control_flow_unfold, ends_with_control_flow_unfold. cbv zeta.
  destruct (rstrip_split code) as (ws & Hcode & Hws).
  assert (Hscan : if_then_outside code = if_scan (rstrip code) false).
  { rewrite <- (if_scan_spaces (rstrip code) ws Hws), <- Hcode.
    symmetry. apply (if_scan_exact code []). exact Hclosed. }
  rewrite Hscan.
  destruct (rstrip code) as [|c r] eqn:Er; reflexivity.
Qed.

End ClassifierProofs.

(** ** The merger *)

Module MergerProofs.
Import PyStr Pack Spec.

Section Merge.

Variable targets : gset N.
Variable max_line_length : Z.

Abbreviation step := (merge_step targets max_line_length).
Abbreviation flush := (flush_current max_line_length).
Abbreviation finish := (merge_finish max_line_length).

(** Lines already in [merged] stay where they are. *)
Lemma merge_step_prefix (m0 m : list mline) (cs : option N) (cc : list text)
    (p : bool) (line : N * text) :
  step (MergeState (m0 ++ m) cs cc p) line
  = let st := step (MergeState m cs cc p) line in
    MergeState (m0 ++ merged st) (current_start_line st) (current_code st)
               (prevent_merge st).
Proof.
  destruct line as [n c]. unfold merge_step. cbn [merged current_start_line current_code prevent_merge].
  destruct (bool_decide (n ∈ targets) || p).
  - destruct cs; cbn; rewrite <- ?app_assoc; reflexivity.
  - match goal with |- context [if ?b then _ else _] => destruct b end;
      cbn; rewrite <- ?app_assoc; reflexivity.
Qed.

Lemma merge_fold_prefix (lines : list (N * text)) :
  forall (m0 m : list mline) (cs : option N) (cc : list text) (p : bool),
    foldl step (MergeState (m0 ++ m) cs cc p) lines
    = let st := foldl step (MergeState m cs cc p) lines in
      MergeState (m0 ++ merged st) (current_start_line st) (current_code st)
                 (prevent_merge st).
Proof.
  induction lines as [|line lines IH]; intros m0 m cs cc p; [reflexivity|].
  cbn [foldl]. rewrite merge_step_prefix. cbv zeta.
  destruct (step (MergeState m cs cc p) line) as [m' cs' cc' p'].
  cbn [merged current_start_line current_code prevent_merge]. apply IH.
Qed.

Lemma merge_finish_prefix (m0 : list mline) (st : merge_state) :
  finish (MergeState (m0 ++ merged st) (current_start_line st)
                     (current_code st) (prevent_merge st))
  = m0 ++ finish st.
Proof.
  unfold merge_finish. cbn. destruct (current_start_line st);
    rewrite <- ?app_assoc; reflexivity.
Qed.

(** After a line the state holds an anchor, the code of the line is the
    last piece of [current_code], and [prevent_merge] is the verdict of
    the classifier on that line alone. *)
Lemma merge_step_last (st : merge_state) (n : N) (c : text) :
  exists start cc,
    current_start_line (step st (n, c)) = Some start
    /\ current_code (step st (n, c)) = cc ++ [c]
    /\ prevent_merge (step st (n, c)) = ends_with_control_flow c.
Proof.
  unfold merge_step.
  destruct (bool_decide (n ∈ targets) || prevent_merge st).
  - exists n, []. cbn. auto.
  - match goal with |- context [if ?b then _ else _] => destruct b end; cbn.
    + eexists _, _. split; [reflexivity|]. split; reflexivity.
    + exists n, []. auto.
Qed.

(** A line that follows a line flagged by the classifier closes the
    pending line and opens a new one, whatever the length budget. *)
Lemma merge_step_after_control_flow (m : list mline) (start : N)
    (cc : list text) (n : N) (c : text) :
  step (MergeState m (Some start) cc true) (n, c)
  = MergeState (m ++ flush cc start) (Some n) [c] (ends_with_control_flow c).
Proof.
  unfold merge_step. cbn. rewrite orb_true_r. reflexivity.
Qed.

Lemma merge_step_first (n : N) (c : text) :
  step merge_init (n, c) = MergeState [] (Some n) [c] (ends_with_control_flow c).
Proof.
  unfold merge_step, merge_init. cbn.
  destruct (bool_decide (n ∈ targets)); cbn; [reflexivity|].
  match goal with |- context [if ?b then _ else _] => destruct b end; reflexivity.
Qed.

Lemma join_from_last (prev : text) (segs : list text) (c : text) :
  exists head, join_from prev (segs ++ [c]) = head ++ c.
Proof.
  revert prev. induction segs as [|s segs IH]; intros prev.
  - simpl. rewrite app_nil_r.
    exists (if is_data prev then str " :" else str ":"). reflexivity.
  - cbn [app join_from]. destruct (IH s) as [head ->].
    exists ((if is_data prev then str " :" else str ":") ++ s ++ head).
    rewrite <- !app_assoc. reflexivity.
Qed.

(** The flushed lines end with the code of the last piece. *)
Lemma flush_current_last (cc : list text) (c : text) (start : N) :
  exists before a head, flush (cc ++ [c]) start = before ++ [(a, head ++ c)].
Proof.
  unfold flush_current.
  destruct cc as [|first others]; cbn [app].
  - destruct (_ <=? _).
    + exists [], (Some start), []. simpl. rewrite app_nil_r. reflexivity.
    + exists [], (Some start), []. reflexivity.
  - destruct (_ <=? _).
    + destruct (join_from_last first others c) as [head Hh].
      exists [], (Some start), (first ++ head).
      cbn [join_segments app]. rewrite Hh, <- app_assoc. reflexivity.
    + exists ((Some start, first) :: map (fun seg => (None, seg)) others), None, [].
      rewrite map_app. reflexivity.
Qed.

(** The flushed lines open with the anchor and the code of the first
    piece. *)
Lemma flush_current_first (c : text) (more : list text) (start : N) :
  exists tail rest, flush (c :: more) start = (Some start, c ++ tail) :: rest.
Proof.
  unfold flush_current. destruct (_ <=? _).
  - exists (join_from c more), []. reflexivity.
  - exists [], (map (fun seg => (None, seg)) more). rewrite app_nil_r. reflexivity.
Qed.

Lemma merge_step_opens_with (n : N) (c : text) (st : merge_state)
    (line : N * text) :
  opens_with n c st -> opens_with n c (step st line).
Proof.
  destruct st as [m cs cc p]. destruct line as [n' c'].
  unfold opens_with, merge_step.
  cbn [merged current_start_line current_code prevent_merge].
  intros [(-> & -> & more & ->) | (tail & rest & ->)].
  - destruct (bool_decide (n' ∈ targets) || p).
    + right. cbn. apply flush_current_first.
    + cbn [default]. match goal with |- context [if ?b then _ else _] => destruct b end.
      * left. cbn. repeat split. exists (more ++ [c']). reflexivity.
      * right. cbn. apply flush_current_first.
  - right. destruct (bool_decide (n' ∈ targets) || p).
    + destruct cs; cbn; eauto.
    + match goal with |- context [if ?b then _ else _] => destruct b end; cbn; eauto.
Qed.

Lemma merge_fold_opens_with (n : N) (c : text) (lines : list (N * text)) :
  forall st, opens_with n c st -> opens_with n c (foldl step st lines).
Proof.
  induction lines as [|line lines IH]; intros st H; [exact H|].
  cbn [foldl]. apply IH. apply merge_step_opens_with. exact H.
Qed.

Lemma merge_finish_opens_with (n : N) (c : text) (st : merge_state) :
  opens_with n c st ->
  exists tail rest, finish st = (Some n, c ++ tail) :: rest.
Proof.
  unfold opens_with, merge_finish.
  intros [(-> & -> & more & ->) | (tail & rest & ->)].
  - cbn. apply flush_current_first.
  - destruct (current_start_line st); cbn; eauto.
Qed.

Lemma merge_fold_snoc (st : merge_state) (lines : list (N * text)) (n : N) (c : text) :
  exists start cc,
    current_start_line (foldl step st (lines ++ [(n, c)])) = Some start
    /\ current_code (foldl step st (lines ++ [(n, c)])) = cc ++ [c]
    /\ prevent_merge (foldl step st (lines ++ [(n, c)])) = ends_with_control_flow c.
Proof. rewrite foldl_app. cbn [foldl]. apply merge_step_last. Qed.

(** A target line closes the pending line and opens a new one. *)
Lemma merge_step_target (m : list mline) (cs : option N) (cc : list text)
    (p : bool) (n : N) (c : text) :
  n ∈ targets ->
  step (MergeState m cs cc p) (n, c)
  = MergeState (m ++ match cs with
                     | Some start => flush cc start
                     | None => []
                     end)
               (Some n) [c] (ends_with_control_flow c).
Proof.
  intros Hn. unfold merge_step. cbn.
  rewrite (bool_decide_eq_true_2 _ Hn). cbn.
  destruct cs; [reflexivity|]. rewrite app_nil_r. reflexivity.
Qed.

End Merge.

(** The output splits behind a line that the classifier flags. *)
Lemma merge_lines_after_control_flow (targets : gset N) (max_line_length : Z)
    (pre post : list (N * text)) (n1 n2 : N) (c1 c2 : text) :
  ends_with_control_flow c1 = true ->
  exists before a head tail rest,
    merge_lines (pre ++ (n1, c1) :: (n2, c2) :: post) targets max_line_length
    = before ++ (a, head ++ c1) :: (Some n2, c2 ++ tail) :: rest
    /\ merge_lines (pre ++ [(n1, c1)]) targets max_line_length
       = before ++ [(a, head ++ c1)]
    /\ merge_lines ((n2, c2) :: post) targets max_line_length
       = (Some n2, c2 ++ tail) :: rest.
Proof.
  intros Hcf. unfold merge_lines.
  destruct (merge_fold_snoc targets max_line_length merge_init pre n1 c1)
    as (start & cc & Hs & Hc & Hp).
  rewrite Hcf in Hp.
  destruct (foldl (merge_step targets max_line_length) merge_init (pre ++ [(n1, c1)]))
    as [m1 cs1 cc1 p1] eqn:E1.
  cbn [current_start_line current_code prevent_merge] in Hs, Hc, Hp. subst cs1 cc1 p1.
  destruct (flush_current_last max_line_length cc c1 start) as (fb & a & head & Hfl).
  destruct (merge_finish_opens_with max_line_length n2 c2
              (foldl (merge_step targets max_line_length)
                     (merge_step targets max_line_length merge_init (n2, c2)) post))
    as (tail & rest & Hsecond).
  { apply merge_fold_opens_with. rewrite merge_step_first.
    left. cbn. repeat split. exists []. reflexivity. }
  exists (m1 ++ fb), a, head, tail, rest.
  split; [|split].
  - replace (pre ++ (n1, c1) :: (n2, c2) :: post)
      with ((pre ++ [(n1, c1)]) ++ (n2, c2) :: post)
      by (rewrite <- app_assoc; reflexivity).
    rewrite foldl_app, E1. cbn [foldl].
    rewrite merge_step_after_control_flow.
    rewrite merge_step_first in Hsecond.
    pose proof (merge_fold_prefix targets max_line_length post
                  (m1 ++ flush_current max_line_length (cc ++ [c1]) start) []
                  (Some n2) [c2] (ends_with_control_flow c2)) as Hfold.
    rewrite app_nil_r in Hfold. cbv zeta in Hfold. rewrite Hfold.
    rewrite merge_finish_prefix, Hsecond, Hfl, <- !app_assoc. reflexivity.
  - unfold merge_finish. cbn. rewrite Hfl, app_assoc. reflexivity.
  - cbn [foldl]. exact Hsecond.
Qed.

(** A target line is the anchor of a physical line that starts with its
    code. *)
Lemma merge_lines_target_anchor (targets : gset N) (max_line_length : Z)
    (pre post : list (N * text)) (n : N) (c : text) :
  n ∈ targets ->
  exists before tail rest,
    merge_lines (pre ++ (n, c) :: post) targets max_line_length
    = before ++ (Some n, c ++ tail) :: rest.
Proof.
  intros Hn. unfold merge_lines. rewrite foldl_app. cbn [foldl].
  destruct (foldl (merge_step targets max_line_length) merge_init pre)
    as [m cs cc p].
  rewrite merge_step_target by exact Hn.
  destruct (merge_finish_opens_with max_line_length n c
              (foldl (merge_step targets max_line_length)
                     (MergeState [] (Some n) [c] (ends_with_control_flow c)) post))
    as (tail & rest & Hsecond).
  { apply merge_fold_opens_with. left. cbn. repeat split. exists []. reflexivity. }
  eexists _, tail, rest.
  match goal with
  | |- context [MergeState (m ++ ?f) _ _ _] =>
      pose proof (merge_fold_prefix targets max_line_length post (m ++ f) []
                    (Some n) [c] (ends_with_control_flow c)) as Hfold
  end.
  rewrite app_nil_r in Hfold. cbv zeta in Hfold. rewrite Hfold.
  rewrite merge_finish_prefix, Hsecond. reflexivity.
Qed.

(** C3.  When the classifier flags the code of a source line, the code of
    the next source line is never put on the same physical line, whatever
    the length budget and the targets: the output is the output for the
    program up to the flagged line, whose last physical line ends with the
    code of that line, followed by the output for the program from the
    next line on, whose first physical line is anchored at that line and
    starts with its code.  The classifier is applied to the code of the
    source line itself. *)
Theorem no_merge_after_control_flow (targets : gset N) (max_line_length : Z)
    (pre post : list (N * text)) (n1 n2 : N) (c1 c2 : text) :
  ends_with_control_flow c1 = true ->
  exists before a head tail rest,
    merge_lines (pre ++ (n1, c1) :: (n2, c2) :: post) targets max_line_length
    = before ++ (a, head ++ c1) :: (Some n2, c2 ++ tail) :: rest
    /\ merge_lines (pre ++ [(n1, c1)]) targets max_line_length
       = before ++ [(a, head ++ c1)]
    /\ merge_lines ((n2, c2) :: post) targets max_line_length
       = (Some n2, c2 ++ tail) :: rest.
Proof. apply merge_lines_after_control_flow. Qed.

Lemma no_merge_after_control_flow_witness :
  ends_with_control_flow (str "GOTO100") = true
  /\ exists before a head tail rest,
       merge_lines ([(5%N, str "A=1")] ++ (10%N, str "GOTO100")
                      :: (20%N, str "PRINT1") :: [(30%N, str "B=2")]) ∅ 255
       = before ++ (a, head ++ str "GOTO100") :: (Some 20%N, str "PRINT1" ++ tail) :: rest
       /\ merge_lines ([(5%N, str "A=1")] ++ [(10%N, str "GOTO100")]) ∅ 255
          = before ++ [(a, head ++ str "GOTO100")]
       /\ merge_lines ((20%N, str "PRINT1") :: [(30%N, str "B=2")]) ∅ 255
          = (Some 20%N, str "PRINT1" ++ tail) :: rest.
Proof.
  split; [reflexivity|].
  apply (no_merge_after_control_flow ∅ 255 [(5%N, str "A=1")] [(30%N, str "B=2")]
           10%N 20%N (str "GOTO100") (str "PRINT1")).
  reflexivity.
Defined.

End MergerProofs.

(** ** The packing pipeline *)

Module PipelineProofs.
Import PyStr Pack Spec.

(** *** Anchors and the line map *)

(** An entry of [line_map] is never overwritten. *)
Lemma build_line_map_keeps (merged : list mline) :
  forall (k : N) (line_map : gmap N N) (n v : N),
    line_map !! n = Some v -> build_line_map merged k line_map !! n = Some v.
Proof.
  induction merged as [|[old code] merged IH]; intros k line_map n v H; [exact H|].
  cbn [build_line_map]. apply IH.
  destruct old as [old|]; [|exact H].
  destruct (line_map !! old) eqn:E; [exact H|].
  rewrite lookup_insert_ne; [exact H|]. intros ->. congruence.
Qed.

(** Every anchor of [merged] is a key of [line_map]. *)
Lemma build_line_map_anchor (merged : list mline) :
  forall (k : N) (line_map : gmap N N) (n : N) (code : text),
    In (Some n, code) merged ->
    exists v, build_line_map merged k line_map !! n = Some v.
Proof.
  induction merged as [|[old code'] merged IH]; intros k line_map n code Hin;
    [contradiction|].
  cbn [build_line_map]. destruct Hin as [[= -> ->]|Hin]; [|eapply IH; exact Hin].
  destruct (line_map !! n) as [v|] eqn:E.
  - exists v. apply build_line_map_keeps. exact E.
  - exists k. apply build_line_map_keeps. apply lookup_insert_eq.
Qed.

(** The new number of an anchored line is its entry in [line_map]. *)
Lemma renumber_anchor (line_map : gmap N N) (before : list mline) :
  forall (k : N) (n : N) (code : text) (rest : list mline),
    renumber line_map (before ++ (Some n, code) :: rest) k !! length before
    = Some (default 0%N (line_map !! n), update_line_references code line_map).
Proof.
  induction before as [|[old c] before IH]; intros k n code rest; [reflexivity|].
  cbn [app renumber length]. apply IH.
Qed.

(** What holds of every program: a line whose number is a target is the
    anchor of a physical line that starts with its
    compacted code, [line_map] has an entry for it, and this entry is the
    number given to that physical line in the output. *)
Lemma targets_stay_anchors (pre post : list (N * text)) (n : N) (c : text) :
  let packed := pack_program (pre ++ (n, c) :: post) in
  n ∈ pp_targets packed ->
  exists before tail rest v text,
    pp_merged packed = before ++ (Some n, pack_line c ++ tail) :: rest
    /\ pp_line_map packed !! n = Some v
    /\ pp_output packed !! length before = Some (v, text).
Proof.
  intros packed Hn. subst packed. unfold pack_program in *.
  cbn [pp_targets pp_merged pp_line_map pp_output] in *.
  rewrite map_app in *. cbn [map] in *.
  set (lines := map (fun '(num, code) => (num, pack_line code)) pre
                ++ (n, pack_line c)
                   :: map (fun '(num, code) => (num, pack_line code)) post) in *.
  destruct (MergerProofs.merge_lines_target_anchor (find_line_targets lines) 255
              (map (fun '(num, code) => (num, pack_line code)) pre)
              (map (fun '(num, code) => (num, pack_line code)) post)
              n (pack_line c) Hn) as (before & tail & rest & Hm).
  fold lines in Hm. rewrite Hm.
  destruct (build_line_map_anchor (before ++ (Some n, pack_line c ++ tail) :: rest)
              1%N ∅ n (pack_line c ++ tail)) as [v Hv].
  { apply in_or_app. right. left. reflexivity. }
  exists before, tail, rest, v.
  eexists. split; [reflexivity|]. split; [exact Hv|].
  rewrite list_lookup_fmap, renumber_anchor, Hv. reflexivity.
Qed.

(** The same along the pipeline: in [pack_basic_file] the merger receives
    the compacted code of every line, and the classifier is applied to
    it. *)
Lemma no_merge_after_control_flow_in_pipeline (pre post : list (N * text))
    (n1 n2 : N) (c1 c2 : text) :
  ends_with_control_flow (pack_line c1) = true ->
  exists before a head tail rest,
    pp_merged (pack_program (pre ++ (n1, c1) :: (n2, c2) :: post))
    = before ++ (a, head ++ pack_line c1) :: (Some n2, pack_line c2 ++ tail) :: rest.
Proof.
  intros H. unfold pack_program. cbn [pp_merged].
  rewrite map_app. cbn [map].
  destruct (MergerProofs.merge_lines_after_control_flow
              (find_line_targets
                 (map (fun '(num, code) => (num, pack_line code)) pre
                  ++ (n1, pack_line c1) :: (n2, pack_line c2)
                     :: map (fun '(num, code) => (num, pack_line code)) post))
              255
              (map (fun '(num, code) => (num, pack_line code)) pre)
              (map (fun '(num, code) => (num, pack_line code)) post)
              n1 n2 (pack_line c1) (pack_line c2) H)
    as (before & a & head & tail & rest & Hall & _).
  exists before, a, head, tail, rest. exact Hall.
Qed.

(** The classifier and the wording of the specification agree on the
    examples of the specification. *)
Example classifier_examples :
  map ends_with_control_flow
      [str "GOTO 100"; str "A=1:GOSUB 100"; str "A=1:RETURN"; str "END";
       str "STOP"; str "IF A=1 THEN PRINT 5"; str "PRINT A"]
  = [true; false; true; true; true; true; false]
  /\ map claimed_control_flow
         [str "GOTO 100"; str "A=1:GOSUB 100"; str "A=1:RETURN"; str "END";
          str "STOP"; str "IF A=1 THEN PRINT 5"; str "PRINT A"]
     = [true; false; true; true; true; true; false].
Proof. split; reflexivity. Qed.

(** C4, the failing input.  In the line IF A GOTO 50:PRINT followed by
    the open string literal IF X THEN Y, the only THEN is inside the
    string literal and the last statement is a PRINT: none of the three
    conditions holds, and the classifier returns true.  The scan for THEN
    that starts at the first IF leaves the variable [in_string] set at the
    end of the line, so that the outer loop takes the text of the literal
    for code.  The same holds for the line as the packer hands it to the
    classifier, without the blanks outside the literal. *)
Theorem classifier_reads_then_inside_string :
  let code := str "IF A GOTO 50:PRINT " ++ [dquote] ++ str "IF X THEN Y" in
  (ends_with_control_flow code = true /\ claimed_control_flow code = false)
  /\ (pack_line code = str "IFAGOTO50:PRINT" ++ [dquote] ++ str "IF X THEN Y"
      /\ ends_with_control_flow (pack_line code) = true
      /\ claimed_control_flow (pack_line code) = false)
  /\ if_scan code false = true
  /\ if_then_outside code = false.
Proof. vm_compute. repeat split. Qed.

(** C2, the failing input.  Line 10 ends inside a string literal, which
    BASIC closes at the end of the line; line 20 jumps to line 30.  Line
    30 is a target, stays the anchor of a physical line of its own and is
    mapped to its new number 2; but line 20 was merged behind the open
    literal of line 10, where the fixup takes its GOTO for the text of the
    literal, and the operand is still 30 in the output. *)
Theorem reference_after_open_string_not_rewritten :
  let program :=
    [(10%N, str "PRINT " ++ [dquote] ++ str "HI");
     (20%N, str "GOTO 30");
     (30%N, str "END")] in
  let packed := pack_program program in
  30%N ∈ pp_targets packed
  /\ pp_merged packed
     = [(Some 10%N, str "PRINT" ++ [dquote] ++ str "HI:GOTO30");
        (Some 30%N, str "END")]
  /\ pp_line_map packed !! 30%N = Some 2%N
  /\ pp_output packed
     = [(1%N, str "PRINT" ++ [dquote] ++ str "HI:GOTO30"); (2%N, str "END")].
Proof.
  intros program packed. split; [|split; [|split]].
  - apply (bool_decide_unpack _). vm_compute. exact I.
  - vm_compute. reflexivity.
  - vm_compute. reflexivity.
  - vm_compute. reflexivity.
Qed.

(** With the literal of line 10 closed, the same program has its operand
    rewritten. *)
Example reference_after_closed_string_rewritten :
  pp_output (pack_program
               [(10%N, str "PRINT " ++ [dquote] ++ str "HI" ++ [dquote]);
                (20%N, str "GOTO 30");
                (30%N, str "END")])
  = [(1%N, str "PRINT" ++ [dquote] ++ str "HI" ++ [dquote] ++ str ":GOTO2");
     (2%N, str "END")].
Proof. vm_compute. reflexivity. Qed.

End PipelineProofs.

(** ** Programs whose string literals are closed *)

Module ClosedLiteralsProofs.
Import PyStr Pack Spec.
Import FixupProofs.

(** *** The targets are the references of the lines *)

Lemma targets_loop_references (code : text) :
  forall (m : mode) (in_string : bool) (targets : gset N) (n : N),
    n ∈ targets
    \/ (exists run, In (Reference run) (pieces_loop code m in_string)
                    /\ py_int run = n) ->
    n ∈ targets_loop code m in_string targets.
Proof.
  induction code as [|c code IH]; intros m s T n H.
  - destruct m; simpl in *;
      try (destruct H as [H | (r & [] & _)]; exact H).
    destruct H as [H | (r & [[= <-]|[]] & <-)]; set_solver.
  - cbn [targets_loop pieces_loop] in *. revert H.
    scan_cases m k r0; cbn [app]; intros H; apply IH;
      (destruct H as [H | (r & Hin & <-)]; [left; set_solver|]);
      repeat match goal with
             | H : In _ (_ :: _) |- _ => destruct H as [H|H]; [try discriminate|]
             end;
      first [ injection Hin as <-; left; set_solver
            | right; exists r; split; [assumption|reflexivity] ].
Qed.

Lemma find_line_targets_from_references (lines : list (N * text)) :
  forall (targets : gset N) (n : N),
    n ∈ targets
    \/ (exists num code run,
          In (num, code) lines
          /\ In (Reference run) (pieces (remove_comment code))
          /\ py_int run = n) ->
    n ∈ find_line_targets_from lines targets.
Proof.
  induction lines as [|[num code] lines IH]; intros T n H.
  - destruct H as [H | (? & ? & ? & [] & _)]. exact H.
  - cbn [find_line_targets_from]. apply IH.
    destruct H as [H | (num' & code' & run & [[= -> ->]|Hin] & Hrun & Hn)].
    + left. apply targets_loop_references. left. exact H.
    + left. apply targets_loop_references. right. exists run. split; assumption.
    + right. exists num', code', run. repeat split; assumption.
Qed.

(** *** The pieces of two segments joined by the merger *)

(** The pieces of [a ++ sep ++ b]: those of [a], the separator, and those
    of [b] read from the string state in which [a] ends. *)
Lemma pieces_loop_join (sep b : text) :
  separator sep ->
  forall (a : text) (m : mode) (s : bool),
    within m a ->
    pieces_loop (a ++ sep ++ b) m s
    = pieces_loop a m s ++ map Plain sep
      ++ pieces_loop b Outer (xorb s (Nat.odd (count_quotes a))).
Proof.
  intros Hsep. induction a as [|c a IH]; intros m s Hm.
  - change (Nat.odd (count_quotes [])) with false. rewrite xorb_false_r.
    change ([] ++ sep ++ b) with (sep ++ b).
    apply pieces_loop_separator; assumption.
  - rewrite parity_cons. cbn [app pieces_loop].
    assert (Hk : keyword_at (c :: a ++ sep ++ b) = keyword_at (c :: a)).
    { destruct Hsep as [-> | ->]; apply (keyword_at_stop (c :: a));
        [left|right]; reflexivity. }
    rewrite Hk. clear Hk.
    destruct m as [|k| |run].
    + cbn [settle]. outer_case IH c a s.
    + destruct (within_step k c a Hm) as [Hq Hw].
      cbn [settle]. rewrite Hq. rewrite IH by exact Hw. reflexivity.
    + unfold settle. destruct (isdigit c) eqn:Hd; cbn [orb].
      * rewrite (digit_not_quote c Hd). rewrite IH by exact I. reflexivity.
      * destruct (is_separator c) eqn:Hsp.
        -- rewrite (separator_not_quote c Hsp). rewrite IH by exact I.
           reflexivity.
        -- outer_case IH c a s.
    + unfold settle. destruct (isdigit c) eqn:Hd.
      * rewrite (digit_not_quote c Hd). rewrite IH by exact I. reflexivity.
      * destruct (is_separator c) eqn:Hsp.
        -- rewrite (separator_not_quote c Hsp). rewrite IH by exact I.
           reflexivity.
        -- outer_case IH c a s.
Qed.

Lemma pieces_join (sep a b : text) :
  separator sep -> closed a ->
  pieces (a ++ sep ++ b) = pieces a ++ map Plain sep ++ pieces b.
Proof.
  intros Hsep Ha. unfold pieces.
  rewrite (pieces_loop_join sep b Hsep a Outer false I).
  unfold closed in Ha. rewrite <- Nat.negb_even, Ha. reflexivity.
Qed.

Lemma join_separator (prev : text) :
  separator (if is_data prev then str " :" else str ":").
Proof. destruct (is_data prev); [right | left]; reflexivity. Qed.

(** A reference of a merged line is a reference of one of its segments. *)
Lemma join_from_references (segs : list text) :
  forall seg run : text,
    closed seg -> Forall closed segs ->
    In (Reference run) (pieces (seg ++ join_from seg segs)) ->
    exists s, In s (seg :: segs) /\ In (Reference run) (pieces s).
Proof.
  induction segs as [|s2 segs IH]; intros seg run Hseg Hsegs Hin.
  - cbn [join_from] in Hin. rewrite app_nil_r in Hin.
    exists seg. split; [left; reflexivity | exact Hin].
  - cbn [join_from] in Hin.
    rewrite (pieces_join _ seg (s2 ++ join_from s2 segs) (join_separator seg) Hseg)
      in Hin.
    apply in_app_or in Hin. destruct Hin as [Hin | Hin].
    + exists seg. split; [left; reflexivity | exact Hin].
    + apply in_app_or in Hin. destruct Hin as [Hin | Hin].
      * apply in_map_iff in Hin. destruct Hin as (x & Hx & _). discriminate Hx.
      * inversion Hsegs as [|? ? H2 Hrest]; subst.
        destruct (IH s2 run H2 Hrest Hin) as (s & Hs & Hr).
        exists s. split; [right; exact Hs | exact Hr].
Qed.

Lemma join_segments_references (segs : list text) (run : text) :
  Forall closed segs ->
  In (Reference run) (pieces (join_segments segs)) ->
  exists s, In s segs /\ In (Reference run) (pieces s).
Proof.
  destruct segs as [|seg segs]; intros Hc Hin; [contradiction|].
  inversion Hc; subst. apply join_from_references; assumption.
Qed.

(** *** The lines of the merger are joined lines of the program *)

Section Joined.

Variable lines : list (N * text).
Variable targets : gset N.
Variable max_line_length : Z.

Abbreviation from_lines segs :=
  (Forall (fun seg => exists n, In (n, seg) lines) segs).

Abbreviation invariant st :=
  (Forall (fun e : mline => joined lines (snd e)) (merged st)
   /\ from_lines (current_code st)).

Lemma joined_single (n : N) (seg : text) : In (n, seg) lines -> joined lines seg.
Proof.
  intros H. exists [seg]. split.
  - constructor; [exists n; exact H | constructor].
  - cbn. rewrite app_nil_r. reflexivity.
Qed.

Lemma flush_current_joined (cc : list text) (start : N) :
  from_lines cc ->
  Forall (fun e : mline => joined lines (snd e))
         (flush_current max_line_length cc start).
Proof.
  intros Hcc. unfold flush_current. destruct cc as [|first others]; [constructor|].
  match goal with |- context [if ?b then _ else _] => destruct b end.
  - constructor; [|constructor]. exists (first :: others). split; [exact Hcc|reflexivity].
  - inversion Hcc as [|? ? [n Hn] Hothers]; subst.
    constructor; [apply (joined_single n); exact Hn|].
    apply Forall_map. eapply Forall_impl; [exact Hothers|].
    intros seg [k Hk]. apply (joined_single k). exact Hk.
Qed.

Lemma merge_step_joined (st : merge_state) (line : N * text) :
  In line lines -> invariant st ->
  invariant (merge_step targets max_line_length st line).
Proof.
  intros Hin [Hm Hcc]. destruct line as [n c].
  assert (Hone : from_lines [c]).
  { constructor; [exists n; exact Hin | constructor]. }
  unfold merge_step.
  destruct (bool_decide (n ∈ targets) || prevent_merge st).
  - cbn [merged current_code]. split; [|exact Hone].
    destruct (current_start_line st); [|exact Hm].
    apply Forall_app. split; [exact Hm | apply flush_current_joined; exact Hcc].
  - match goal with |- context [if ?b then _ else _] => destruct b end;
      cbn [merged current_code].
    + split; [exact Hm|]. apply Forall_app. split; assumption.
    + split; [|exact Hone].
      apply Forall_app. split; [exact Hm | apply flush_current_joined; exact Hcc].
Qed.

Lemma merge_fold_joined (ls : list (N * text)) :
  forall st : merge_state,
    (forall l, In l ls -> In l lines) -> invariant st ->
    invariant (foldl (merge_step targets max_line_length) st ls).
Proof.
  induction ls as [|l ls IH]; intros st Hls Hst; [exact Hst|].
  cbn [foldl]. apply IH.
  - intros l' Hl'. apply Hls. right. exact Hl'.
  - apply merge_step_joined; [apply Hls; left; reflexivity | exact Hst].
Qed.

Lemma merge_lines_joined (a : option N) (t : text) :
  In (a, t) (merge_lines lines targets max_line_length) -> joined lines t.
Proof.
  unfold merge_lines, merge_finish. intros Hin.
  destruct (merge_fold_joined lines merge_init (fun l H => H)) as [Hm Hcc].
  { split; constructor. }
  set (st := foldl (merge_step targets max_line_length) merge_init lines) in *.
  assert (Hall : Forall (fun e : mline => joined lines (snd e))
                   (match current_start_line st with
                    | Some start =>
                        merged st ++ flush_current max_line_length (current_code st) start
                    | None => merged st
                    end)).
  { destruct (current_start_line st); [|exact Hm].
    apply Forall_app. split; [exact Hm | apply flush_current_joined; exact Hcc]. }
  rewrite Forall_forall in Hall. apply (Hall (a, t)).
  apply list_elem_of_In. exact Hin.
Qed.

End Joined.

(** *** Compacted lines are bare *)

Lemma comment_free_app (a : text) :
  forall (b : text) (s : bool),
    comment_index (a ++ b) s = None
    <-> comment_index a s = None
        /\ comment_index b (xorb s (Nat.odd (count_quotes a))) = None.
Proof.
  induction a as [|c a IH]; intros b s.
  - change (Nat.odd (count_quotes [])) with false. rewrite xorb_false_r.
    cbn. tauto.
  - rewrite parity_cons. cbn [app comment_index].
    destruct (ch_eqb c dquote).
    + rewrite !fmap_None. apply IH.
    + destruct (ch_eqb c squote && negb s).
      * split; [discriminate | intros [H _]; discriminate H].
      * rewrite !fmap_None. apply IH.
Qed.

Lemma comment_free_snoc (r x : text) (s : bool) :
  comment_index r false = None -> Nat.odd (count_quotes r) = s ->
  comment_index x s = None ->
  comment_index (r ++ x) false = None.
Proof.
  intros Hr Hs Hx. apply comment_free_app.
  split; [exact Hr | rewrite xorb_false_l, Hs; exact Hx].
Qed.

Lemma comment_index_take (x : text) :
  forall (s : bool) (k : nat),
    comment_index x s = Some k -> comment_index (take k x) s = None.
Proof.
  induction x as [|c x IH]; intros s k H; [discriminate H|].
  cbn [comment_index] in H. revert H.
  destruct (ch_eqb c dquote) eqn:Hq.
  - intros H. apply fmap_Some in H. destruct H as (k' & Hk' & ->).
    cbn [take comment_index]. rewrite Hq, (IH _ _ Hk'). reflexivity.
  - destruct (ch_eqb c squote && negb s) eqn:Hsq.
    + intros [= <-]. reflexivity.
    + intros H. apply fmap_Some in H. destruct H as (k' & Hk' & ->).
      cbn [take comment_index]. rewrite Hq, Hsq, (IH _ _ Hk'). reflexivity.
Qed.

Lemma backtrack_rev_suffix (r : text) : exists p, r = p ++ backtrack_rev r.
Proof.
  induction r as [|c r [p Hp]]; [exists []; reflexivity|].
  cbn [backtrack_rev]. destruct (ch_eqb c colon).
  - exists [c]. reflexivity.
  - destruct (ch_eqb c blank).
    + exists (c :: p). cbn [app]. f_equal. exact Hp.
    + exists []. reflexivity.
Qed.

Lemma backtrack_prefix (r : text) : exists t, r = backtrack r ++ t.
Proof.
  destruct (backtrack_rev_suffix (rev r)) as [p Hp].
  exists (rev p). unfold backtrack.
  rewrite <- rev_app_distr, <- Hp, rev_involutive. reflexivity.
Qed.

Lemma drop_while_head (p : ascii -> bool) (l : text) :
  match drop_while p l with
  | c :: _ => p c = false
  | [] => True
  end.
Proof.
  induction l as [|c l IH]; [exact I|].
  cbn [drop_while]. destruct (p c) eqn:E; [exact IH | exact E].
Qed.

Lemma rstrip_is_solid (y : text) : solid (rstrip y).
Proof.
  unfold rstrip. pose proof (drop_while_head isspace (rev y)) as H.
  destruct (drop_while isspace (rev y)) as [|c r]; [left; reflexivity|].
  right. exists (rev r), c. split; [reflexivity | exact H].
Qed.

Lemma solid_rstrip (x : text) : solid x -> rstrip x = x.
Proof.
  intros [-> | (p & c & -> & Hc)]; [reflexivity|].
  unfold rstrip. rewrite rev_unit. cbn [drop_while]. rewrite Hc.
  cbn [rev]. rewrite rev_involutive. reflexivity.
Qed.

Lemma remove_comment_bare (x : text) : bare (remove_comment x).
Proof.
  unfold remove_comment. rewrite ScannerProofs.remove_comment_loop_spec.
  cbn [app].
  assert (Hy : exists y t,
             match comment_index x false with
             | Some k => backtrack (take k x)
             | None => x
             end = y
             /\ comment_index (y ++ t) false = None).
  { destruct (comment_index x false) as [k|] eqn:E.
    - destruct (backtrack_prefix (take k x)) as [t Ht].
      exists (backtrack (take k x)), t. split; [reflexivity|].
      rewrite <- Ht. apply comment_index_take. exact E.
    - exists x, []. split; [reflexivity|]. rewrite app_nil_r. exact E. }
  destruct Hy as (y & t & -> & Hy).
  split; [|apply solid_rstrip, rstrip_is_solid].
  destruct (ClassifierProofs.rstrip_split y) as (ws & Hsplit & _).
  rewrite Hsplit, <- app_assoc in Hy.
  apply comment_free_app in Hy. exact (proj1 Hy).
Qed.

Lemma bare_remove_comment (x : text) : bare x -> remove_comment x = x.
Proof.
  intros [Hc Hr]. unfold remove_comment.
  rewrite ScannerProofs.remove_comment_loop_spec, Hc. exact Hr.
Qed.

Lemma space_not_blank (c : ascii) : isspace c = false -> ch_eqb c blank = false.
Proof.
  intros H. destruct (ch_eqb c blank) eqn:E; [|reflexivity].
  apply Ascii.eqb_eq in E. subst c. discriminate H.
Qed.

Ltac spaces_cases :=
  repeat match goal with
         | |- context [match lstrip_blank ?x with _ => _ end] =>
             destruct (lstrip_blank x)
         | |- context [match last ?x with _ => _ end] => destruct (last x)
         | |- context [if ?b then _ else _] => destruct b
         end.

Lemma pack_spaces_loop_last (c : ascii) (l : text) :
  isspace c = false ->
  forall (s : bool) (r : text),
    exists r', pack_spaces_loop (l ++ [c]) s r = r' ++ [c].
Proof.
  intros Hc. induction l as [|c0 l IH]; intros s r.
  - cbn [app pack_spaces_loop]. rewrite (space_not_blank c Hc).
    destruct (ch_eqb c dquote), s; eexists; reflexivity.
  - cbn [app pack_spaces_loop]. spaces_cases; apply IH.
Qed.

Lemma pack_spaces_solid (x : text) : solid x -> solid (pack_spaces x).
Proof.
  intros [-> | (p & c & -> & Hc)]; [left; reflexivity|].
  destruct (pack_spaces_loop_last c p Hc false []) as [r' Hr].
  unfold pack_spaces. cbv zeta. rewrite Hr.
  destruct (startswith (upper (r' ++ [c])) (str "DATA")); cbn [andb];
    [|right; exists r', c; split; [reflexivity | exact Hc]].
  destruct (4 <? length (r' ++ [c]))%nat eqn:Hlen; cbn [andb];
    [|right; exists r', c; split; [reflexivity | exact Hc]].
  destruct (negb _);
    [|right; exists r', c; split; [reflexivity | exact Hc]].
  apply Nat.ltb_lt in Hlen. rewrite length_app in Hlen. cbn [length] in Hlen.
  right. exists (str "DATA " ++ drop 4 r'), c. split; [|exact Hc].
  rewrite drop_app_le by lia. rewrite app_assoc. reflexivity.
Qed.

Lemma startswith_length (p : text) :
  forall s : text, startswith s p = true -> (length p <= length s)%nat.
Proof.
  induction p as [|b p IH]; intros s H; [cbn; lia|].
  destruct s as [|a s]; [discriminate H|].
  cbn [startswith] in H. apply andb_prop in H. destruct H as [_ H].
  apply IH in H. cbn [length]. lia.
Qed.

Lemma print_length (line : text) :
  startswith (upper line) (str "PRINT") = true -> (5 <= length line)%nat.
Proof.
  intros H. apply startswith_length in H. unfold upper in H.
  rewrite length_map in H. exact H.
Qed.

Lemma semicolons_loop_last (c : ascii) (l : text) :
  isspace c = false ->
  forall (skip : nat) (s p : bool) (r : text),
    (skip <= length (l ++ [c]))%nat ->
    (exists r0, r = r0 ++ take skip (l ++ [c])) ->
    exists r', semicolons_loop (l ++ [c]) skip s p r = r' ++ [c].
Proof.
  intros Hc. induction l as [|c0 l IH]; intros skip s p r Hlen [r0 Hr].
  - cbn [app] in *. destruct skip as [|[|k]].
    + cbn [semicolons_loop].
      destruct (startswith (upper [c]) (str "PRINT")) eqn:E;
        [apply print_length in E; cbn in E; lia|].
      destruct (ch_eqb c dquote); [eexists; reflexivity|].
      destruct s; [eexists; reflexivity|].
      destruct (p && ch_eqb c colon); [eexists; reflexivity|].
      destruct (p && ch_eqb c semicolon); eexists; reflexivity.
    + exists r0. exact Hr.
    + cbn [length] in Hlen. lia.
  - cbn [app semicolons_loop]. destruct skip as [|k].
    + assert (Hany : forall r1, exists r0', r1 = r0' ++ take 0 (l ++ [c])).
      { intros r1. exists r1. cbn. rewrite app_nil_r. reflexivity. }
      destruct (startswith (upper (c0 :: l ++ [c])) (str "PRINT")) eqn:E.
      * apply print_length in E. cbn [length] in E.
        destruct (ch_eqb c0 dquote); [apply IH; [lia | apply Hany]|].
        destruct s; [apply IH; [lia | apply Hany]|].
        apply IH; [lia|]. exists (r ++ [c0]).
        cbn [take]. rewrite <- app_assoc. reflexivity.
      * repeat match goal with
               | |- context [if ?b then _ else _] => destruct b
               end; (apply IH; [lia | apply Hany]).
    + apply IH; [cbn [app length] in Hlen; lia|].
      exists (r0 ++ [c0]). rewrite Hr. cbn [take]. rewrite <- app_assoc.
      reflexivity.
Qed.

Lemma remove_print_semicolons_solid (x : text) :
  solid x -> solid (remove_print_semicolons x).
Proof.
  intros [-> | (p & c & -> & Hc)]; [left; reflexivity|].
  destruct (semicolons_loop_last c p Hc 0 false false []) as [r' Hr].
  - lia.
  - exists []. reflexivity.
  - right. exists r', c. split; [exact Hr | exact Hc].
Qed.

Lemma snoc_comment_free (r : text) (c : ascii) (s : bool) :
  comment_index r false = None -> Nat.odd (count_quotes r) = s ->
  ch_eqb c dquote = false -> ch_eqb c squote && negb s = false ->
  comment_index (r ++ [c]) false = None
  /\ Nat.odd (count_quotes (r ++ [c])) = s.
Proof.
  intros Hr Hs Hq Hsq. split.
  - apply (comment_free_snoc r [c] s Hr Hs).
    cbn [comment_index]. rewrite Hq, Hsq. reflexivity.
  - rewrite ClassifierProofs.odd_snoc_other by exact Hq. exact Hs.
Qed.

Lemma snoc_quote_comment_free (r : text) (s : bool) :
  comment_index r false = None -> Nat.odd (count_quotes r) = s ->
  comment_index (r ++ [dquote]) false = None
  /\ Nat.odd (count_quotes (r ++ [dquote])) = negb s.
Proof.
  intros Hr Hs. split.
  - apply (comment_free_snoc r [dquote] s Hr Hs). reflexivity.
  - rewrite ClassifierProofs.odd_snoc_quote, Hs. reflexivity.
Qed.

Lemma pack_spaces_loop_comment_free (line : text) :
  forall (s : bool) (r : text),
    comment_index line s = None ->
    comment_index r false = None -> Nat.odd (count_quotes r) = s ->
    comment_index (pack_spaces_loop line s r) false = None.
Proof.
  induction line as [|c line IH]; intros s r Hl Hr Hs; [exact Hr|].
  cbn [pack_spaces_loop]. revert Hl. cbn [comment_index].
  destruct (ch_eqb c dquote) eqn:Hq.
  - intros Hl. apply fmap_None in Hl.
    apply Ascii.eqb_eq in Hq. subst c.
    destruct (snoc_quote_comment_free r s Hr Hs).
    apply IH; assumption.
  - destruct (ch_eqb c squote && negb s) eqn:Hsq; [discriminate|].
    intros Hl. apply fmap_None in Hl.
    destruct (snoc_comment_free r c s Hr Hs Hq Hsq).
    destruct (snoc_comment_free r blank s Hr Hs eq_refl eq_refl).
    spaces_cases; apply IH; assumption.
Qed.

Lemma pack_spaces_comment_free (x : text) :
  comment_index x false = None -> comment_index (pack_spaces x) false = None.
Proof.
  intros H.
  pose proof (pack_spaces_loop_comment_free x false [] H eq_refl eq_refl) as Hp.
  unfold pack_spaces. cbv zeta.
  generalize dependent (pack_spaces_loop x false []). intros packed Hp.
  destruct (startswith (upper packed) (str "DATA")) eqn:E; cbn [andb];
    [|exact Hp].
  match goal with |- context [if ?b then _ else _] => destruct b end;
    [|exact Hp].
  apply (startswith_upper_no_quote (str "DATA")) in E; [|repeat constructor].
  destruct E as [_ E]. change (length (str "DATA")) with 4%nat in E.
  rewrite <- (take_drop 4 packed) in Hp.
  apply comment_free_app in Hp. destruct Hp as [_ Hp].
  rewrite xorb_false_l, E in Hp.
  apply (comment_free_snoc (str "DATA ") (drop 4 packed) false);
    [reflexivity | reflexivity | exact Hp].
Qed.

Lemma semicolons_loop_comment_free (line : text) :
  forall (skip : nat) (s p : bool) (r : text),
    comment_index line s = None ->
    count_quotes (take skip line) = 0%nat ->
    comment_index r false = None -> Nat.odd (count_quotes r) = s ->
    comment_index (semicolons_loop line skip s p r) false = None.
Proof.
  induction line as [|c line IH]; intros skip s p r Hl Hk Hr Hs; [exact Hr|].
  cbn [semicolons_loop]. pose proof Hl as Hl0. revert Hl Hk.
  cbn [comment_index]. destruct skip as [|k]; cbn [take count_quotes].
  - intros Hl _. revert Hl. destruct (ch_eqb c dquote) eqn:Hq.
    + intros Hl. apply fmap_None in Hl.
      apply Ascii.eqb_eq in Hq. subst c.
      destruct (snoc_quote_comment_free r s Hr Hs).
      apply IH; [assumption | reflexivity | assumption | assumption].
    + destruct (ch_eqb c squote && negb s) eqn:Hsq; [discriminate|].
      intros Hl. apply fmap_None in Hl.
      destruct (snoc_comment_free r c s Hr Hs Hq Hsq).
      destruct s; [apply IH; [assumption | reflexivity | assumption | assumption]|].
      destruct (startswith (upper (c :: line)) (str "PRINT")) eqn:E.
      * apply (startswith_upper_no_quote (str "PRINT")) in E;
          [|repeat constructor].
        destruct E as [_ E]. change (length (str "PRINT")) with 5%nat in E.
        assert (E4 : count_quotes (take 4 line) = 0%nat).
        { cbn [take count_quotes] in E. rewrite Hq in E. exact E. }
        apply IH; [exact Hl | exact E4 | |].
        -- apply (comment_free_snoc r _ false Hr Hs).
           rewrite <- (take_drop 5 (c :: line)) in Hl0.
           apply comment_free_app in Hl0. exact (proj1 Hl0).
        -- rewrite ClassifierProofs.count_quotes_app. cbn [count_quotes].
           rewrite Hq, E4, Nat.add_0_r. exact Hs.
      * repeat match goal with
               | |- context [if ?b then _ else _] => destruct b
               end; (apply IH; [assumption | reflexivity | assumption | assumption]).
  - destruct (ch_eqb c dquote) eqn:Hq; [discriminate|].
    destruct (ch_eqb c squote && negb s); [discriminate|].
    intros Hl Hk. apply fmap_None in Hl.
    apply IH; assumption.
Qed.

(** The compacted code of a line has no comment and no white space at its
    end: the scan for targets reads it whole. *)
Lemma pack_line_bare (code : text) : bare (pack_line code).
Proof.
  unfold pack_line. destruct (remove_comment_bare code) as [Hc _].
  split.
  - apply (semicolons_loop_comment_free _ 0 false false []);
      [apply pack_spaces_comment_free; exact Hc | reflexivity | reflexivity
      | reflexivity].
  - apply solid_rstrip, remove_print_semicolons_solid, pack_spaces_solid.
    unfold remove_comment. apply rstrip_is_solid.
Qed.

(** *** Programs whose string literals are closed *)

Lemma packed_lines (lines : list (N * text)) (n : N) (seg : text) :
  In (n, seg) (map (fun '(num, code) => (num, pack_line code)) lines) ->
  exists c, In (n, c) lines /\ seg = pack_line c.
Proof.
  intros H. apply in_map_iff in H. destruct H as ([n' c] & [= <- <-] & Hin).
  exists c. split; [exact Hin | reflexivity].
Qed.

(** When the string literals of every compacted line are closed, every
    operand that the fixup reads in a merged line is a target. *)
Lemma references_are_targets (lines : list (N * text)) :
  (forall n c, In (n, c) lines -> closed (pack_line c)) ->
  forall (a : option N) (t run : text),
    In (a, t) (pp_merged (pack_program lines)) ->
    In (Reference run) (pieces t) ->
    py_int run ∈ pp_targets (pack_program lines).
Proof.
  intros Hclosed a t run Hin Href. unfold pack_program in *.
  cbn [pp_merged pp_targets] in *.
  set (packed := map (fun '(num, code) => (num, pack_line code)) lines) in *.
  apply merge_lines_joined in Hin. destruct Hin as (segs & Hsegs & ->).
  destruct (join_segments_references segs run) as (s & Hs & Hr);
    [|exact Href|].
  { eapply Forall_impl; [exact Hsegs|]. intros seg [n Hn].
    apply packed_lines in Hn. destruct Hn as (c & Hc & ->).
    eapply Hclosed. exact Hc. }
  rewrite Forall_forall in Hsegs.
  destruct (Hsegs s) as [n Hn]; [apply list_elem_of_In; exact Hs|].
  unfold find_line_targets. apply find_line_targets_from_references. right.
  exists n, s, run. split; [exact Hn|]. split; [|reflexivity].
  destruct (packed_lines _ _ _ Hn) as (c & _ & ->).
  rewrite bare_remove_comment by apply pack_line_bare. exact Hr.
Qed.

(** On such a program an operand of GOTO, GOSUB, THEN or ELSE whose value
    is the number of a line of the program is rewritten to the number
    that this line has in the output. *)
Lemma references_rewritten_on_closed_literals (lines : list (N * text)) :
  (forall n c, In (n, c) lines -> closed (pack_line c)) ->
  forall (a : option N) (t run c : text),
    In (a, t) (pp_merged (pack_program lines)) ->
    In (Reference run) (pieces t) ->
    In (py_int run, c) lines ->
    exists before tail rest v out,
      pp_merged (pack_program lines)
      = before ++ (Some (py_int run), pack_line c ++ tail) :: rest
      /\ pp_output (pack_program lines) !! length before = Some (v, out)
      /\ rewrite_piece (pp_line_map (pack_program lines)) (Reference run)
         = py_str v.
Proof.
  intros Hclosed a t run c Hin Href Hline.
  pose proof (references_are_targets lines Hclosed a t run Hin Href) as Htarget.
  destruct (in_split _ _ Hline) as (pre & post & ->).
  destruct (PipelineProofs.targets_stay_anchors pre post (py_int run) c Htarget)
    as (before & tail & rest & v & out & Hm & Hv & Hout).
  exists before, tail, rest, v, out.
  split; [exact Hm|]. split; [exact Hout|].
  cbn [rewrite_piece]. rewrite Hv. reflexivity.
Qed.

Lemma renumber_pieces (line_map : gmap N N) (merged : list mline) :
  forall k : N,
    map snd (renumber line_map merged k)
    = map (fun e : mline =>
             concat (map (rewrite_piece line_map) (pieces (snd e)))) merged.
Proof.
  induction merged as [|[old code] merged IH]; intros k; [reflexivity|].
  cbn [renumber map snd]. rewrite IH. f_equal.
  apply update_loop_pieces.
Qed.

(** The text of every output line is the text of the merged line with
    its operands rewritten one by one, less a closing quote at its end. *)
Lemma output_rewrites_pieces (lines : list (N * text)) :
  map snd (pp_output (pack_program lines))
  = map (fun e : mline =>
           remove_trailing_quote
             (concat (map (rewrite_piece (pp_line_map (pack_program lines)))
                          (pieces (snd e)))))
        (pp_merged (pack_program lines)).
Proof.
  unfold pack_program. cbn [pp_output pp_merged pp_line_map].
  match goal with
  | |- map snd (map _ ?final_lines) = _ =>
      transitivity (map remove_trailing_quote (map snd final_lines))
  end.
  - rewrite !map_map. apply map_ext. intros [n code]. reflexivity.
  - rewrite renumber_pieces, map_map. reflexivity.
Qed.

End ClosedLiteralsProofs.

(** ** The compaction passes *)

Module CompactionProofs.
Import PyStr Pack Spec.
Import FixupProofs ClosedLiteralsProofs.

(** *** Comment removal *)

Lemma remove_comment_prefix (x : text) : exists t, x = remove_comment x ++ t.
Proof.
  unfold remove_comment. rewrite ScannerProofs.remove_comment_loop_spec.
  cbn [app].
  destruct (comment_index x false) as [k|].
  - destruct (ClassifierProofs.rstrip_split (backtrack (take k x)))
      as (ws & Hws & _).
    destruct (backtrack_prefix (take k x)) as [t Ht].
    exists (ws ++ t ++ drop k x).
    rewrite <- (take_drop k x) at 1. rewrite Ht at 1. rewrite Hws at 1.
    rewrite <- !app_assoc. reflexivity.
  - destruct (ClassifierProofs.rstrip_split x) as (ws & Hws & _).
    exists ws. exact Hws.
Qed.

(** X1.  Comment removal returns the start of the line, with no
    apostrophe outside a string literal and no white space at its end
    left in it, and removing comments a second time changes nothing. *)
Theorem remove_comment_stable (x : text) :
  (exists t, x = remove_comment x ++ t)
  /\ comment_index (remove_comment x) false = None
  /\ rstrip (remove_comment x) = remove_comment x
  /\ remove_comment (remove_comment x) = remove_comment x.
Proof.
  destruct (remove_comment_bare x) as [Hc Hr].
  split; [apply remove_comment_prefix|].
  split; [exact Hc|]. split; [exact Hr|].
  apply bare_remove_comment. split; assumption.
Qed.

(** X2.  The code of a line after the three compaction passes of
    [pack_basic_file] has no comment and no white space at its end, so
    that the comment removal at the head of [find_line_targets] leaves it
    as it is: the scan for targets reads the very text that is merged. *)
Theorem compacted_line_read_whole (code : text) :
  comment_index (pack_line code) false = None
  /\ rstrip (pack_line code) = pack_line code
  /\ remove_comment (pack_line code) = pack_line code.
Proof.
  pose proof (pack_line_bare code) as Hb.
  destruct Hb as [Hc Hr]. split; [exact Hc|]. split; [exact Hr|].
  apply bare_remove_comment. split; assumption.
Qed.

(** *** Blanks and semicolons *)

Lemma erase_outside_app (p : ascii -> bool) (a : text) :
  forall (b : text) (s : bool),
    erase_outside p (a ++ b) s
    = erase_outside p a s
      ++ erase_outside p b (xorb s (Nat.odd (count_quotes a))).
Proof.
  induction a as [|c a IH]; intros b s.
  - change (Nat.odd (count_quotes [])) with false. rewrite xorb_false_r.
    reflexivity.
  - rewrite parity_cons. cbn [app erase_outside].
    destruct (ch_eqb c dquote); [rewrite IH; reflexivity|].
    destruct s; [rewrite IH; reflexivity|].
    destruct (p c); rewrite IH; reflexivity.
Qed.

Lemma erase_outside_snoc (p : ascii -> bool) (r : text) (c : ascii) :
  erase_outside p (r ++ [c]) false
  = erase_outside p r false
    ++ erase_outside p [c] (Nat.odd (count_quotes r)).
Proof. rewrite erase_outside_app, xorb_false_l. reflexivity. Qed.

Lemma pack_spaces_loop_erase (line : text) :
  forall (s : bool) (r : text),
    Nat.odd (count_quotes r) = s ->
    erase_outside is_blank (pack_spaces_loop line s r) false
    = erase_outside is_blank r false ++ erase_outside is_blank line s.
Proof.
  induction line as [|c line IH]; intros s r Hs.
  - cbn. rewrite app_nil_r. reflexivity.
  - cbn [pack_spaces_loop erase_outside].
    destruct (ch_eqb c dquote) eqn:Hq.
    + apply Ascii.eqb_eq in Hq. subst c.
      rewrite IH by (rewrite ClassifierProofs.odd_snoc_quote, Hs; reflexivity).
      rewrite erase_outside_snoc, Hs, <- app_assoc. reflexivity.
    + assert (Hkeep : forall s',
                 Nat.odd (count_quotes r) = s' ->
                 erase_outside is_blank (r ++ [c]) false
                 = erase_outside is_blank r false
                   ++ (if s' then [c] else if ch_eqb c blank then [] else [c])).
      { intros s' Hs'. rewrite erase_outside_snoc, Hs'. cbn [erase_outside].
        rewrite Hq. destruct s'; [reflexivity|].
        change (is_blank c) with (ch_eqb c blank).
        destruct (ch_eqb c blank); reflexivity. }
      assert (Hpar : Nat.odd (count_quotes (r ++ [c])) = s)
        by (rewrite ClassifierProofs.odd_snoc_other by exact Hq; exact Hs).
      destruct s.
      * rewrite IH by exact Hpar. rewrite (Hkeep true Hs), <- app_assoc.
        reflexivity.
      * change (is_blank c) with (ch_eqb c blank).
        destruct (ch_eqb c blank) eqn:Hb.
        -- assert (Hblank : erase_outside is_blank (r ++ [blank]) false
                            = erase_outside is_blank r false).
           { rewrite erase_outside_snoc, Hs. cbn. apply app_nil_r. }
           assert (Hparb : Nat.odd (count_quotes (r ++ [blank])) = false)
             by (rewrite ClassifierProofs.odd_snoc_other by reflexivity; exact Hs).
           spaces_cases; rewrite IH by assumption; rewrite ?Hblank; reflexivity.
        -- rewrite IH by exact Hpar. rewrite (Hkeep false Hs), <- app_assoc.
           reflexivity.
Qed.

Lemma upper_char_not_blank (c k : ascii) :
  ch_eqb (upper_char c) k = true -> ch_eqb k blank = false ->
  ch_eqb c blank = false.
Proof.
  intros Hk Hb. destruct (ch_eqb c blank) eqn:E; [|reflexivity].
  apply Ascii.eqb_eq in E. subst c.
  apply Ascii.eqb_eq in Hk. subst k. discriminate Hb.
Qed.

(** A keyword without quote and blank at the head of a text stays in
    place when the blanks are erased. *)
Lemma startswith_upper_kept (kw : text) :
  Forall (fun k => ch_eqb k dquote = false /\ ch_eqb k blank = false) kw ->
  forall a : text,
    startswith (upper a) kw = true ->
    erase_outside is_blank a false
    = take (length kw) a
      ++ erase_outside is_blank (drop (length kw) a) false
    /\ upper (take (length kw) a) = kw
    /\ length (take (length kw) a) = length kw.
Proof.
  induction 1 as [|k kw [Hq Hb] _ IH]; intros a Ha.
  - repeat split; reflexivity.
  - destruct a as [|c a]; [discriminate Ha|].
    cbn [upper map startswith] in Ha.
    apply andb_prop in Ha. destruct Ha as [Hc Ha].
    destruct (IH a Ha) as (He & Hu & Hl).
    cbn [length take drop erase_outside upper map app].
    rewrite (upper_char_not_quote c k Hc Hq).
    change (is_blank c) with (ch_eqb c blank).
    rewrite (upper_char_not_blank c k Hc Hb).
    apply Ascii.eqb_eq in Hc.
    repeat split.
    + f_equal. exact He.
    + f_equal; [exact Hc | exact Hu].
    + f_equal. exact Hl.
Qed.

(** X3.  [pack_spaces] touches nothing but blanks outside the string
    literals: with these blanks erased, its result is its argument, except
    that the keyword DATA at the head of a line is written in capitals. *)
Theorem pack_spaces_erases_blanks (x : text) :
  let e := erase_outside is_blank x false in
  erase_outside is_blank (pack_spaces x) false = e
  \/ (upper (take 4 e) = str "DATA"
      /\ erase_outside is_blank (pack_spaces x) false = str "DATA" ++ drop 4 e).
Proof.
  intros e. subst e.
  pose proof (pack_spaces_loop_erase x false [] eq_refl) as He.
  cbn [erase_outside app] in He. rewrite <- He.
  unfold pack_spaces. cbv zeta.
  generalize (pack_spaces_loop x false []). intros packed.
  destruct (startswith (upper packed) (str "DATA")) eqn:E; cbn [andb];
    [|left; reflexivity].
  match goal with |- context [if ?b then _ else _] => destruct b end;
    [|left; reflexivity].
  right.
  apply (startswith_upper_kept (str "DATA")) in E;
    [|repeat constructor].
  change (length (str "DATA")) with 4%nat in E.
  destruct E as (He' & Hu & Hl).
  rewrite He'.
  rewrite take_app_length' by (symmetry; exact Hl).
  rewrite drop_app_length' by (symmetry; exact Hl).
  split; [exact Hu | reflexivity].
Qed.

Lemma erase_outside_keep (p : ascii -> bool) (r : text) (c : ascii)
    (line : text) (s : bool) :
  Nat.odd (count_quotes r) = s ->
  erase_outside p (r ++ [c]) false
    ++ erase_outside p line (if ch_eqb c dquote then negb s else s)
  = erase_outside p r false ++ erase_outside p (c :: line) s.
Proof.
  intros Hs. rewrite erase_outside_snoc, Hs, <- app_assoc.
  cbn [erase_outside]. destruct (ch_eqb c dquote); [reflexivity|].
  destruct s; [reflexivity|]. destruct (p c); reflexivity.
Qed.

Lemma odd_snoc (r : text) (c : ascii) (s : bool) :
  Nat.odd (count_quotes r) = s ->
  Nat.odd (count_quotes (r ++ [c])) = if ch_eqb c dquote then negb s else s.
Proof.
  intros Hs. destruct (ch_eqb c dquote) eqn:Hq.
  - apply Ascii.eqb_eq in Hq. subst c.
    rewrite ClassifierProofs.odd_snoc_quote, Hs. reflexivity.
  - rewrite ClassifierProofs.odd_snoc_other by exact Hq. exact Hs.
Qed.

Lemma semicolons_loop_erase (line : text) :
  forall (skip : nat) (s p : bool) (r : text),
    Nat.odd (count_quotes r) = s ->
    count_quotes (take skip line) = 0%nat ->
    erase_outside is_semicolon (semicolons_loop line skip s p r) false
    = erase_outside is_semicolon r false
      ++ erase_outside is_semicolon (drop skip line) s.
Proof.
  induction line as [|c line IH]; intros skip s p r Hs Hk.
  - rewrite drop_nil. cbn. rewrite app_nil_r. reflexivity.
  - cbn [semicolons_loop]. destruct skip as [|k].
    + cbn [drop].
      pose proof (erase_outside_keep is_semicolon r c line s Hs) as Hkeep.
      pose proof (odd_snoc r c s Hs) as Hpar.
      destruct (ch_eqb c dquote) eqn:Hq.
      { rewrite IH by (exact Hpar || reflexivity). exact Hkeep. }
      destruct s.
      { rewrite IH by (exact Hpar || reflexivity). exact Hkeep. }
      destruct (startswith (upper (c :: line)) (str "PRINT")) eqn:E.
      { apply (startswith_upper_no_quote (str "PRINT")) in E;
          [|repeat constructor].
        destruct E as [_ E]. change (length (str "PRINT")) with 5%nat in E.
        assert (E4 : count_quotes (take 4 line) = 0%nat).
        { cbn [take count_quotes] in E. rewrite Hq in E. exact E. }
        rewrite IH; [| |exact E4].
        - pose proof (erase_outside_app is_semicolon (take 5 (c :: line))
                        (drop 5 (c :: line)) false) as Happ.
          rewrite take_drop, E in Happ.
          rewrite Happ, erase_outside_app, Hs, app_assoc. reflexivity.
        - rewrite ClassifierProofs.count_quotes_app, E, Nat.add_0_r. exact Hs. }
      destruct (p && ch_eqb c colon).
      { rewrite IH by (exact Hpar || reflexivity). exact Hkeep. }
      destruct (p && ch_eqb c semicolon) eqn:Hsemi.
      { apply andb_prop in Hsemi. destruct Hsemi as [_ Hsemi].
        destruct (drop_semicolon line r).
        - rewrite IH by (exact Hs || reflexivity).
          cbn [erase_outside]. rewrite Hq.
          change (is_semicolon c) with (ch_eqb c semicolon). rewrite Hsemi.
          reflexivity.
        - rewrite IH by (exact Hpar || reflexivity). exact Hkeep. }
      rewrite IH by (exact Hpar || reflexivity). exact Hkeep.
    + cbn [drop]. cbn [take count_quotes] in Hk.
      apply IH; [exact Hs|]. destruct (ch_eqb c dquote); [discriminate Hk|].
      exact Hk.
Qed.

(** X4.  [remove_print_semicolons] removes nothing but semicolons outside
    the string literals: with these semicolons erased, its result is its
    argument. *)
Theorem remove_print_semicolons_erases_semicolons (x : text) :
  erase_outside is_semicolon (remove_print_semicolons x) false
  = erase_outside is_semicolon x false.
Proof.
  unfold remove_print_semicolons.
  rewrite (semicolons_loop_erase x 0 false false []) by reflexivity.
  reflexivity.
Qed.

Lemma semicolons_loop_no_print (l : text) :
  forall (pre r : text) (s : bool),
    s = Nat.odd (count_quotes pre) ->
    (forall k, keyword_outside "PRINT" (pre ++ l) k = false) ->
    semicolons_loop l 0 s false r = r ++ l.
Proof.
  induction l as [|c l IH]; intros pre r s Hs Hno.
  - cbn. rewrite app_nil_r. reflexivity.
  - cbn [semicolons_loop].
    assert (Hnext : forall k, keyword_outside "PRINT" ((pre ++ [c]) ++ l) k = false).
    { intros k. rewrite <- ClassifierProofs.snoc_app. apply Hno. }
    pose proof (odd_snoc pre c _ (eq_sym Hs)) as Hpar.
    destruct (ch_eqb c dquote) eqn:Hq.
    { rewrite (IH (pre ++ [c]) _ (negb s)) by (congruence || exact Hnext).
      rewrite <- app_assoc. reflexivity. }
    destruct s.
    { rewrite (IH (pre ++ [c]) _ true) by (congruence || exact Hnext).
      rewrite <- app_assoc. reflexivity. }
    pose proof (Hno (length pre)) as Hhere.
    rewrite ClassifierProofs.keyword_outside_at, <- Nat.negb_odd, <- Hs in Hhere.
    cbn [negb andb] in Hhere. rewrite Hhere. cbn [andb].
    rewrite (IH (pre ++ [c]) _ false) by (congruence || exact Hnext).
    rewrite <- app_assoc. reflexivity.
Qed.

(** X5.  A line in which the keyword PRINT stands nowhere outside a string
    literal goes through [remove_print_semicolons] unchanged. *)
Theorem remove_print_semicolons_without_print (x : text) :
  (forall k, keyword_outside "PRINT" x k = false) ->
  remove_print_semicolons x = x.
Proof.
  intros H. unfold remove_print_semicolons.
  apply (semicolons_loop_no_print x [] [] false); [reflexivity | exact H].
Qed.

Lemma remove_print_semicolons_without_print_witness :
  (forall k, keyword_outside "PRINT" (str "A$=B$;C$:GOTO 10") k = false)
  /\ remove_print_semicolons (str "A$=B$;C$:GOTO 10") = str "A$=B$;C$:GOTO 10".
Proof.
  assert (H : forall k, keyword_outside "PRINT" (str "A$=B$;C$:GOTO 10") k = false).
  { intros k. do 17 (destruct k as [|k]; [reflexivity|]). reflexivity. }
  exact (conj H (remove_print_semicolons_without_print _ H)).
Defined.

(** *** Trailing quotes *)

Lemma remove_trailing_quote_unfold (line : text) :
  remove_trailing_quote line
  = if ends_with_closing_quote line then removelast (rstrip line) else line.
Proof.
  unfold remove_trailing_quote, ends_with_closing_quote.
  destruct line as [|c l]; [reflexivity|].
  destruct (endswith_char (rstrip (c :: l)) dquote); [|reflexivity].
  pose proof (ScannerProofs.quote_scan_parity (c :: l) 0 false (-1)) as H.
  destruct (quote_scan (c :: l) 0 false (-1)) as [s lo]. simpl in H. subst s.
  rewrite Nat.negb_odd. simpl. rewrite andb_true_r. reflexivity.
Qed.

Lemma endswith_char_snoc (z : text) (c : ascii) :
  endswith_char z c = true -> z = removelast z ++ [c].
Proof.
  unfold endswith_char. destruct (rev z) as [|a r] eqn:E; [discriminate|].
  intros H. apply Ascii.eqb_eq in H. subst a.
  apply (f_equal (@rev ascii)) in E. rewrite rev_involutive in E.
  cbn [rev] in E. rewrite E, removelast_last. reflexivity.
Qed.

(** X6.  Removing the trailing quote a second time changes nothing: once
    the closing quote is gone, the last string literal of the line is
    open. *)
Theorem remove_trailing_quote_idempotent (line : text) :
  remove_trailing_quote (remove_trailing_quote line)
  = remove_trailing_quote line.
Proof.
  rewrite (remove_trailing_quote_unfold line).
  destruct (ends_with_closing_quote line) eqn:E;
    [|rewrite remove_trailing_quote_unfold, E; reflexivity].
  rewrite remove_trailing_quote_unfold.
  assert (Hodd : Nat.even (count_quotes (removelast (rstrip line))) = false).
  { unfold ends_with_closing_quote in E. apply andb_prop in E.
    destruct E as [Hend Heven].
    destruct (ClassifierProofs.rstrip_split line) as (ws & Hsplit & Hws).
    rewrite Hsplit, ClassifierProofs.count_quotes_app,
      (ClassifierProofs.count_quotes_spaces ws Hws), Nat.add_0_r in Heven.
    rewrite (endswith_char_snoc _ _ Hend), ClassifierProofs.count_quotes_snoc
      in Heven.
    cbn in Heven. rewrite Nat.add_1_r, Nat.even_succ in Heven.
    rewrite <- Nat.negb_odd, Heven. reflexivity. }
  unfold ends_with_closing_quote at 1. rewrite Hodd, andb_false_r.
  reflexivity.
Qed.

End CompactionProofs.

(** ** Invariants of the merger and of the renumbering *)

Module MergeInvariantProofs.
Import PyStr Pack Spec.
Import FixupProofs ClosedLiteralsProofs.

(** *** The targets and the operands of the fixup *)

Lemma targets_loop_only_references (code : text) :
  forall (m : mode) (in_string : bool) (targets : gset N) (n : N),
    n ∈ targets_loop code m in_string targets ->
    n ∈ targets
    \/ (exists run, In (Reference run) (pieces_loop code m in_string)
                    /\ py_int run = n).
Proof.
  induction code as [|c code IH]; intros m s T n H.
  - destruct m; simpl in *; try (left; exact H).
    apply elem_of_union in H. destruct H as [H|H]; [left; exact H|].
    apply elem_of_singleton in H. right. exists run. split; [left; reflexivity|].
    symmetry. exact H.
  - cbn [targets_loop pieces_loop] in *. revert H.
    scan_cases m k r0; cbn [app]; intros H; apply IH in H;
      (destruct H as [H | (r & Hin & Hr)];
       [ first [ left; exact H
               | apply elem_of_union in H; destruct H as [H|H];
                 [ left; exact H
                 | apply elem_of_singleton in H; right; exists r0;
                   split; [left; reflexivity | symmetry; exact H] ] ]
       | right; exists r; split; [|exact Hr];
         first [ exact Hin | right; exact Hin | right; right; exact Hin ] ]).
Qed.

Lemma find_line_targets_from_only (lines : list (N * text)) :
  forall (targets : gset N) (n : N),
    n ∈ find_line_targets_from lines targets ->
    n ∈ targets
    \/ (exists num code run,
          In (num, code) lines
          /\ In (Reference run) (pieces (remove_comment code))
          /\ py_int run = n).
Proof.
  induction lines as [|[num code] lines IH]; intros T n H; [left; exact H|].
  cbn [find_line_targets_from] in H. apply IH in H.
  destruct H as [H | (num' & code' & run & Hin & Hrun & Hn)].
  - apply targets_loop_only_references in H.
    destruct H as [H | (run & Hrun & Hn)]; [left; exact H|].
    right. exists num, code, run. split; [left; reflexivity|]. split; assumption.
  - right. exists num', code', run. split; [right; exact Hin|]. split; assumption.
Qed.

(** X7.  The targets found by [find_line_targets] are exactly the values
    of the operands that [update_line_references] reads after GOTO, GOSUB,
    THEN and ELSE in the lines without their comments: the two scanners
    cut a line at the same places. *)
Theorem find_line_targets_exact (lines : list (N * text)) (n : N) :
  n ∈ find_line_targets lines
  <-> exists num code run,
        In (num, code) lines
        /\ In (Reference run) (pieces (remove_comment code))
        /\ py_int run = n.
Proof.
  unfold find_line_targets. split.
  - intros H. apply find_line_targets_from_only in H.
    destruct H as [H|H]; [|exact H]. apply elem_of_empty in H. contradiction.
  - intros H. apply find_line_targets_from_references. right. exact H.
Qed.

(** *** What the merger keeps *)

Section Merger.

Variable targets : gset N.
Variable max_line_length : Z.

Abbreviation step := (merge_step targets max_line_length).
Abbreviation flush := (flush_current max_line_length).

(** The variables of the loop after one iteration, case by case. *)
Lemma merge_step_cases (st : merge_state) (n : N) (c : text) :
  let st' := step st (n, c) in
  prevent_merge st' = ends_with_control_flow c
  /\ ((merged st' = merged st
       /\ current_start_line st = None
       /\ current_start_line st' = Some n /\ current_code st' = [c])
      \/ (exists start,
            current_start_line st = Some start
            /\ merged st' = merged st ++ flush (current_code st) start
            /\ current_start_line st' = Some n /\ current_code st' = [c])
      \/ (merged st' = merged st
          /\ current_start_line st' = Some (default n (current_start_line st))
          /\ current_code st' = current_code st ++ [c])
      \/ (merged st' = merged st ++ flush (current_code st) n
          /\ current_start_line st = None
          /\ current_start_line st' = Some n /\ current_code st' = [c])).
Proof.
  unfold merge_step. cbv zeta.
  destruct (bool_decide (n ∈ targets) || prevent_merge st).
  - cbn [merged current_start_line current_code prevent_merge].
    split; [reflexivity|].
    destruct (current_start_line st) as [start|].
    + right. left. exists start. repeat split; reflexivity.
    + left. repeat split; reflexivity.
  - match goal with |- context [if ?b then _ else _] => destruct b end;
      cbn [merged current_start_line current_code prevent_merge];
      (split; [reflexivity|]).
    + right. right. left. repeat split; reflexivity.
    + destruct (current_start_line st) as [start|]; cbn [default].
      * right. left. exists start. repeat split; reflexivity.
      * right. right. right. repeat split; reflexivity.
Qed.

(** The segments flushed, grouped as they are joined. *)
Lemma flush_current_groups (cc : list text) (start : N) :
  exists groups,
    Forall (fun g : list text => g <> []) groups
    /\ map snd (flush cc start) = map join_segments groups
    /\ concat groups = cc.
Proof.
  unfold flush_current. destruct cc as [|first others].
  - exists []. repeat split; constructor.
  - match goal with |- context [if ?b then _ else _] => destruct b end.
    + exists [first :: others]. split; [repeat constructor; discriminate|].
      split; [reflexivity|]. cbn [concat]. apply app_nil_r.
    + exists (map (fun seg => [seg]) (first :: others)).
      split; [apply Forall_map, Forall_forall; intros; discriminate|].
      split.
      * cbn [map snd join_segments join_from]. rewrite app_nil_r. f_equal.
        rewrite !map_map. apply map_ext. intros seg. cbn.
        rewrite app_nil_r. reflexivity.
      * clear. induction (first :: others) as [|s l IH]; [reflexivity|].
        cbn [map concat app]. f_equal. exact IH.
Qed.

Abbreviation grouped done st :=
  (exists groups,
      Forall (fun g : list text => g <> []) groups
      /\ map snd (merged st) = map join_segments groups
      /\ concat groups ++ current_code st = map snd done
      /\ (current_start_line st = None -> current_code st = [])).

Lemma merge_step_grouped (done : list (N * text)) (st : merge_state)
    (line : N * text) :
  grouped done st -> grouped (done ++ [line]) (step st line).
Proof.
  intros (groups & Hne & Hm & Hcat & Hnone). destruct line as [n c].
  destruct (merge_step_cases st n c) as [_ Hcases].
  rewrite map_app. cbn [map snd].
  destruct Hcases as [(Hm' & Hs & Hs' & Hc')
                     | [(start & Hs & Hm' & Hs' & Hc')
                       | [(Hm' & Hs' & Hc') | (Hm' & Hs & Hs' & Hc')]]].
  - exists groups. rewrite Hm', Hc', Hs'. rewrite (Hnone Hs), app_nil_r in Hcat.
    split; [exact Hne|]. split; [exact Hm|].
    split; [rewrite Hcat; reflexivity | discriminate].
  - destruct (flush_current_groups (current_code st) start)
      as (g & Hg & Hgm & Hgc).
    exists (groups ++ g). rewrite Hm', Hc', Hs'.
    split; [apply Forall_app; split; assumption|].
    split; [rewrite !map_app, Hm, Hgm; reflexivity|].
    split; [rewrite concat_app, Hgc, Hcat; reflexivity | discriminate].
  - exists groups. rewrite Hm', Hc', Hs'.
    split; [exact Hne|]. split; [exact Hm|].
    split; [rewrite app_assoc, Hcat; reflexivity | discriminate].
  - exists groups. rewrite Hm', Hc', Hs'.
    rewrite (Hnone Hs) in *. rewrite app_nil_r in Hcat.
    split; [exact Hne|].
    split; [cbn [flush_current]; rewrite app_nil_r; exact Hm|].
    split; [rewrite Hcat; reflexivity | discriminate].
Qed.

Lemma merge_fold_grouped (ls : list (N * text)) :
  forall (done : list (N * text)) (st : merge_state),
    grouped done st -> grouped (done ++ ls) (foldl step st ls).
Proof.
  induction ls as [|l ls IH]; intros done st H.
  - rewrite app_nil_r. exact H.
  - cbn [foldl].
    replace (done ++ l :: ls) with ((done ++ [l]) ++ ls)
      by (rewrite <- app_assoc; reflexivity).
    apply IH, merge_step_grouped, H.
Qed.

Lemma merge_lines_groups (lines : list (N * text)) :
  exists groups,
    Forall (fun g : list text => g <> []) groups
    /\ concat groups = map snd lines
    /\ map snd (merge_lines lines targets max_line_length)
       = map join_segments groups.
Proof.
  destruct (merge_fold_grouped lines [] merge_init)
    as (groups & Hne & Hm & Hcat & Hnone).
  { exists []. repeat split; constructor. }
  cbn [app] in Hcat. unfold merge_lines, merge_finish.
  set (st := foldl step merge_init lines) in *.
  destruct (current_start_line st) as [start|].
  - destruct (flush_current_groups (current_code st) start)
      as (g & Hg & Hgm & Hgc).
    exists (groups ++ g).
    split; [apply Forall_app; split; assumption|].
    split; [rewrite concat_app, Hgc; exact Hcat|].
    rewrite !map_app, Hm, Hgm. reflexivity.
  - exists groups. rewrite (Hnone eq_refl), app_nil_r in Hcat.
    repeat split; assumption.
Qed.

Lemma concat_nonempty_length (groups : list (list text)) :
  Forall (fun g : list text => g <> []) groups ->
  (length groups <= length (concat groups))%nat.
Proof.
  induction 1 as [|g groups Hg _ IH]; [reflexivity|].
  cbn [concat length]. rewrite length_app.
  destruct g as [|s g]; [congruence|]. cbn [length]. lia.
Qed.

(** X8.  The merger loses no code and keeps the order: its lines are the
    codes of the lines of the program, cut into consecutive groups that
    are never empty and joined group by group; so the merger never returns
    more lines than it is given. *)
Theorem merge_lines_keeps_code (lines : list (N * text)) :
  (exists groups,
      Forall (fun g : list text => g <> []) groups
      /\ concat groups = map snd lines
      /\ map snd (merge_lines lines targets max_line_length)
         = map join_segments groups)
  /\ (length (merge_lines lines targets max_line_length) <= length lines)%nat.
Proof.
  destruct (merge_lines_groups lines) as (groups & Hne & Hcat & Hm).
  split; [exists groups; repeat split; assumption|].
  rewrite <- (length_map snd (merge_lines _ _ _)), Hm, length_map.
  rewrite <- (length_map snd lines), <- Hcat.
  apply concat_nonempty_length. exact Hne.
Qed.

(** *** The length budget *)

Section Lines.

Variable lines : list (N * text).

Abbreviation from_lines segs :=
  (Forall (fun seg : text => exists n, In (n, seg) lines) segs).

Lemma merge_step_Forall (P : mline -> Prop) (st : merge_state)
    (line : N * text) :
  (forall cc start, from_lines cc -> Forall P (flush cc start)) ->
  In line lines ->
  Forall P (merged st) /\ from_lines (current_code st) ->
  Forall P (merged (step st line)) /\ from_lines (current_code (step st line)).
Proof.
  intros Hflush Hin [Hm Hcc]. destruct line as [n c].
  assert (Hone : from_lines [c]).
  { constructor; [exists n; exact Hin | constructor]. }
  destruct (merge_step_cases st n c) as [_ Hcases].
  destruct Hcases as [(Hm' & _ & _ & Hc')
                     | [(start & _ & Hm' & _ & Hc')
                       | [(Hm' & _ & Hc') | (Hm' & _ & _ & Hc')]]];
    rewrite Hm', Hc'.
  - split; assumption.
  - split; [|exact Hone]. apply Forall_app. split; [exact Hm|].
    apply Hflush. exact Hcc.
  - split; [exact Hm|]. apply Forall_app. split; assumption.
  - split; [|exact Hone]. apply Forall_app. split; [exact Hm|].
    apply Hflush. exact Hcc.
Qed.

Lemma merge_fold_Forall (P : mline -> Prop) (ls : list (N * text)) :
  (forall cc start, from_lines cc -> Forall P (flush cc start)) ->
  forall st : merge_state,
    (forall l, In l ls -> In l lines) ->
    Forall P (merged st) /\ from_lines (current_code st) ->
    Forall P (merged (foldl step st ls))
    /\ from_lines (current_code (foldl step st ls)).
Proof.
  intros Hflush. induction ls as [|l ls IH]; intros st Hls Hst; [exact Hst|].
  cbn [foldl]. apply IH.
  - intros l' Hl'. apply Hls. right. exact Hl'.
  - apply merge_step_Forall; [exact Hflush | apply Hls; left; reflexivity | exact Hst].
Qed.

Lemma merge_lines_Forall (P : mline -> Prop) :
  (forall cc start, from_lines cc -> Forall P (flush cc start)) ->
  Forall P (merge_lines lines targets max_line_length).
Proof.
  intros Hflush. unfold merge_lines, merge_finish.
  destruct (merge_fold_Forall P lines Hflush merge_init (fun l H => H))
    as [Hm Hcc]; [split; constructor|].
  destruct (current_start_line _); [|exact Hm].
  apply Forall_app. split; [exact Hm | apply Hflush; exact Hcc].
Qed.

Lemma flush_current_within_budget (cc : list text) (start : N) :
  from_lines cc ->
  Forall (within_budget lines max_line_length) (flush cc start).
Proof.
  intros Hcc. unfold flush_current. destruct cc as [|first others]; [constructor|].
  match goal with |- context [if ?b then _ else _] => destruct b eqn:E end.
  - constructor; [|constructor]. right. exists start.
    split; [reflexivity|]. apply Z.leb_le in E. exact E.
  - inversion Hcc as [|? ? Hfirst Hothers]; subst.
    constructor; [left; exact Hfirst|].
    apply Forall_map. eapply Forall_impl; [exact Hothers|].
    intros seg Hseg. left. exact Hseg.
Qed.

(** X9.  Every line of the merger is the code of a single line of the
    program, or it is anchored and fits the length budget: its text, the
    decimal form of its old number and the blank between them take at
    most [max_line_length] characters. *)
Theorem merge_lines_within_budget :
  Forall (within_budget lines max_line_length)
         (merge_lines lines targets max_line_length).
Proof. apply merge_lines_Forall. apply flush_current_within_budget. Qed.

End Lines.

(** *** The anchors *)

Lemma anchors_continuations (segs : list text) :
  anchors (map (fun seg => (None, seg)) segs) = [].
Proof. induction segs as [|s segs IH]; [reflexivity | exact IH]. Qed.

Lemma flush_current_anchors (cc : list text) (start : N) :
  anchors (flush cc start) `sublist_of` [start].
Proof.
  unfold flush_current. destruct cc as [|first others]; [apply sublist_nil_l|].
  match goal with |- context [if ?b then _ else _] => destruct b end.
  - reflexivity.
  - change (start :: anchors (map (fun seg => (None, seg)) others)
              `sublist_of` [start]).
    rewrite anchors_continuations. reflexivity.
Qed.

Abbreviation in_order done st :=
  (anchors (merged st) ++ option_list (current_start_line st)
     `sublist_of` map fst done
   /\ (current_start_line st = None -> current_code st = [])).

Lemma merge_step_in_order (done : list (N * text)) (st : merge_state)
    (line : N * text) :
  in_order done st -> in_order (done ++ [line]) (step st line).
Proof.
  intros [Hsub Hnone]. destruct line as [n c].
  destruct (merge_step_cases st n c) as [_ Hcases].
  rewrite map_app. cbn [map fst].
  destruct Hcases as [(Hm' & Hs & Hs' & Hc')
                     | [(start & Hs & Hm' & Hs' & Hc')
                       | [(Hm' & Hs' & Hc') | (Hm' & Hs & Hs' & Hc')]]];
    rewrite Hm', Hs'; (split; [|discriminate]); cbn [option_list].
  - rewrite Hs in Hsub. cbn [option_list] in Hsub. rewrite app_nil_r in Hsub.
    apply sublist_app; [exact Hsub | reflexivity].
  - rewrite Hs in Hsub. cbn [option_list] in Hsub.
    unfold anchors. rewrite omap_app. fold (anchors (merged st)).
    fold (anchors (flush (current_code st) start)).
    apply sublist_app; [|reflexivity].
    etransitivity; [|exact Hsub].
    apply sublist_app; [reflexivity | apply flush_current_anchors].
  - destruct (current_start_line st) as [start|]; cbn [default option_list] in *.
    + apply sublist_inserts_r. exact Hsub.
    + rewrite app_nil_r in Hsub. apply sublist_app; [exact Hsub | reflexivity].
  - rewrite Hs in Hsub. cbn [option_list] in Hsub. rewrite app_nil_r in Hsub.
    rewrite (Hnone Hs). cbn [flush_current]. rewrite app_nil_r.
    apply sublist_app; [exact Hsub | reflexivity].
Qed.

Lemma merge_fold_in_order (ls : list (N * text)) :
  forall (done : list (N * text)) (st : merge_state),
    in_order done st -> in_order (done ++ ls) (foldl step st ls).
Proof.
  induction ls as [|l ls IH]; intros done st H.
  - rewrite app_nil_r. exact H.
  - cbn [foldl].
    replace (done ++ l :: ls) with ((done ++ [l]) ++ ls)
      by (rewrite <- app_assoc; reflexivity).
    apply IH, merge_step_in_order, H.
Qed.

Lemma merge_lines_anchors (lines : list (N * text)) :
  anchors (merge_lines lines targets max_line_length) `sublist_of` map fst lines.
Proof.
  destruct (merge_fold_in_order lines [] merge_init) as [Hsub _].
  { split; [apply sublist_nil_l | reflexivity]. }
  cbn [app] in Hsub. unfold merge_lines, merge_finish.
  set (st := foldl step merge_init lines) in *.
  destruct (current_start_line st) as [start|]; cbn [option_list] in Hsub.
  - unfold anchors. rewrite omap_app. fold (anchors (merged st)).
    fold (anchors (flush (current_code st) start)).
    etransitivity; [|exact Hsub].
    apply sublist_app; [reflexivity | apply flush_current_anchors].
  - rewrite app_nil_r in Hsub. exact Hsub.
Qed.

(** X10.  The anchors of the merged lines are line numbers of the
    program, in the order of the program and each taken at most as often
    as it occurs there: no number is invented and none is moved. *)
Theorem merge_lines_anchors_in_order (lines : list (N * text)) :
  anchors (merge_lines lines targets max_line_length) `sublist_of` map fst lines.
Proof. apply merge_lines_anchors. Qed.

End Merger.

(** *** The new line numbers *)

(** With anchors that are pairwise distinct and new to the map, the map
    gives every anchor the rank of its line. *)
Lemma build_line_map_rank (merged : list mline) :
  forall (k : N) (line_map : gmap N N),
    NoDup (anchors merged) ->
    (forall a, a ∈ anchors merged -> line_map !! a = None) ->
    forall (i : nat) (a : N) (code : text),
      merged !! i = Some (Some a, code) ->
      build_line_map merged k line_map !! a = Some (k + N.of_nat i)%N.
Proof.
  induction merged as [|[old c0] merged IH]; intros k line_map Hnd Hnew i a code Hi;
    [discriminate Hi|].
  cbn [build_line_map]. destruct old as [a0|].
  - change (anchors ((Some a0, c0) :: merged)) with (a0 :: anchors merged) in *.
    apply NoDup_cons in Hnd. destruct Hnd as [Hnotin Hnd].
    rewrite (Hnew a0) by (left).
    destruct i as [|i].
    + injection Hi as <- <-. rewrite N.add_0_r.
      apply PipelineProofs.build_line_map_keeps. apply lookup_insert_eq.
    + cbn [lookup list_lookup] in Hi.
      rewrite (IH (k + 1)%N _ Hnd) with (i := i) (code := code); [f_equal; lia| |exact Hi].
      intros a' Ha'. rewrite lookup_insert_ne; [apply Hnew; right; exact Ha'|].
      intros ->. contradiction.
  - change (anchors ((None, c0) :: merged)) with (anchors merged) in *.
    destruct i as [|i]; [discriminate Hi|]. cbn [lookup list_lookup] in Hi.
    rewrite (IH (k + 1)%N _ Hnd Hnew i a code Hi). f_equal. lia.
Qed.

Lemma renumber_ranks (line_map : gmap N N) (merged : list mline) :
  forall k : N,
    (forall (i : nat) (a : N) (code : text),
        merged !! i = Some (Some a, code) ->
        line_map !! a = Some (k + N.of_nat i)%N) ->
    map fst (renumber line_map merged k)
    = map (fun i => (k + N.of_nat i)%N) (seq 0 (length merged)).
Proof.
  induction merged as [|[old c0] merged IH]; intros k Hrank; [reflexivity|].
  cbn [renumber length seq map fst].
  assert (Hnew : match old with
                 | Some old => default 0%N (line_map !! old)
                 | None => k
                 end = k).
  { destruct old as [a0|]; [|reflexivity].
    rewrite (Hrank 0%nat a0 c0 eq_refl), N.add_0_r. reflexivity. }
  rewrite Hnew, N.add_0_r. f_equal.
  rewrite IH.
  - rewrite <- seq_shift, map_map. apply map_ext. intros i. lia.
  - intros i a code Hi. rewrite (Hrank (S i) a code Hi). f_equal. lia.
Qed.

Lemma output_numbers (lines : list (N * text)) :
  NoDup (map fst lines) ->
  map fst (pp_output (pack_program lines))
  = map N.of_nat (seq 1 (length (pp_output (pack_program lines)))).
Proof.
  intros Hnd. unfold pack_program. cbn [pp_output].
  set (packed := map (fun '(num, code) => (num, pack_line code)) lines).
  set (merged := merge_lines packed (find_line_targets packed) 255).
  assert (Hfst : map fst packed = map fst lines).
  { subst packed. rewrite map_map. apply map_ext. intros [n c]. reflexivity. }
  assert (Hnda : NoDup (anchors merged)).
  { apply (sublist_NoDup _ (map fst packed));
      [rewrite Hfst; exact Hnd | apply merge_lines_anchors]. }
  rewrite length_map.
  match goal with
  | |- map fst (map _ ?final_lines) = _ =>
      transitivity (map fst final_lines);
        [rewrite map_map; apply map_ext; intros [n c]; reflexivity|]
  end.
  rewrite renumber_ranks.
  - assert (Hlen : forall lm ms k, length (renumber lm ms k) = length ms).
    { intros lm ms. induction ms as [|[o c] ms IH]; intros k; [reflexivity|].
      cbn [renumber length]. rewrite IH. reflexivity. }
    rewrite Hlen, <- seq_shift, map_map. apply map_ext. intros i. lia.
  - intros i a code Hi.
    apply (build_line_map_rank merged 1%N ∅ Hnda) with (code := code);
      [intros; apply lookup_empty | exact Hi].
Qed.

(** X11.  When the line numbers of the program are pairwise distinct, the
    lines written are numbered 1, 2, 3 and so on, in order: the range
    that [pack_basic_file] prints, from 1 to the number of lines, is the
    range of the output. *)
Theorem output_numbered_from_one (lines : list (N * text)) :
  NoDup (map fst lines) ->
  map fst (pp_output (pack_program lines))
  = map N.of_nat (seq 1 (length (pp_output (pack_program lines)))).
Proof. apply output_numbers. Qed.

Lemma output_numbered_from_one_witness :
  let program :=
    [(10%N, str "A=1"); (20%N, str "GOTO 40"); (30%N, str "B=2");
     (40%N, str "END")] in
  NoDup (map fst program)
  /\ map fst (pp_output (pack_program program))
     = map N.of_nat (seq 1 (length (pp_output (pack_program program)))).
Proof.
  intros program.
  assert (H : NoDup (map fst program)).
  { apply (bool_decide_unpack _). vm_compute. exact I. }
  exact (conj H (output_numbered_from_one program H)).
Defined.

Lemma renumber_length (line_map : gmap N N) (merged : list mline) :
  forall k : N, length (renumber line_map merged k) = length merged.
Proof.
  induction merged as [|[o c] merged IH]; intros k; [reflexivity|].
  cbn [renumber length]. rewrite IH. reflexivity.
Qed.

(** X12.  Packing never adds a line: the output has at most as many lines
    as the program. *)
Theorem output_no_longer (lines : list (N * text)) :
  (length (pp_output (pack_program lines)) <= length lines)%nat.
Proof.
  unfold pack_program. cbn [pp_output].
  rewrite length_map, renumber_length.
  match goal with
  | |- (length (merge_lines ?packed ?targets ?max) <= _)%nat =>
      destruct (merge_lines_groups targets max packed)
        as (groups & Hne & Hcat & Hm);
      rewrite <- (length_map snd (merge_lines packed targets max)), Hm,
        length_map;
      transitivity (length (concat groups));
        [apply concat_nonempty_length; exact Hne|];
      rewrite Hcat, !length_map
  end.
  reflexivity.
Qed.

(** *** Targets, closed literals and the fixup *)

(** X13.  A line of the program whose number is a target is never merged
    into the line before it: it is the anchor of a merged line that starts
    with its compacted code, [line_map] has an entry for its number, and
    this entry is the number of that line in the output. *)
Theorem target_line_keeps_its_anchor (pre post : list (N * text)) (n : N)
    (c : text) :
  let packed := pack_program (pre ++ (n, c) :: post) in
  n ∈ pp_targets packed ->
  exists before tail rest v text,
    pp_merged packed = before ++ (Some n, pack_line c ++ tail) :: rest
    /\ pp_line_map packed !! n = Some v
    /\ pp_output packed !! length before = Some (v, text).
Proof. apply PipelineProofs.targets_stay_anchors. Qed.

Lemma target_line_keeps_its_anchor_witness :
  let packed :=
    pack_program ([(10%N, str "GOTO 30"); (20%N, str "A=1")]
                  ++ (30%N, str "END") :: []) in
  30%N ∈ pp_targets packed
  /\ exists before tail rest v text,
       pp_merged packed = before ++ (Some 30%N, pack_line (str "END") ++ tail) :: rest
       /\ pp_line_map packed !! 30%N = Some v
       /\ pp_output packed !! length before = Some (v, text).
Proof.
  intros packed.
  assert (H : 30%N ∈ pp_targets packed).
  { apply (bool_decide_unpack _). vm_compute. exact I. }
  exact (conj H (target_line_keeps_its_anchor
                   [(10%N, str "GOTO 30"); (20%N, str "A=1")] []
                   30%N (str "END") H)).
Defined.

(** X14.  In a program whose compacted lines have all their string
    literals closed, every operand that the fixup reads in a merged line
    and whose value is the number of a line of the program is rewritten to
    the number that this line has in the output. *)
Theorem closed_literals_references_rewritten (lines : list (N * text)) :
  (forall n c, In (n, c) lines -> closed (pack_line c)) ->
  forall (a : option N) (t run c : text),
    In (a, t) (pp_merged (pack_program lines)) ->
    In (Reference run) (pieces t) ->
    In (py_int run, c) lines ->
    exists before tail rest v out,
      pp_merged (pack_program lines)
      = before ++ (Some (py_int run), pack_line c ++ tail) :: rest
      /\ pp_output (pack_program lines) !! length before = Some (v, out)
      /\ rewrite_piece (pp_line_map (pack_program lines)) (Reference run)
         = py_str v.
Proof. apply references_rewritten_on_closed_literals. Qed.

Lemma closed_literals_references_rewritten_witness :
  let program :=
    [(10%N, str "PRINT " ++ [dquote] ++ str "HI" ++ [dquote]);
     (20%N, str "GOTO 30");
     (30%N, str "END")] in
  let merged_text :=
    str "PRINT" ++ [dquote] ++ str "HI" ++ [dquote] ++ str ":GOTO30" in
  exists before tail rest v out,
    pp_merged (pack_program program)
    = before ++ (Some (py_int (str "30")), pack_line (str "END") ++ tail) :: rest
    /\ pp_output (pack_program program) !! length before = Some (v, out)
    /\ rewrite_piece (pp_line_map (pack_program program)) (Reference (str "30"))
       = py_str v.
Proof.
  intros program merged_text.
  apply (closed_literals_references_rewritten program)
    with (a := Some 10%N) (t := merged_text).
  - intros n c [H|[H|[H|[]]]]; injection H as <- <-; vm_compute; reflexivity.
  - vm_compute. left. reflexivity.
  - vm_compute. repeat (first [left; reflexivity | right]).
  - vm_compute. right. right. left. reflexivity.
Defined.

(** X15.  On a line whose string literals are all closed,
    [ends_with_control_flow] returns true exactly when the last statement
    of the line is RETURN, END or STOP, or is GOTO followed by a digit,
    or IF and a later THEN stand in the line outside the strings. *)
Theorem classifier_exact_when_literals_closed (code : text) :
  closed code ->
  ends_with_control_flow code = claimed_control_flow code.
Proof. apply ClassifierProofs.classifier_exact_on_closed_literals. Qed.

Lemma classifier_exact_when_literals_closed_witness :
  let code := str "IF A$=" ++ [dquote] ++ str "THEN" ++ [dquote] ++ str " GOSUB 9" in
  closed code /\ ends_with_control_flow code = claimed_control_flow code.
Proof.
  intros code.
  assert (H : closed code) by reflexivity.
  exact (conj H (classifier_exact_when_literals_closed code H)).
Defined.

(** X16.  On every line, whatever its string literals, the classifier
    flags at least the lines of the description above: a string literal
    left open can only make it flag more lines, never fewer, so that it
    errs on the side of not merging. *)
Theorem classifier_never_misses (code : text) :
  claimed_control_flow code = true -> ends_with_control_flow code = true.
Proof. apply ClassifierProofs.classifier_sound. Qed.

Lemma classifier_never_misses_witness :
  claimed_control_flow (str "A=1:GOTO 10") = true
  /\ ends_with_control_flow (str "A=1:GOTO 10") = true.
Proof.
  assert (H : claimed_control_flow (str "A=1:GOTO 10") = true) by reflexivity.
  exact (conj H (classifier_never_misses _ H)).
Defined.

End MergeInvariantProofs.

(** ** The file format of the packer *)

Module ParserProofs.
Import PyStr Pack Spec.
Import FixupProofs ClosedLiteralsProofs.

(** The parser on lines of the kinds it tells apart. *)
Example parse_basic_line_examples :
  map parse_basic_line
      [str "10 PRINT 1" ++ [newline];
       str "20   A=1  " ++ [carriage_return; newline];
       str "30 'note"; str "   "; str "NEXT"; str "40"; str "50 "]
  = [Some (10%N, str "PRINT 1"); Some (20%N, str "A=1  ");
     None; None; None; None; None].
Proof. vm_compute. reflexivity. Qed.

(** *** White space at the two ends *)

Lemma strip_head (c : ascii) (r : text) :
  isspace c = false -> exists r', strip (c :: r) = c :: r'.
Proof.
  intros Hc. unfold strip, lstrip.
  destruct (ClassifierProofs.rstrip_split (c :: r)) as (ws & Hsplit & Hws).
  destruct (rstrip (c :: r)) as [|c' r'] eqn:E.
  - cbn [app] in Hsplit. subst ws. inversion Hws as [|? ? Hc' _]; subst.
    congruence.
  - cbn [app] in Hsplit. injection Hsplit as <- _.
    exists r'. cbn [drop_while]. rewrite Hc. reflexivity.
Qed.

Lemma strip_nonempty_head (x : text) (c : ascii) (r : text) :
  strip x = c :: r -> isspace c = false.
Proof.
  unfold strip, lstrip. intros H.
  pose proof (drop_while_head isspace (rstrip x)) as Hh.
  rewrite H in Hh. exact Hh.
Qed.

Lemma take_while_head (p : ascii -> bool) (c : ascii) (r : text) :
  p c = true -> exists r', take_while p (c :: r) = c :: r'.
Proof. intros H. cbn [take_while]. rewrite H. eexists. reflexivity. Qed.

(** *** What [parse_basic_file] lets through *)




(** *** Reading back what the packer writes *)

Lemma string_of_uint_digits (d : Decimal.uint) :
  Forall (fun c => isdigit c = true) (str (NilEmpty.string_of_uint d)).
Proof.
  induction d; cbn [NilEmpty.string_of_uint str list_ascii_of_string];
    [constructor | constructor; [reflexivity | exact IHd]..].
Qed.

Lemma py_str_digits (n : N) : digit_run (py_str n).
Proof.
  unfold py_str. pose proof (FixupProofs.to_uint_nonnil n) as Hn.
  pose proof (string_of_uint_digits (N.to_uint n)) as Hd.
  destruct (N.to_uint n) eqn:E; [congruence|..];
    (split; [discriminate | exact Hd]).
Qed.

Lemma take_while_app_stop (p : ascii -> bool) (a : text) (c : ascii) (r : text) :
  Forall (fun x => p x = true) a -> p c = false ->
  take_while p (a ++ c :: r) = a.
Proof.
  intros Ha Hc. induction Ha as [|x a Hx _ IH].
  - cbn. rewrite Hc. reflexivity.
  - cbn [app take_while]. rewrite Hx, IH. reflexivity.
Qed.

Lemma take_while_all (p : ascii -> bool) (a : text) :
  Forall (fun x => p x = true) a -> take_while p a = a.
Proof.
  induction 1 as [|x a Hx _ IH]; [reflexivity|].
  cbn [take_while]. rewrite Hx, IH. reflexivity.
Qed.

Lemma rstrip_newlines_written (x : text) (z : ascii) :
  ch_eqb z newline || ch_eqb z carriage_return = false ->
  rstrip_newlines ((x ++ [z]) ++ [newline]) = x ++ [z].
Proof.
  intros Hz. unfold rstrip_newlines.
  rewrite !rev_unit. cbn [drop_while].
  change (ch_eqb newline newline || ch_eqb newline carriage_return) with true.
  cbn match. rewrite Hz. cbn [rev]. rewrite rev_involutive. reflexivity.
Qed.

Lemma digit_not_space (d : ascii) : isdigit d = true -> isspace d = false.
Proof.
  destruct d as [[|] [|] [|] [|] [|] [|] [|] [|]]; vm_compute; congruence.
Qed.

Lemma match_numbered_written (n : N) (c : ascii) (r : text) :
  isspace c = false ->
  Forall (fun x => ch_eqb x newline || ch_eqb x carriage_return = false) (c :: r) ->
  match_numbered (py_str n ++ blank :: c :: r) = Some (py_str n, c :: r).
Proof.
  intros Hc Hnl. destruct (py_str_digits n) as [Hne Hd].
  unfold match_numbered.
  rewrite (take_while_app_stop isdigit (py_str n) blank (c :: r) Hd eq_refl).
  rewrite (ClassifierProofs.drop_while_app_all isdigit (py_str n)) by exact Hd.
  destruct (py_str n) as [|d ds]; [congruence|].
  cbn [drop_while]. change (isdigit blank) with false. cbn match.
  change (isspace blank) with true. cbn match.
  cbn [drop_while]. rewrite Hc.
  rewrite take_while_all; [reflexivity|].
  eapply Forall_impl; [exact Hnl|]. intros y Hy. cbn beta in Hy.
  apply orb_false_elim in Hy. destruct Hy as [Hy _]. rewrite Hy. reflexivity.
Qed.

Lemma written_line_parses (n : N) (code : text) :
  readable (n, code) -> parse_basic_line (output_line (n, code)) = Some (n, code).
Proof.
  intros [(c & r & Hcode & Hc & Hq) Hnl]. cbn [snd] in *. subst code.
  unfold output_line. cbn [fst snd].
  assert (Hlast : exists x z,
             py_str n ++ blank :: c :: r = x ++ [z]
             /\ ch_eqb z newline || ch_eqb z carriage_return = false).
  { destruct (exists_last (l := c :: r)) as (l' & z & Hl'); [discriminate|].
    exists (py_str n ++ blank :: l'), z. split.
    - rewrite Hl', <- app_assoc. reflexivity.
    - rewrite Forall_forall in Hnl. apply Hnl. rewrite Hl'.
      apply elem_of_app. right. left. }
  destruct Hlast as (x & z & Hx & Hz).
  unfold parse_basic_line. cbv zeta.
  replace (py_str n ++ blank :: (c :: r) ++ [newline])
    with ((x ++ [z]) ++ [newline])
    by (rewrite <- Hx, <- app_assoc; reflexivity).
  rewrite (rstrip_newlines_written x z Hz), <- Hx.
  assert (Hstrip : exists c0 r0, strip (py_str n ++ blank :: c :: r) = c0 :: r0).
  { destruct (py_str_digits n) as [Hne Hd].
    destruct (py_str n) as [|d ds]; [congruence|].
    inversion Hd as [|? ? Hd0 _]; subst.
    destruct (strip_head d (ds ++ blank :: c :: r) (digit_not_space d Hd0))
      as [r' Hr'].
    exists d, r'. exact Hr'. }
  destruct Hstrip as (c0 & r0 & ->).
  rewrite (match_numbered_written n c r Hc Hnl), FixupProofs.py_int_str.
  destruct (strip_head c r Hc) as [r'' Hr'']. rewrite Hr'', Hq. reflexivity.
Qed.

(** X18.  The format of the output file is the format of the input file:
    lines written as [pack_basic_file] writes them are read back by
    [parse_basic_file] as the same numbers and codes, when each code
    starts with a character that is neither white space nor an apostrophe
    and holds no line end. *)
Theorem written_lines_parse (lines : list (N * text)) :
  Forall readable lines ->
  parse_basic_file (map output_line lines) = lines.
Proof.
  induction 1 as [|[n code] lines Hl _ IH]; [reflexivity|].
  cbn [map parse_basic_file]. rewrite (written_line_parses n code Hl), IH.
  reflexivity.
Qed.

Lemma written_lines_parse_witness :
  let lines := [(1%N, str "PRINT 1"); (2%N, str "GOTO1")] in
  Forall readable lines
  /\ parse_basic_file (map output_line lines) = lines.
Proof.
  intros lines.
  assert (H : Forall readable lines).
  { repeat constructor; eexists _, _; repeat split; reflexivity. }
  exact (conj H (written_lines_parse lines H)).
Defined.

End ParserProofs.

(** ** Invariants of the tokenizer *)

Module TokenizerInvariantProofs.
Import PyStr Tokenize Spec.
Import TokenizerProofs.

(** *** The longest keyword *)

Lemma match_from_longest (k : nat) (rest : list Z) :
  match match_from k rest with
  | Some (_, _, L) =>
      forall L', (L < L' <= k)%nat -> tokens_get (upper (take L' rest)) = None
  | None =>
      forall L', (1 <= L' <= k)%nat -> tokens_get (upper (take L' rest)) = None
  end.
Proof.
  induction k as [|k IH]; [intros L' HL'; lia|].
  cbn [match_from]. cbv zeta.
  destruct (tokens_get (upper (take (S k) rest))) as [t|] eqn:E.
  - intros L' HL'. lia.
  - destruct (match_from k rest) as [[[t u] L]|] eqn:Ek.
    + intros L' HL'. destruct (Nat.eq_dec L' (S k)) as [->|Hne]; [exact E|].
      apply IH. lia.
    + intros L' HL'. destruct (Nat.eq_dec L' (S k)) as [->|Hne]; [exact E|].
      apply IH. lia.
Qed.

(** X20.  At each place the tokenizer takes the longest keyword: when a
    keyword of [L] characters is matched, no longer run of up to ten
    characters from the same place is in the table, and when none is
    matched, no run of up to ten characters is. *)
Theorem match_keyword_longest (rest : list Z) :
  match match_keyword rest with
  | Some (token, _, L) =>
      tokens_get (upper (take L rest)) = Some token
      /\ forall L', (L < L' <= Nat.min 10 (length rest))%nat ->
                    tokens_get (upper (take L' rest)) = None
  | None =>
      forall L', (1 <= L' <= Nat.min 10 (length rest))%nat ->
                 tokens_get (upper (take L' rest)) = None
  end.
Proof.
  unfold match_keyword.
  pose proof (match_from_longest (Nat.min 10 (length rest)) rest) as H.
  destruct (match_from (Nat.min 10 (length rest)) rest) as [[[t u] L]|] eqn:E;
    [|exact H].
  split; [|exact H].
  apply match_from_spec in E. destruct E as (_ & -> & Ht). exact Ht.
Qed.

(** *** The comment at the end of a line *)

Lemma apostrophe_not_in_keyword (a : Z) (tl : list Z) :
  In 39 tl -> tokens_get (upper (a :: tl)) = None.
Proof.
  intros Hin. destruct (tokens_get (upper (a :: tl))) as [t|] eqn:E;
    [|reflexivity].
  destruct (matched_tail_quotes a tl _ t eq_refl E 39 Hin) as [_ Hne].
  congruence.
Qed.

Lemma match_from_before_apostrophe (x post : list Z) :
  x <> [] ->
  forall k : nat,
    match_from k (x ++ 39 :: post) = match_from (Nat.min k (length x)) x.
Proof.
  intros Hx. induction k as [|k IH]; [reflexivity|].
  destruct (Nat.le_gt_cases (S k) (length x)) as [Hle|Hgt].
  - rewrite (Nat.min_l (S k)) by lia. cbn [match_from]. cbv zeta.
    rewrite take_app_le by lia. rewrite IH, Nat.min_l by lia. reflexivity.
  - rewrite (Nat.min_r (S k)) by lia. cbn [match_from]. cbv zeta.
    assert (Hnone : tokens_get (upper (take (S k) (x ++ 39 :: post))) = None).
    { rewrite take_app_ge by lia.
      destruct x as [|a tl]; [congruence|]. cbn [app].
      apply apostrophe_not_in_keyword. apply in_or_app. right.
      destruct (S k - length (a :: tl))%nat as [|j] eqn:Ej; [lia|].
      left. reflexivity. }
    rewrite Hnone, IH, Nat.min_r by lia. reflexivity.
Qed.

Lemma match_keyword_before_apostrophe (a : Z) (pre post : list Z) :
  match_keyword (a :: pre ++ 39 :: post) = match_keyword (a :: pre).
Proof.
  unfold match_keyword.
  rewrite (match_from_before_apostrophe (a :: pre) post) by discriminate.
  f_equal. cbn [length]. rewrite length_app. cbn [length]. lia.
Qed.

Lemma tok_loop_comment (pre : list Z) :
  forall (skip : nat) (prev : option Z) (in_string : bool) (buf post : list Z),
    (skip <= length pre)%nat ->
    (forall x, In x (take skip pre) -> x <> 34 /\ x <> 39) ->
    comment_starts pre prev in_string = false ->
    string_open pre prev in_string = false ->
    tok_loop (pre ++ 39 :: post) skip prev in_string buf
    = tok_loop pre skip prev in_string buf
      ≫= fun bs => Some (bs ++ comment_marker).
Proof.
  induction pre as [|a pre IH]; intros skip prev s buf post Hs Hq Hcs Hso.
  - cbn [length] in Hs. assert (skip = 0%nat) as -> by lia.
    cbn [string_open] in Hso. subst s. cbn [app]. rewrite tok_loop_cons.
    cbn. rewrite <- !app_assoc. reflexivity.
  - cbn [app]. destruct skip as [|k].
    + rewrite !tok_loop_cons. cbn [comment_starts string_open] in Hcs, Hso.
      rewrite match_keyword_before_apostrophe.
      destruct (bool_decide (a = 34) && negb (bool_decide (prev = Some 92))).
      { destruct (append_cases buf 34) as [-> | ->]; [reflexivity|]. cbn.
        apply IH; [lia | intros x Hx; cbn in Hx; contradiction | assumption..]. }
      destruct (bool_decide (a = 39) && negb s); [discriminate Hcs|].
      destruct s.
      { destruct (append_cases buf a) as [-> | ->]; [reflexivity|]. cbn.
        apply IH; [lia | intros x Hx; cbn in Hx; contradiction | assumption..]. }
      destruct (match_keyword (a :: pre)) as [[[t u] L]|] eqn:E.
      * apply match_keyword_spec in E. destruct E as (HL & Hu & Ht).
        destruct (append_cases buf t) as [-> | ->]; [reflexivity|]. cbn.
        destruct L as [|L]; [lia|]. cbn [length] in HL.
        replace (S L - 1)%nat with L by lia.
        apply IH; [lia | | assumption..].
        cbn [take] in Hu. apply (matched_tail_quotes a (take L pre) u t Hu Ht).
      * destruct (append_cases buf a) as [-> | ->]; [reflexivity|]. cbn.
        apply IH; [lia | intros x Hx; cbn in Hx; contradiction | assumption..].
    + rewrite !tok_loop_skip.
      assert (Ha : a <> 34 /\ a <> 39) by (apply Hq; left; reflexivity).
      cbn [comment_starts string_open] in Hcs, Hso.
      rewrite (bool_decide_eq_false_2 (a = 34)) in Hcs, Hso by tauto.
      rewrite (bool_decide_eq_false_2 (a = 39)) in Hcs by tauto.
      cbn [andb] in Hcs, Hso.
      apply IH; [cbn [length] in Hs; lia | | assumption..].
      intros x Hx. apply Hq. right. exact Hx.
Qed.

(** X21.  The text after the first apostrophe outside a string literal is
    never read: the payload of the line is the payload of the text before
    the apostrophe, followed by the three bytes 3A 8E FF. *)
Theorem comment_text_dropped (pre post : list Z) :
  comment_starts pre None false = false ->
  string_open pre None false = false ->
  tokenize_line (pre ++ 39 :: post)
  = (fun bs => bs ++ comment_marker) <$> tokenize_line pre.
Proof.
  intros Hcs Hso. unfold tokenize_line.
  rewrite (tok_loop_comment pre 0 None false [] post);
    [ | lia | intros x Hx; cbn in Hx; contradiction | assumption..].
  destruct (tok_loop pre 0 None false []); reflexivity.
Qed.

Lemma comment_text_dropped_witness :
  comment_starts (cps "PRINT 1") None false = false
  /\ string_open (cps "PRINT 1") None false = false
  /\ tokenize_line (cps "PRINT 1" ++ 39 :: [0x2603; 0x41])
     = (fun bs => bs ++ comment_marker) <$> tokenize_line (cps "PRINT 1").
Proof.
  refine (conj eq_refl (conj eq_refl _)).
  apply comment_text_dropped; reflexivity.
Defined.

(** *** Zero bytes *)

Lemma insert_before_last_Forall (P : Z -> Prop) (buf : list Z) (v : Z) :
  P v -> Forall P buf -> Forall P (insert_before_last buf v).
Proof.
  intros Hv Hb. unfold insert_before_last.
  apply Forall_app. split; [apply Forall_take; exact Hb|].
  constructor; [exact Hv | apply Forall_drop; exact Hb].
Qed.

Lemma else_fixup_Forall (P : Z -> Prop) (u buf : list Z) :
  P 0x3A -> Forall P buf -> Forall P (else_fixup u buf).
Proof.
  intros Hv Hb. unfold else_fixup.
  destruct (bool_decide _); [|exact Hb].
  destruct (_ && _); [apply insert_before_last_Forall; assumption | exact Hb].
Qed.

Lemma append_Forall (P : Z -> Prop) (buf : list Z) (v : Z) (buf' : list Z) :
  P v -> Forall P buf -> append buf v = Some buf' -> Forall P buf'.
Proof.
  intros Hv Hb H. destruct (append_cases buf v) as [E|E]; rewrite E in H;
    [discriminate H|].
  injection H as <-. apply Forall_app. split; [exact Hb|].
  constructor; [exact Hv | constructor].
Qed.

Lemma tok_loop_no_zero (rest : list Z) :
  forall (skip : nat) (prev : option Z) (in_string : bool) (buf out : list Z),
    Forall (fun c => c <> 0) rest -> Forall (fun c => c <> 0) buf ->
    tok_loop rest skip prev in_string buf = Some out ->
    Forall (fun c => c <> 0) out.
Proof.
  induction rest as [|c rest IH]; intros skip prev s buf out Hr Hb Hout.
  - destruct skip; injection Hout as <-; exact Hb.
  - inversion Hr as [|? ? Hc Hrest]; subst.
    destruct skip as [|k];
      [|rewrite tok_loop_skip in Hout; exact (IH _ _ _ _ _ Hrest Hb Hout)].
    rewrite tok_loop_cons in Hout.
    destruct (bool_decide (c = 34) && negb (bool_decide (prev = Some 92))).
    { apply bind_Some in Hout. destruct Hout as (buf' & E & Hout).
      eapply IH; [exact Hrest | | exact Hout].
      eapply (append_Forall _ buf 34); [lia | exact Hb | exact E]. }
    destruct (bool_decide (c = 39) && negb s).
    { apply bind_Some in Hout. destruct Hout as (b1 & E1 & Hout).
      apply bind_Some in Hout. destruct Hout as (b2 & E2 & Hout).
      eapply (append_Forall _ b2 0xFF); [lia | | exact Hout].
      eapply (append_Forall _ b1 0x8E); [lia | | exact E2].
      eapply (append_Forall _ buf 0x3A); [lia | exact Hb | exact E1]. }
    destruct s.
    { apply bind_Some in Hout. destruct Hout as (buf' & E & Hout).
      eapply IH; [exact Hrest | | exact Hout].
      eapply (append_Forall _ buf c); [exact Hc | exact Hb | exact E]. }
    destruct (match_keyword (c :: rest)) as [[[t u] L]|] eqn:Ek.
    + apply match_keyword_spec in Ek. destruct Ek as (_ & _ & Ht).
      apply tokens_get_value in Ht.
      apply bind_Some in Hout. destruct Hout as (buf' & E & Hout).
      eapply IH; [exact Hrest | | exact Hout].
      apply else_fixup_Forall; [lia|].
      eapply (append_Forall _ buf t); [lia | exact Hb | exact E].
    + apply bind_Some in Hout. destruct Hout as (buf' & E & Hout).
      eapply IH; [exact Hrest | | exact Hout].
      eapply (append_Forall _ buf c); [exact Hc | exact Hb | exact E].
Qed.

(** X22.  The payload of a line holds a zero byte only where the line
    holds a NUL character: on a line without one, the 00 that ends the
    record is the first zero byte after the payload starts. *)
Theorem tokenize_line_no_zero (code out : list Z) :
  Forall (fun c => c <> 0) code ->
  tokenize_line code = Some out ->
  Forall (fun c => c <> 0) out.
Proof.
  intros Hc Hout.
  apply (tok_loop_no_zero code 0 None false [] out Hc); [constructor | exact Hout].
Qed.

Lemma tokenize_line_no_zero_witness :
  Forall (fun c => c <> 0) (cps "IF A THEN 20 ELSE 30")
  /\ Forall (fun c => c <> 0)
            [0x8A; 0x20; 0x41; 0x20; 0xCD; 0x20; 0x32; 0x30; 0x20;
             0x3A; 0x91; 0x20; 0x33; 0x30].
Proof.
  assert (H : Forall (fun c => c <> 0) (cps "IF A THEN 20 ELSE 30")).
  { repeat constructor; discriminate. }
  exact (conj H (tokenize_line_no_zero _ _ H eq_refl)).
Defined.

(** *** The colon before ELSE *)

(** X23.  In the payload of an ASCII line every ELSE token that is not
    the first byte follows the byte of a colon. *)
Theorem else_follows_colon (code out : list Z) :
  Forall (fun c => 0 <= c < 128) code ->
  tokenize_line code = Some out ->
  forall k, out !! S k = Some 0x91 -> out !! k = Some 0x3A.
Proof. apply colon_before_else_after_start. Qed.

Lemma else_follows_colon_witness :
  Forall (fun c => 0 <= c < 128) (cps "IF A THEN 20 ELSE 30")
  /\ [0x8A; 0x20; 0x41; 0x20; 0xCD; 0x20; 0x32; 0x30; 0x20;
      0x3A; 0x91; 0x20; 0x33; 0x30] !! 9%nat = Some 0x3A.
Proof.
  assert (H : Forall (fun c => 0 <= c < 128) (cps "IF A THEN 20 ELSE 30")).
  { repeat constructor; vm_compute; congruence. }
  exact (conj H (else_follows_colon _ _ H eq_refl 9%nat eq_refl)).
Defined.

(** *** String literals *)

Lemma tok_loop_in_string (s : list Z) :
  forall (prev : option Z) (buf rest : list Z),
    Forall is_byte s -> (forall x, In x s -> x <> 34) ->
    tok_loop (s ++ rest) 0 prev true buf
    = tok_loop rest 0 (match last s with Some c => Some c | None => prev end)
               true (buf ++ s).
Proof.
  induction s as [|c s IH]; intros prev buf rest Hb Hq.
  - cbn. rewrite app_nil_r. reflexivity.
  - inversion Hb as [|? ? Hc Hs]; subst. cbn [app]. rewrite tok_loop_cons.
    rewrite (bool_decide_eq_false_2 (c = 34)) by (apply Hq; left; reflexivity).
    cbn [andb]. rewrite andb_false_r.
    rewrite append_byte by exact Hc. cbn.
    rewrite IH; [|exact Hs | intros x Hx; apply Hq; right; exact Hx].
    rewrite <- app_assoc. cbn [app].
    destruct s as [|c' s']; [reflexivity|].
    change (last (c :: c' :: s')) with (last (c' :: s')).
    destruct (last (c' :: s')) eqn:E; [reflexivity|].
    apply last_None in E. discriminate E.
Qed.

(** X24.  The characters of a string literal are copied byte for byte,
    whether the literal is closed or runs to the end of the line: nothing
    inside it is read as a keyword or as the start of a comment. *)
Theorem string_literal_copied (s : list Z) :
  Forall is_byte s -> (forall x, In x s -> x <> 34) ->
  tokenize_line (34 :: s) = Some (34 :: s)
  /\ tokenize_line (34 :: s ++ [34]) = Some (34 :: s ++ [34]).
Proof.
  intros Hb Hq. unfold tokenize_line.
  assert (Hfirst : forall rest,
             tok_loop (34 :: rest) 0 None false []
             = tok_loop rest 0 (Some 34) true [34]).
  { intros rest. rewrite tok_loop_cons. reflexivity. }
  rewrite (Hfirst s), (Hfirst (s ++ [34])). split.
  - rewrite <- (app_nil_r s) at 1. rewrite tok_loop_in_string by assumption.
    reflexivity.
  - rewrite tok_loop_in_string by assumption. rewrite tok_loop_cons.
    match goal with
    | |- (if ?b then _ else _) = _ => destruct b
    end; reflexivity.
Qed.

Lemma string_literal_copied_witness :
  Forall is_byte (cps "IF 'A' THEN GOTO") 
  /\ (forall x, In x (cps "IF 'A' THEN GOTO") -> x <> 34)
  /\ tokenize_line (34 :: cps "IF 'A' THEN GOTO")
     = Some (34 :: cps "IF 'A' THEN GOTO")
  /\ tokenize_line (34 :: cps "IF 'A' THEN GOTO" ++ [34])
     = Some (34 :: cps "IF 'A' THEN GOTO" ++ [34]).
Proof.
  assert (H1 : Forall is_byte (cps "IF 'A' THEN GOTO")).
  { repeat constructor; vm_compute; congruence. }
  assert (H2 : forall x, In x (cps "IF 'A' THEN GOTO") -> x <> 34).
  { intros x Hx. vm_compute in Hx. intuition lia. }
  exact (conj H1 (conj H2 (string_literal_copied _ H1 H2))).
Defined.

(** *** The length of a payload *)

Lemma upper_cp_length (c : Z) : (length (upper_cp c) <= 3)%nat.
Proof.
  unfold upper_cp.
  repeat match goal with
         | |- context [if ?b then _ else _] => destruct b
         end; cbn; lia.
Qed.

Lemma upper_length (l : list Z) : (length (upper l) <= 3 * length l)%nat.
Proof.
  induction l as [|c l IH]; [cbn; lia|].
  change (upper (c :: l)) with (upper_cp c ++ upper l).
  rewrite length_app. pose proof (upper_cp_length c). cbn [length]. lia.
Qed.

Lemma else_fixup_length (u buf : list Z) :
  (length (else_fixup u buf)
   <= length buf + if bool_decide (u = cps "ELSE") then 1 else 0)%nat.
Proof.
  unfold else_fixup. destruct (bool_decide (u = cps "ELSE")); [|lia].
  destruct (_ && _); [|lia].
  unfold insert_before_last. rewrite length_app. cbn [length].
  rewrite length_take, length_drop. lia.
Qed.

Lemma append_length (buf : list Z) (v : Z) (buf' : list Z) :
  append buf v = Some buf' -> length buf' = S (length buf).
Proof.
  intros H. destruct (append_cases buf v) as [E|E]; rewrite E in H;
    [discriminate H|].
  injection H as <-. rewrite length_app. cbn [length]. lia.
Qed.

Lemma tok_loop_length (rest : list Z) :
  forall (skip : nat) (prev : option Z) (in_string : bool) (buf out : list Z),
    (skip <= length rest)%nat ->
    (forall x, In x (take skip rest) -> x <> 34 /\ x <> 39) ->
    tok_loop rest skip prev in_string buf = Some out ->
    (length out + skip
     <= length buf + length rest
        + if comment_starts rest prev in_string then 2 else 0)%nat.
Proof.
  induction rest as [|c rest IH]; intros skip prev s buf out Hs Hq Hout.
  - cbn [length] in Hs. assert (skip = 0%nat) as -> by lia.
    injection Hout as <-. cbn. lia.
  - cbn [length]. destruct skip as [|k].
    + rewrite tok_loop_cons in Hout. cbn [comment_starts].
      destruct (bool_decide (c = 34) && negb (bool_decide (prev = Some 92))).
      { apply bind_Some in Hout. destruct Hout as (buf' & E & Hout).
        apply append_length in E.
        apply IH in Hout; [lia | lia | intros x Hx; cbn in Hx; contradiction]. }
      destruct (bool_decide (c = 39) && negb s).
      { apply bind_Some in Hout. destruct Hout as (b1 & E1 & Hout).
        apply bind_Some in Hout. destruct Hout as (b2 & E2 & Hout).
        apply append_length in E1, E2, Hout. lia. }
      destruct s.
      { apply bind_Some in Hout. destruct Hout as (buf' & E & Hout).
        apply append_length in E.
        apply IH in Hout; [lia | lia | intros x Hx; cbn in Hx; contradiction]. }
      destruct (match_keyword (c :: rest)) as [[[t u] L]|] eqn:Ek.
      * apply match_keyword_spec in Ek. destruct Ek as (HL & Hu & Ht).
        apply bind_Some in Hout. destruct Hout as (buf' & E & Hout).
        apply append_length in E.
        pose proof (else_fixup_length u buf') as Hfix.
        destruct L as [|L]; [lia|]. cbn [length] in HL.
        replace (S L - 1)%nat with L in Hout by lia.
        assert (Helse : bool_decide (u = cps "ELSE") = true -> (1 <= L)%nat).
        { intros Hb. apply bool_decide_eq_true_1 in Hb.
          pose proof (upper_length (take (S L) (c :: rest))) as Hlen.
          rewrite <- Hu, Hb in Hlen. rewrite length_take in Hlen.
          change (length (cps "ELSE")) with 4%nat in Hlen. lia. }
        apply IH in Hout; [| lia |].
        -- destruct (bool_decide (u = cps "ELSE"));
             [specialize (Helse eq_refl)|]; lia.
        -- cbn [take] in Hu.
           apply (matched_tail_quotes c (take L rest) u t Hu Ht).
      * apply bind_Some in Hout. destruct Hout as (buf' & E & Hout).
        apply append_length in E.
        apply IH in Hout; [lia | lia | intros x Hx; cbn in Hx; contradiction].
    + rewrite tok_loop_skip in Hout.
      assert (Ha : c <> 34 /\ c <> 39) by (apply Hq; left; reflexivity).
      cbn [comment_starts].
      rewrite (bool_decide_eq_false_2 (c = 34)) by tauto.
      rewrite (bool_decide_eq_false_2 (c = 39)) by tauto.
      cbn [andb].
      apply IH in Hout; [lia | cbn [length] in Hs; lia |].
      intros x Hx. apply Hq. right. exact Hx.
Qed.

(** X25.  Tokenizing never makes a line longer, except for the two bytes
    that the marker of a comment adds: the payload has at most as many
    bytes as the line has characters, and at most two more when the line
    holds an apostrophe outside a string literal. *)
Theorem tokenize_line_length (code out : list Z) :
  tokenize_line code = Some out ->
  (length out
   <= length code + if comment_starts code None false then 2 else 0)%nat.
Proof.
  intros H.
  pose proof (tok_loop_length code 0 None false [] out) as Hlen.
  cbn [length take] in Hlen. rewrite Nat.add_0_r in Hlen.
  apply Hlen; [lia | intros x []| exact H].
Qed.

Lemma tokenize_line_length_witness :
  (length [0x3A; 0x91; 0x3A; 0x8E; 0xFF]
   <= length (cps ":ELSE'")
      + if comment_starts (cps ":ELSE'") None false then 2 else 0)%nat.
Proof.
  exact (tokenize_line_length (cps ":ELSE'") [0x3A; 0x91; 0x3A; 0x8E; 0xFF]
           eq_refl).
Defined.

End TokenizerInvariantProofs.

(** ** The encoder, record by record *)

Module EncoderInvariantProofs.
Import PyStr Tokenize Spec.
Import EncoderProofs.

Lemma records_from_app (a b : list tline) :
  forall addr : Z,
    records_from addr (a ++ b)
    = records_from addr a ++ records_from (addr + total_size a) b.
Proof.
  induction a as [|l a IH]; intros addr.
  - rewrite total_size_nil, Z.add_0_r. reflexivity.
  - cbn [app]. rewrite !records_from_cons, IH, total_size_cons.
    rewrite <- app_assoc, Z.add_assoc. reflexivity.
Qed.

(** X26.  The encoder writes a program record by record: the output for
    a program followed by further lines is the output for the program,
    unchanged, followed by the output for these lines at the address where
    the program ends.  No byte of a record depends on the lines after
    it. *)
Theorem encode_lines_app (base : Z) (a b : list tline) :
  encode_lines base (a ++ b)
  = encode_lines base a ++ encode_lines (base + total_size a) b.
Proof. rewrite !encode_lines_records. apply records_from_app. Qed.

End EncoderInvariantProofs.
